(** * SimpSniper: the subreddit-profile derivation pipeline

    A shallow embedding of the rule parser, the engagement calculator, the
    best-posting-time analyzer and the niche-tag inferencer, in their two
    implementations: the server's [SubredditScraper]
    (services/subredditScraper.js) and the browser's
    [ClientSubredditScraper] (src/lib/clientSubredditScraper.js).

    With them, what surrounds the pipeline: the two [scrapeSubreddit] and
    [scrapeMultiple], the public Reddit client the browser fetches with,
    the server's [saveToDatabase] and the browser's [LocalDatabase], the
    batch script [scrapeFromNodeIds], [calculateSimilarity] of the data
    service and the statements of the listing route.

    Conventions of the embedding.
    - A JavaScript string is the list of its UTF-16 code units ([list N]).
    - A JavaScript object used as a record is a [gmap string value]; a key
      that is absent reads as [undefined].  An object whose entries are
      iterated ([Object.entries], [for ... in]) is an association list in
      insertion order.
    - A Number is a binary64 double.  [VNum n] is the Number that is the
      non-negative integer [n], [VInfinity] and [VNaN] are the two others
      the pipeline can hold in a field.  [parseInt] gives the Number
      nearest to the digits it reads ([number_of]: exact below 2^53,
      rounded to 53 significant bits above, Infinity from 2^1024 - 2^970
      on), and a Number is printed by [Number::toString] ([number_text]:
      decimal digits below 10^21, the exponent form above).
    - Scores and comment counts are integers; the figures computed from
      them (sums, means, the engagement score, the mean scores that rank
      posting hours) are doubles, with the IEEE 754 operations of
      [SpecFloat].  What a comparator of [sort] returns is read as an
      exact number extended with the infinities and NaN: for the scores it
      is their difference, whose sign the subtraction of two integers that
      are doubles keeps; for the posting hours it is the exact value of
      the double that the subtraction of the two means gives.
    - A date is its time value in milliseconds; beyond 8.64e15 ms from the
      epoch the date is invalid, and [getDay] and [getHours] are NaN.  A
      post without [created_utc] behaves as one beyond the range.
    - Network calls are made by the callers; a function that awaits a fetch
      takes the fetched data as its argument. *)

From Stdlib Require Import ZArith NArith QArith List String Ascii DecimalString.
From Stdlib Require Import Sorting Permutation Lia SpecFloat Qpower.
From stdpp Require Import gmap strings list.

Set Default Proof Using "Type".
Local Open Scope N_scope.

(** ** Strings *)

Abbreviation jsstring := (list N).

(** The code units of an ASCII literal. *)
Definition js (s : string) : jsstring :=
  List.map N_of_ascii (list_ascii_of_string s).

(** [String.prototype.includes]: is [kw] a contiguous part of [text]? *)
Fixpoint starts_with (kw text : jsstring) : bool :=
  match kw, text with
  | [], _ => true
  | _ :: _, [] => false
  | a :: kw', b :: text' => (a =? b) && starts_with kw' text'
  end.

Fixpoint includes (text kw : jsstring) : bool :=
  starts_with kw text ||
  match text with
  | [] => false
  | _ :: text' => includes text' kw
  end.

(** [Array.prototype.join]. *)
Fixpoint join (sep : jsstring) (parts : list jsstring) : jsstring :=
  match parts with
  | [] => []
  | [p] => p
  | p :: ps => p ++ sep ++ join sep ps
  end.

(** [String.prototype.split] with a one-unit separator. *)
Fixpoint split_on (sep : N) (s : jsstring) : list jsstring :=
  match s with
  | [] => [[]]
  | c :: s' =>
      if c =? sep then [] :: split_on sep s'
      else match split_on sep s' with
           | [] => [[c]]
           | w :: ws => (c :: w) :: ws
           end
  end.

(** [toLowerCase] on the ASCII range; it is applied to regex captures that
    consist of ASCII letters. *)
Definition lower_unit (c : N) : N :=
  if (65 <=? c) && (c <=? 90) then c + 32 else c.

Definition toLowerCase (s : jsstring) : jsstring := List.map lower_unit s.

(** ** Values *)

#[warnings="-register-all"]
Inductive value :=
| VUndefined
| VNull
| VBool (b : bool)
| VNum (n : N)        (* the Number that is the non-negative integer [n] *)
| VInfinity
| VNaN
| VStr (s : jsstring)
| VArr (l : list value).

(** ToBoolean. *)
Definition truthy (v : value) : bool :=
  match v with
  | VUndefined | VNull | VNaN => false
  | VBool b => b
  | VNum n => negb (n =? 0)
  | VInfinity => true
  | VStr s => match s with [] => false | _ => true end
  | VArr _ => true
  end.

(** [a || b] *)
Definition js_or (a b : value) : value := if truthy a then a else b.

Definition digits_of (n : N) : jsstring :=
  js (NilZero.string_of_uint (N.to_uint n)).

(** *** Integers as Numbers

    A Number is a double.  Every integer below 2^53 is one; above, the
    doubles are the integers of 53 significant bits, up to
    (2^53 - 1) * 2^971.  The Number for an integer is the nearest double,
    the one with an even last bit when two are as near, and Infinity from
    2^1024 - 2^970 on. *)
Definition round_double (n : N) : option N :=
  let bits := N.size n in
  if bits <=? 53 then Some n
  else
    let shift := bits - 53 in
    let q := N.shiftr n shift in
    let r := n - N.shiftl q shift in
    let half := N.shiftl 1 (shift - 1) in
    let q := if (half <? r) || ((r =? half) && N.odd q) then q + 1 else q in
    let m := N.shiftl q shift in
    if N.size m <=? 1024 then Some m else None.

(** The Number value for the integer [n]; [None] of [round_double] is
    Infinity. *)
Definition number_of (n : N) : value :=
  match round_double n with
  | Some m => VNum m
  | None => VInfinity
  end.

(** [Number::toString] of an integer.  Below 10^21 it is the decimal
    digits.  From 10^21 on it is the exponent form of the shortest run of
    digits [s], of length [k], for which [s * 10^(n - k)] rounds to the
    Number; if there are two such runs, the one nearer to the Number, and
    the even one if they are as near.  A run of 17 digits always
    exists. *)
Definition rounds_to (n c : N) : bool :=
  match round_double c with
  | Some m => m =? n
  | None => false
  end.

(** The candidates with [k] significant digits: the multiples of
    [10^(D - k)] on either side of [n], which has [D] digits. *)
Definition candidate (n : N) (k : nat) : option N :=
  let p := 10 ^ N.of_nat (length (digits_of n) - k) in
  let lo := n / p * p in
  let hi := lo + p in
  match rounds_to n lo, rounds_to n hi with
  | true, true =>
      Some (if n - lo <? hi - n then lo
            else if hi - n <? n - lo then hi
            else if N.even (lo / p) then lo else hi)
  | true, false => Some lo
  | false, true => Some hi
  | false, false => None
  end.

Fixpoint shortest (n : N) (k tries : nat) : N :=
  match tries with
  | O => n
  | S tries' =>
      match candidate n k with
      | Some c => c
      | None => shortest n (S k) tries'
      end
  end.

(** The digits without the zeros at their end. *)
Fixpoint drop_zeros (ds : jsstring) : jsstring :=
  match ds with
  | [] => []
  | d :: ds' =>
      match drop_zeros ds' with
      | [] => if d =? 48 then [] else [d]
      | rest => d :: rest
      end
  end.

Definition exponent_form (n : N) : jsstring :=
  let ds := digits_of (shortest n 1 17) in
  match drop_zeros ds with
  | [] => ds
  | [d] => [d] ++ js "e+" ++ digits_of (N.of_nat (length ds - 1))
  | d :: rest =>
      [d] ++ js "." ++ rest ++ js "e+" ++ digits_of (N.of_nat (length ds - 1))
  end.

Definition number_text (n : N) : jsstring :=
  if n <? 10 ^ 21 then digits_of n else exponent_form n.

(** ToString, as used by template literals and by [parseInt]. *)
Fixpoint ToString (v : value) : jsstring :=
  match v with
  | VUndefined => js "undefined"
  | VNull => js "null"
  | VBool true => js "true"
  | VBool false => js "false"
  | VNum n => number_text n
  | VInfinity => js "Infinity"
  | VNaN => js "NaN"
  | VStr s => s
  | VArr l =>
      join (js ",")
        (List.map (λ x, match x with
                        | VUndefined | VNull => []
                        | _ => ToString x
                        end) l)
  end.

Definition is_digit (c : N) : bool := (48 <=? c) && (c <=? 57).

(** The value of the leading run of decimal digits. *)
Fixpoint parse_digits (acc : N) (s : jsstring) : N :=
  match s with
  | [] => acc
  | c :: s' => if is_digit c then parse_digits (10 * acc + (c - 48)) s' else acc
  end.

(** [parseInt] in base 10: the Number for the leading run of decimal
    digits, NaN when the text does not start with a digit.  The Number is
    that of all the digits, as V8 reads them (the language lets an
    implementation read the digits after the 20th as zeros).  Leading white
    space, a sign and a "0x" prefix are not modelled; the texts it is
    applied to here (what [\d+] captured, the number 1, the hour part of a
    time key) have none. *)
Definition parseInt (v : value) : value :=
  match ToString v with
  | [] => VNaN
  | c :: s => if is_digit c then number_of (parse_digits 0 (c :: s)) else VNaN
  end.

(** Property read on an object: an absent key reads as [undefined]. *)
Definition get (o : gmap string value) (k : string) : value :=
  default VUndefined (o !! k).

(** [m[i]] on a match result. *)
Definition cap (m : gmap nat jsstring) (i : nat) : value :=
  match m !! i with
  | Some s => VStr s
  | None => VUndefined
  end.

(** ** Regular expressions

    The fragment of ECMAScript patterns the scraper uses, matched by
    backtracking in priority order with a continuation, as the language
    specifies it.  All patterns carry the [i] flag and none the [u] flag. *)

Inductive regex :=
| Lit (s : jsstring)          (* literal characters *)
| Cls (c : N → bool)          (* one character of a class *)
| Seq (r1 r2 : regex)
| Alt (r1 r2 : regex)         (* r1|r2 *)
| Opt (r : regex)             (* r? *)
| Star (c : N → bool)         (* c*, greedy *)
| StarLazy (c : N → bool)     (* c*?, lazy *)
| Grp (i : nat) (r : regex).  (* the i-th capturing group *)

(** [\d], [\s] and [.] *)
Definition cls_d : N → bool := is_digit.

Definition cls_s (c : N) : bool :=
  ((9 <=? c) && (c <=? 13)) || (c =? 32) || (c =? 160) || (c =? 5760)
  || ((8192 <=? c) && (c <=? 8202)) || (c =? 8232) || (c =? 8233)
  || (c =? 8239) || (c =? 8287) || (c =? 12288) || (c =? 65279).

Definition cls_dot (c : N) : bool :=
  negb ((c =? 10) || (c =? 13) || (c =? 8232) || (c =? 8233)).

(** Canonicalize under [i] without [u]: the upper-case mapping, which for
    the ASCII letters of the patterns relates exactly a letter and its other
    case (a code unit of 128 or more never canonicalizes into ASCII). *)
Definition canon (c : N) : N :=
  if (97 <=? c) && (c <=? 122) then c - 32 else c.

Fixpoint match_lit (p s : jsstring) : option jsstring :=
  match p, s with
  | [], _ => Some s
  | _ :: _, [] => None
  | a :: p', b :: s' => if canon a =? canon b then match_lit p' s' else None
  end.

Abbreviation captures := (gmap nat jsstring).
Abbreviation cont := (jsstring → gmap nat jsstring → option (gmap nat jsstring)).

Fixpoint star_greedy (c : N → bool) (s : jsstring) (caps : captures)
    (k : cont) : option captures :=
  match s with
  | x :: s' =>
      if c x then
        match star_greedy c s' caps k with
        | Some r => Some r
        | None => k s caps
        end
      else k s caps
  | [] => k s caps
  end.

Fixpoint star_lazy (c : N → bool) (s : jsstring) (caps : captures)
    (k : cont) : option captures :=
  match k s caps with
  | Some r => Some r
  | None =>
      match s with
      | x :: s' => if c x then star_lazy c s' caps k else None
      | [] => None
      end
  end.

(** What a group that started at [s] captured when the rest is [s']. *)
Definition consumed (s s' : jsstring) : jsstring :=
  take (length s - length s')%nat s.

Fixpoint mtch (r : regex) (s : jsstring) (caps : captures) (k : cont)
    : option captures :=
  match r with
  | Lit p =>
      match match_lit p s with
      | Some s' => k s' caps
      | None => None
      end
  | Cls c =>
      match s with
      | x :: s' => if c x then k s' caps else None
      | [] => None
      end
  | Seq r1 r2 => mtch r1 s caps (λ s1 c1, mtch r2 s1 c1 k)
  | Alt r1 r2 =>
      match mtch r1 s caps k with
      | Some res => Some res
      | None => mtch r2 s caps k
      end
  | Opt r1 =>
      match mtch r1 s caps k with
      | Some res => Some res
      | None => k s caps
      end
  | Star c => star_greedy c s caps k
  | StarLazy c => star_lazy c s caps k
  | Grp i r1 => mtch r1 s caps (λ s1 c1, k s1 (<[i := consumed s s1]> c1))
  end.

(** [RegExp.prototype.exec] without the [g] flag: the leftmost match.  The
    result maps 0 to the matched text and i to what group i captured; a
    group that took no part in the match is absent. *)
Fixpoint exec (r : regex) (s : jsstring) : option captures :=
  match mtch r s ∅ (λ s' c, Some (<[0%nat := consumed s s']> c)) with
  | Some m => Some m
  | None =>
      match s with
      | [] => None
      | _ :: s' => exec r s'
      end
  end.

(** [RegExp.prototype.test]. *)
Definition test (r : regex) (s : jsstring) : bool :=
  match exec r s with Some _ => true | None => false end.

Definition plus (c : N → bool) : regex := Seq (Cls c) (Star c).

Fixpoint seqs (rs : list regex) : regex :=
  match rs with
  | [] => Lit []
  | [r] => r
  | r :: rs' => Seq r (seqs rs')
  end.

(** *** The scraper's patterns

    In the comments below a blank before a closing parenthesis is not part
    of the pattern. *)

(** Source pattern: /(\d+)\s*(?:combined\s* )?karma/i *)
Definition re_karma_count : regex :=
  seqs [Grp 1 (plus cls_d); Star cls_s;
        Opt (Seq (Lit (js "combined")) (Star cls_s)); Lit (js "karma")].

(** Source pattern: /karma.*?(\d+)/i *)
Definition re_karma_then : regex :=
  seqs [Lit (js "karma"); StarLazy cls_dot; Grp 1 (plus cls_d)].

(** Source pattern: /minimum.*?(\d+).*?karma/i *)
Definition re_karma_minimum : regex :=
  seqs [Lit (js "minimum"); StarLazy cls_dot; Grp 1 (plus cls_d);
        StarLazy cls_dot; Lit (js "karma")].

Definition karmaPatterns : list regex :=
  [re_karma_count; re_karma_then; re_karma_minimum].

(** Source pattern: /(\d+)\s*days?\s*old/i *)
Definition re_age_old : regex :=
  seqs [Grp 1 (plus cls_d); Star cls_s; Lit (js "day"); Opt (Lit (js "s"));
        Star cls_s; Lit (js "old")].

(** Source pattern: /account.*?(\d+)\s*days/i *)
Definition re_age_account : regex :=
  seqs [Lit (js "account"); StarLazy cls_dot; Grp 1 (plus cls_d);
        Star cls_s; Lit (js "days")].

(** Source pattern: /(\d+)\s*day.*?account/i *)
Definition re_age_day : regex :=
  seqs [Grp 1 (plus cls_d); Star cls_s; Lit (js "day"); StarLazy cls_dot;
        Lit (js "account")].

Definition agePatterns : list regex :=
  [re_age_old; re_age_account; re_age_day].

(** Source pattern: /verif(y|ied|ication)/i *)
Definition re_verif : regex :=
  Seq (Lit (js "verif"))
      (Grp 1 (Alt (Lit (js "y")) (Alt (Lit (js "ied")) (Lit (js "ication"))))).

(** Source pattern: /no\s*(external\s* )?links?/i *)
Definition re_no_links : regex :=
  seqs [Lit (js "no"); Star cls_s;
        Opt (Grp 1 (Seq (Lit (js "external")) (Star cls_s)));
        Lit (js "link"); Opt (Lit (js "s"))].

(** Source pattern: /links?\s*(only\s* )?(in\s* )?profile/i *)
Definition re_profile_links : regex :=
  seqs [Lit (js "link"); Opt (Lit (js "s")); Star cls_s;
        Opt (Grp 1 (Seq (Lit (js "only")) (Star cls_s)));
        Opt (Grp 2 (Seq (Lit (js "in")) (Star cls_s)));
        Lit (js "profile")].

(** Source pattern: /(\d+)\s*(?:posts?|submissions?)\s*per\s*(\d+)?\s*(hour|day)/i *)
Definition re_frequency : regex :=
  seqs [Grp 1 (plus cls_d); Star cls_s;
        Alt (Seq (Lit (js "post")) (Opt (Lit (js "s"))))
            (Seq (Lit (js "submission")) (Opt (Lit (js "s"))));
        Star cls_s; Lit (js "per"); Star cls_s;
        Opt (Grp 2 (plus cls_d)); Star cls_s;
        Grp 3 (Alt (Lit (js "hour")) (Lit (js "day")))].

(** ** Numbers *)

(** *** Doubles *)

Abbreviation double := spec_float.

Definition dadd : double → double → double := SFadd 53 1024.
Definition dsub : double → double → double := SFsub 53 1024.
Definition dmul : double → double → double := SFmul 53 1024.
Definition ddiv : double → double → double := SFdiv 53 1024.

(** The double nearest to an integer: the integer itself below 2^53. *)
Definition of_int (z : Z) : double := binary_normalize 53 1024 z 0 false.

(** The literals 0, 0.7 and 0.3. *)
Definition d0 : double := S754_zero false.
Definition d07 : double := S754_finite false 6305039478318694 (-53).
Definition d03 : double := S754_finite false 5404319552844595 (-54).

(** [xs.reduce((a, b) => a + b, 0)] *)
Definition dsum (xs : list Z) : double :=
  fold_left (λ a b, dadd a (of_int b)) xs d0.

(** *** Exact numbers, for what a comparator returns *)

Inductive number :=
| Fin (q : Q)
| PInf
| NInf
| NaN.

Definition of_Z (z : Z) : number := Fin (inject_Z z).

Definition num_opp (a : number) : number :=
  match a with
  | Fin q => Fin (Qred (- q))
  | PInf => NInf
  | NInf => PInf
  | NaN => NaN
  end.

Definition num_add (a b : number) : number :=
  match a, b with
  | NaN, _ | _, NaN => NaN
  | PInf, NInf | NInf, PInf => NaN
  | PInf, _ | _, PInf => PInf
  | NInf, _ | _, NInf => NInf
  | Fin p, Fin q => Fin (Qred (p + q))
  end.

Definition num_sub (a b : number) : number := num_add a (num_opp b).

(** [x > 0] *)
Definition is_positive (a : number) : bool :=
  match a with
  | Fin q => (0 <? Qnum q)%Z
  | PInf => true
  | NInf | NaN => false
  end.

(** The exact value of a double. *)
Definition exact (d : double) : number :=
  match d with
  | S754_zero _ => Fin 0
  | S754_infinity false => PInf
  | S754_infinity true => NInf
  | S754_nan => NaN
  | S754_finite s m e => Fin (inject_Z (cond_Zopp s (Z.pos m)) * 2 ^ e)
  end.

(** [Array.prototype.sort] with a comparator: a stable sort, [b] going
    before [a] exactly when [comparefn a b > 0]. *)
Section Sort.
Context {A : Type} (comparefn : A → A → number).

Fixpoint sort_insert (x : A) (l : list A) : list A :=
  match l with
  | [] => [x]
  | y :: l' =>
      if is_positive (comparefn x y) then y :: sort_insert x l'
      else x :: l
  end.

Definition js_sort (l : list A) : list A := foldr sort_insert [] l.
End Sort.

(** [xs.reduce((a, b) => a + b, 0)] on integers, exactly. *)
Definition sum (xs : list Z) : Z := fold_left Z.add xs 0%Z.

Record post := {
  score : Z;
  num_comments : Z;
  created_utc : Z        (* seconds since the epoch *)
}.

(** ** The engagement calculator *)

Record engagement := {
  avg_upvotes : double;
  median_upvotes : option double;     (* [None]: undefined *)
  avg_comments : double;
  engagement_score : double
}.

(** The comparator [(a, b) => a - b] on integer scores. *)
Definition ascending (a b : Z) : number := num_sub (of_Z a) (of_Z b).

(** ** The best-posting-time analyzer *)

(** An object whose values are arrays, filled by
    [if (!o[key]) o[key] = []; o[key].push(x)]: entries stay in the order
    in which their keys were first seen. *)
Fixpoint obj_push {A : Type} (key : jsstring) (x : A)
    (o : list (jsstring * list A)) : list (jsstring * list A) :=
  match o with
  | [] => [(key, [x])]
  | (k, xs) :: o' =>
      if decide (k = key) then (k, xs ++ [x]) :: o'
      else (k, xs) :: obj_push key x o'
  end.

Definition dayNames : list jsstring :=
  [js "sunday"; js "monday"; js "tuesday"; js "wednesday"; js "thursday";
   js "friday"; js "saturday"].

Record slot := {
  hour : value;
  slot_score : double
}.

(** The comparator [(a, b) => b.score - a.score], a subtraction of
    doubles. *)
Definition descending (a b : slot) : number :=
  exact (dsub (slot_score b) (slot_score a)).

Section LocalTime.
(** The host's offset of local time from UTC, in milliseconds, at a given
    time value. *)
Variable LocalTZA : Z → Z.

(** The time value of [new Date(created_utc * 1000)], in milliseconds.
    Beyond 8.64e15 ms from the epoch the date is invalid and its time value
    is NaN ([None]); a product that a double does not hold exactly lies
    beyond. *)
Definition timeValue (created_utc : Z) : option Z :=
  let tv := (created_utc * 1000)%Z in
  if (Z.abs tv <=? 8640000000000000)%Z then Some tv else None.

Definition localTime (t : Z) : Z := (t + LocalTZA t)%Z.

(** [getDay] (1 January 1970 was a Thursday) and [getHours]; both are NaN
    ([None]) on an invalid date. *)
Definition getDay (created_utc : Z) : option nat :=
  (λ t, Z.to_nat ((localTime t / 86400000 + 4) mod 7))
  <$> timeValue created_utc.

Definition getHours (created_utc : Z) : option N :=
  (λ t, Z.to_N ((localTime t / 3600000) mod 24)) <$> timeValue created_utc.

(** [dayNames[date.getDay()]]; the element NaN of an array is
    undefined. *)
Definition dayOfDate (created_utc : Z) : value :=
  match getDay created_utc with
  | Some d => from_option VStr VUndefined (dayNames !! d)
  | None => VUndefined
  end.

Definition timeKey (p : post) : jsstring :=
  let day := dayOfDate (created_utc p) in
  let hour := from_option VNum VNaN (getHours (created_utc p)) in
  ToString day ++ js "_" ++ ToString hour.

(** The first loop: the scores of the posts, filed under their time key. *)
Definition performanceByTime (posts : list post)
    : list (jsstring * list Z) :=
  fold_left (λ o p, obj_push (timeKey p) (score p) o) posts [].
End LocalTime.

(** The second loop: one [{hour, score}] per key, filed under its day. *)
Definition bestHoursPerDay (performance : list (jsstring * list Z))
    : list (jsstring * list slot) :=
  fold_left
    (λ bestTimes '(key, scores),
       let pieces := split_on 95 key in
       let day := from_option VStr VUndefined (pieces !! 0%nat) in
       let hour := from_option VStr VUndefined (pieces !! 1%nat) in
       let avgScore :=
         ddiv (dsum scores) (of_int (Z.of_nat (length scores))) in
       obj_push (ToString day)
         {| hour := parseInt hour; slot_score := avgScore |} bestTimes)
    performance [].

(** The third loop: keep the top 3 hours of each day. *)
Definition keepTop3 (bestTimes : list (jsstring * list slot))
    : list (jsstring * list value) :=
  List.map
    (λ '(day, slots), (day, List.map hour (take 3 (js_sort descending slots))))
    bestTimes.

(** ** The niche-tag inferencer *)

Definition nicheKeywords : list (jsstring * list jsstring) :=
  [(js "feet", [js "feet"; js "foot"; js "toes"; js "soles"]);
   (js "petite", [js "petite"; js "tiny"; js "small"]);
   (js "bbw", [js "bbw"; js "curvy"; js "thick"; js "chubby"]);
   (js "latina", [js "latina"; js "hispanic"]);
   (js "asian", [js "asian"; js "japanese"; js "korean"]);
   (js "ebony", [js "ebony"; js "black"]);
   (js "blonde", [js "blonde"; js "blond"]);
   (js "redhead", [js "redhead"; js "ginger"]);
   (js "brunette", [js "brunette"]);
   (js "milf", [js "milf"; js "mom"; js "mature"]);
   (js "cosplay", [js "cosplay"; js "costume"]);
   (js "tattoo", [js "tattoo"; js "inked"; js "alt"]);
   (js "lingerie", [js "lingerie"; js "underwear"]);
   (js "amateur", [js "amateur"; js "homemade"; js "real"]);
   (js "fitness", [js "fitness"; js "fit"; js "athletic"]);
   (js "goth", [js "goth"; js "emo"]);
   (js "lesbian", [js "lesbian"])].

Record subredditInfo := {
  display_name : value;
  public_description : value
}.

(** [inferNicheTags] has the same text in both implementations. *)
Section NicheTags.
(** The host's [String.prototype.toLowerCase], over all of Unicode. *)
Variable lowerCase : jsstring → jsstring.

Definition nicheText (sub : subredditInfo) : jsstring :=
  lowerCase (ToString (display_name sub) ++ js " "
             ++ ToString (js_or (public_description sub) (VStr []))).

Definition inferNicheTags (sub : subredditInfo) : list jsstring :=
  let text := nicheText sub in
  let tags :=
    fold_left
      (λ tags '(tag, keywords),
         if existsb (λ kw, includes text kw) keywords
         then tags ++ [tag] else tags)
      nicheKeywords [] in
  match tags with
  | [] => [js "general"]
  | _ => tags
  end.
End NicheTags.

(** ** The rule parser *)

(** The first pattern of the list that matches, as the [for ... of] loops
    with [break] find it. *)
Fixpoint first_match (patterns : list regex) (text : jsstring)
    : option (gmap nat jsstring) :=
  match patterns with
  | [] => None
  | pattern :: rest =>
      match exec pattern text with
      | Some m => Some m
      | None => first_match rest text
      end
  end.

(** The checks that both implementations run in the same words:
    verification, the two link policies and the posting frequency (the
    last one below). *)
Definition check_verification (rulesText : jsstring)
    (requirements : gmap string value) : gmap string value :=
  if test re_verif rulesText
  then <["requires_verification" := VBool true]> requirements
  else requirements.

Definition check_link_policies (rulesText : jsstring)
    (requirements : gmap string value) : gmap string value :=
  let requirements :=
    if test re_no_links rulesText
    then <["allows_links_in_comments" := VBool false]>
           (<["allows_links_in_post" := VBool false]> requirements)
    else requirements in
  if test re_profile_links rulesText
  then <["allows_links_in_profile_only" := VBool true]>
         (<["allows_links_in_comments" := VBool false]>
            (<["allows_links_in_post" := VBool false]> requirements))
  else requirements.

(** Group 3 takes part in every match of the frequency pattern and consists
    of ASCII letters (lemma [frequency_capture] below), so that reading
    [freqMatch[3].toLowerCase()] never throws and [toLowerCase] is exact
    on it. *)
Definition check_posting_frequency (rulesText : jsstring)
    (requirements : gmap string value) : gmap string value :=
  match exec re_frequency rulesText with
  | Some freqMatch =>
      let unit := toLowerCase (ToString (cap freqMatch 3)) in
      let hours :=
        if decide (unit = js "day") then VNum 24
        else parseInt (js_or (cap freqMatch 2) (VNum 1)) in
      <["posting_frequency_limit" :=
          VStr (js "1 per " ++ ToString hours ++ js " hours")]>
        (<["posting_frequency_hours" := hours]> requirements)
  | None => requirements
  end.

Module Server.

(** What [parseRules] reads from the subreddit: its sidebar text and the
    outcome of the two fetches ([None] when the call throws). *)
Record rule := {
  short_name : value;
  rule_description : value;
  violation_reason : value
}.

Record subreddit := {
  description : value;
  getRules : option (list rule);
  getLinkFlairTemplates : option (list value)   (* the [text] of each *)
}.

Definition initial_requirements : gmap string value :=
  <["min_karma" := VNull]>
  (<["min_post_karma" := VNull]>
  (<["min_comment_karma" := VNull]>
  (<["min_account_age_days" := VNull]>
  (<["requires_verification" := VBool false]>
  (<["verification_instructions" := VNull]>
  (<["allows_links_in_post" := VBool true]>
  (<["allows_links_in_comments" := VBool true]>
  (<["posting_frequency_limit" := VNull]>
  (<["posting_frequency_hours" := VNull]>
  (<["required_flairs" := VArr []]>
  (<["banned_words" := VArr []]>
  (<["content_types_allowed" :=
       VArr [VStr (js "image"); VStr (js "video"); VStr (js "gif");
             VStr (js "text")]]> ∅)))))))))))).

Definition rulesTextOf (sub : subreddit) : jsstring :=
  let rulesText := ToString (js_or (description sub) (VStr [])) in
  match getRules sub with
  | Some rules =>
      fold_left
        (λ rulesText rule,
           rulesText ++ [10] ++ ToString (short_name rule)
           ++ js ": "
           ++ ToString (js_or (rule_description rule) (violation_reason rule)))
        rules rulesText
  | None => rulesText
  end.

(** [required_flairs] is an array in every object this is called on, so
    that reading its [length] does not throw. *)
Definition generateRulesSummary (requirements : gmap string value)
    : jsstring :=
  let parts := [] in
  let parts :=
    if truthy (get requirements "min_karma")
    then parts ++ [js "Need " ++ ToString (get requirements "min_karma")
                   ++ js " karma"]
    else parts in
  let parts :=
    if truthy (get requirements "min_account_age_days")
    then parts ++ [js "Account must be "
                   ++ ToString (get requirements "min_account_age_days")
                   ++ js "+ days old"]
    else parts in
  let parts :=
    if truthy (get requirements "requires_verification")
    then parts ++ [js "Verification required"]
    else parts in
  let parts :=
    if truthy (get requirements "posting_frequency_limit")
    then parts ++ [js "Posting limit: "
                   ++ ToString (get requirements "posting_frequency_limit")]
    else parts in
  let parts :=
    if negb (truthy (get requirements "allows_links_in_post"))
    then parts ++ [js "No links in posts (profile only)"]
    else parts in
  let parts :=
    match get requirements "required_flairs" with
    | VArr (_ :: _) => parts ++ [js "Must use flair"]
    | _ => parts
    end in
  match parts with
  | [] => js "No special requirements found"
  | _ => join [10] parts
  end.

(** [parseRules] once the rules text is assembled. *)
Definition parseRulesText (rulesText : jsstring)
    (flairs : option (list value)) : gmap string value :=
  let requirements := initial_requirements in
  let requirements :=
    match first_match karmaPatterns rulesText with
    | Some m => <["min_karma" := parseInt (cap m 1)]> requirements
    | None => requirements
    end in
  let requirements :=
    match first_match agePatterns rulesText with
    | Some m => <["min_account_age_days" := parseInt (cap m 1)]> requirements
    | None => requirements
    end in
  let requirements := check_verification rulesText requirements in
  let requirements := check_link_policies rulesText requirements in
  let requirements := check_posting_frequency rulesText requirements in
  let requirements :=
    match flairs with
    | Some texts =>
        <["required_flairs" := VArr (List.filter truthy texts)]> requirements
    | None => requirements
    end in
  let requirements := <["rules_raw" := VStr rulesText]> requirements in
  <["rules_summary" := VStr (generateRulesSummary requirements)]> requirements.

Definition parseRules (sub : subreddit) : gmap string value :=
  parseRulesText (rulesTextOf sub) (getLinkFlairTemplates sub).

(** [fetched] is what [getHot] returned, [None] when it threw. *)
Definition calculateEngagement (fetched : option (list post)) : engagement :=
  let posts := default [] fetched in
  let upvotes := List.map score posts in
  let comments := List.map num_comments posts in
  let avgUpvotes :=
    if (0 <? length upvotes)%nat
    then ddiv (dsum upvotes) (of_int (Z.of_nat (length upvotes)))
    else d0 in
  let medianUpvotes :=
    if (0 <? length upvotes)%nat
    then of_int <$> js_sort ascending upvotes !! (length upvotes / 2)%nat
    else Some d0 in
  let avgComments :=
    if (0 <? length comments)%nat
    then ddiv (dsum comments) (of_int (Z.of_nat (length comments)))
    else d0 in
  let engagementScore :=
    dadd (dmul avgUpvotes d07) (dmul avgComments d03) in
  {| avg_upvotes := avgUpvotes;
     median_upvotes := medianUpvotes;
     avg_comments := avgComments;
     engagement_score := engagementScore |}.

(** [fetched]: what [getTop] returned, [None] when it threw, which leaves
    [performanceByTime] empty. *)
Definition analyzeBestPostingTimes (LocalTZA : Z → Z)
    (fetched : option (list post)) : list (jsstring * list value) :=
  let performance :=
    match fetched with
    | Some posts => performanceByTime LocalTZA posts
    | None => []
    end in
  keepTop3 (bestHoursPerDay performance).

End Server.

Module Client.

Definition initial_requirements (rulesText : jsstring)
    : gmap string value :=
  <["min_karma" := VNull]>
  (<["min_account_age_days" := VNull]>
  (<["requires_verification" := VBool false]>
  (<["allows_links_in_post" := VBool true]>
  (<["allows_links_in_comments" := VBool true]>
  (<["posting_frequency_hours" := VNull]>
  (<["posting_frequency_limit" := VNull]>
  (<["rules_raw" := VStr rulesText]>
  (<["rules_summary" := VStr []]> ∅)))))))).

Definition parseRules (rulesText : jsstring) : gmap string value :=
  let requirements := initial_requirements rulesText in
  let requirements :=
    match exec re_karma_count rulesText with
    | Some karmaMatch =>
        <["min_karma" := parseInt (cap karmaMatch 1)]> requirements
    | None => requirements
    end in
  let requirements :=
    match exec re_age_old rulesText with
    | Some ageMatch =>
        <["min_account_age_days" := parseInt (cap ageMatch 1)]> requirements
    | None => requirements
    end in
  let requirements := check_verification rulesText requirements in
  let requirements := check_link_policies rulesText requirements in
  let requirements := check_posting_frequency rulesText requirements in
  let parts := [] in
  let parts :=
    if truthy (get requirements "min_karma")
    then parts ++ [js "Need " ++ ToString (get requirements "min_karma")
                   ++ js " karma"]
    else parts in
  let parts :=
    if truthy (get requirements "min_account_age_days")
    then parts ++ [js "Account must be "
                   ++ ToString (get requirements "min_account_age_days")
                   ++ js "+ days old"]
    else parts in
  let parts :=
    if truthy (get requirements "requires_verification")
    then parts ++ [js "Verification required"]
    else parts in
  let parts :=
    if truthy (get requirements "posting_frequency_limit")
    then parts ++ [js "Posting limit: "
                   ++ ToString (get requirements "posting_frequency_limit")]
    else parts in
  let parts :=
    if negb (truthy (get requirements "allows_links_in_post"))
    then parts ++ [js "No links in posts (profile only)"]
    else parts in
  <["rules_summary" :=
      VStr (match parts with
            | [] => js "No special requirements found"
            | _ => join [10] parts
            end)]> requirements.

(** [fetched] is what [getRecentPosts] returned, [None] had it thrown
    (it returns the empty list when its own request fails). *)
Definition calculateEngagement (fetched : option (list post)) : engagement :=
  match fetched with
  | Some posts =>
      let upvotes := List.map score posts in
      let comments := List.map num_comments posts in
      let avgUpvotes :=
        ddiv (dsum upvotes) (of_int (Z.of_nat (length upvotes))) in
      let sortedUpvotes := js_sort ascending upvotes in
      let medianUpvotes :=
        of_int <$> sortedUpvotes !! (length sortedUpvotes / 2)%nat in
      let avgComments :=
        ddiv (dsum comments) (of_int (Z.of_nat (length comments))) in
      let engagementScore :=
        dadd (dmul avgUpvotes d07) (dmul avgComments d03) in
      {| avg_upvotes := avgUpvotes;
         median_upvotes := medianUpvotes;
         avg_comments := avgComments;
         engagement_score := engagementScore |}
  | None =>
      {| avg_upvotes := d0;
         median_upvotes := Some d0;
         avg_comments := d0;
         engagement_score := d0 |}
  end.

(** [fetched]: what [getTopPosts] returned, [None] had it thrown. *)
Definition analyzeBestPostingTimes (LocalTZA : Z → Z)
    (fetched : option (list post)) : list (jsstring * list value) :=
  match fetched with
  | Some posts => keepTop3 (bestHoursPerDay (performanceByTime LocalTZA posts))
  | None => []
  end.

End Client.

(** ** Reference semantics of the patterns

    [matches r s c s' c']: pattern [r] can match a prefix of [s], leaving
    [s'] and turning the captures [c] into [c'].  It says which matches
    exist; [mtch] says in which order they are tried. *)

Inductive matches : regex → jsstring → gmap nat jsstring
                    → jsstring → gmap nat jsstring → Prop :=
| M_Lit p s s' c :
    match_lit p s = Some s' → matches (Lit p) s c s' c
| M_Cls cl x s c :
    cl x = true → matches (Cls cl) (x :: s) c s c
| M_Seq r1 r2 s c s1 c1 s2 c2 :
    matches r1 s c s1 c1 → matches r2 s1 c1 s2 c2 →
    matches (Seq r1 r2) s c s2 c2
| M_AltL r1 r2 s c s' c' :
    matches r1 s c s' c' → matches (Alt r1 r2) s c s' c'
| M_AltR r1 r2 s c s' c' :
    matches r2 s c s' c' → matches (Alt r1 r2) s c s' c'
| M_OptSome r s c s' c' :
    matches r s c s' c' → matches (Opt r) s c s' c'
| M_OptNone r s c :
    matches (Opt r) s c s c
| M_Star cl w s c :
    forallb cl w = true → matches (Star cl) (w ++ s) c s c
| M_StarLazy cl w s c :
    forallb cl w = true → matches (StarLazy cl) (w ++ s) c s c
| M_Grp i r s c s' c' :
    matches r s c s' c' →
    matches (Grp i r) s c s' (<[i := consumed s s']> c').

(** The text has a part that the pattern matches. *)
Definition occurs_in (r : regex) (text : jsstring) : Prop :=
  ∃ before s s' c', text = before ++ s ∧ matches r s ∅ s' c'.

(** ** Definitions used in the statements *)

(** A non-empty run of decimal digits. *)
Definition is_number_text (ds : jsstring) : bool :=
  match ds with
  | [] => false
  | _ => forallb is_digit ds
  end.

(** The integer captured, as group 1, by the first of [patterns] that
    matches, as a Number; null when none matches. *)
Fixpoint first_captured_integer (patterns : list regex) (text : jsstring)
    : value :=
  match patterns with
  | [] => VNull
  | p :: rest =>
      match exec p text with
      | Some m =>
          match m !! 1%nat with
          | Some ds => number_of (parse_digits 0 ds)
          | None => VNaN
          end
      | None => first_captured_integer rest text
      end
  end.

(** An extractor that tries [patterns] in order and takes the integer of
    the first that matches. *)
Definition tries_in_order (patterns : list regex)
    (min_karma_of : jsstring → value) : Prop :=
  ∀ text, min_karma_of text = first_captured_integer patterns text.

(** Two readings of "the minimum is set": the field is not null, *)
Definition non_null (v : value) : bool :=
  match v with
  | VNull | VUndefined => false
  | _ => true
  end.

(** or, more narrowly, the field is a number other than zero. *)
Definition nonzero_number (v : value) : bool :=
  match v with
  | VNum n => negb (n =? 0)
  | VInfinity => true
  | _ => false
  end.

(** The field is the boolean true; is the boolean false; is an array with
    at least one element. *)
Definition is_true (v : value) : bool :=
  match v with VBool true => true | _ => false end.

Definition is_false (v : value) : bool :=
  match v with VBool false => true | _ => false end.

Definition non_empty_array (v : value) : bool :=
  match v with VArr (_ :: _) => true | _ => false end.

Definition line_if (b : bool) (line : jsstring) : list jsstring :=
  if b then [line] else [].

(** The lines of the summary, one per requirement that is set, in the order
    karma, account age, verification, posting limit, link restriction,
    flair requirement; [minimum_set] says when a karma or age minimum counts
    as set. *)
Definition summary_lines (minimum_set : value → bool)
    (r : gmap string value) : list jsstring :=
  line_if (minimum_set (get r "min_karma"))
    (js "Need " ++ ToString (get r "min_karma") ++ js " karma")
  ++ line_if (minimum_set (get r "min_account_age_days"))
       (js "Account must be " ++ ToString (get r "min_account_age_days")
        ++ js "+ days old")
  ++ line_if (is_true (get r "requires_verification"))
       (js "Verification required")
  ++ line_if (non_null (get r "posting_frequency_limit"))
       (js "Posting limit: " ++ ToString (get r "posting_frequency_limit"))
  ++ line_if (is_false (get r "allows_links_in_post"))
       (js "No links in posts (profile only)")
  ++ line_if (non_empty_array (get r "required_flairs"))
       (js "Must use flair").

(** The summary made of the lines. *)
Definition summary_of (lines : list jsstring) : jsstring :=
  match lines with
  | [] => js "No special requirements found"
  | _ => join [10] lines
  end.

(** The shape of the fields the summary reads, in a parser's output. *)
Record well_shaped (r : gmap string value) : Prop := {
  shape_karma :
    get r "min_karma" = VNull ∨ get r "min_karma" = VInfinity
    ∨ ∃ k, get r "min_karma" = VNum k;
  shape_age :
    get r "min_account_age_days" = VNull
    ∨ get r "min_account_age_days" = VInfinity
    ∨ ∃ k, get r "min_account_age_days" = VNum k;
  shape_verification : ∃ b, get r "requires_verification" = VBool b;
  shape_limit :
    get r "posting_frequency_limit" = VNull
    ∨ ∃ x s, get r "posting_frequency_limit" = VStr (x :: s);
  shape_links : ∃ b, get r "allows_links_in_post" = VBool b;
  shape_flairs :
    get r "required_flairs" = VUndefined
    ∨ ∃ l, get r "required_flairs" = VArr l
}.

(** [o[key]] *)
Fixpoint obj_get {A : Type} (key : jsstring) (o : list (jsstring * list A))
    : option (list A) :=
  match o with
  | [] => None
  | (k, xs) :: o' => if decide (k = key) then Some xs else obj_get key o'
  end.

(** The loop [for (a of l) { push g(a) under f(a) }]. *)
Definition grouped {A B : Type} (f : A → jsstring) (g : A → B) (l : list A)
    : list (jsstring * list B) :=
  fold_left (λ o a, obj_push (f a) (g a) o) l [].

(** The key of day [d] (an index into [dayNames]) and hour [h]. *)
Definition mkKey (d : nat) (h : N) : jsstring :=
  ToString (match dayNames !! d with
            | Some name => VStr name
            | None => VUndefined
            end) ++ js "_" ++ ToString (VNum h).

(** What the second loop makes of one entry of [performanceByTime]. *)
Definition entry_day (entry : jsstring * list Z) : jsstring :=
  ToString (from_option VStr VUndefined (split_on 95 entry.1 !! 0%nat)).

(** The mean of the scores as the analyzer computes it: their sum, added
    up from the left, divided by their number, in doubles. *)
Definition mean_score (xs : list Z) : double :=
  ddiv (dsum xs) (of_int (Z.of_nat (length xs))).

Definition entry_slot (entry : jsstring * list Z) : slot :=
  {| hour := parseInt (from_option VStr VUndefined
                         (split_on 95 entry.1 !! 1%nat));
     slot_score := mean_score entry.2 |}.

(** The scores of the posts that fall on day [d], hour [h], and the posts
    whose time stamp is no valid date. *)
Definition scores_at (LocalTZA : Z → Z) (posts : list post) (d : nat) (h : N)
    : list Z :=
  score <$> filter (λ p, getDay LocalTZA (created_utc p) = Some d
                         ∧ getHours LocalTZA (created_utc p) = Some h) posts.

Definition undated (posts : list post) : list post :=
  filter (λ p, timeValue (created_utc p) = None) posts.

(** The key of a post without a valid date. *)
Definition undatedKey : jsstring := js "undefined_NaN".

(** When a post was made: its local day and hour, [None] when its time
    stamp is no valid date; and the key, the day and the hour that the
    analyzer makes of it. *)
Definition postTime (LocalTZA : Z → Z) (p : post) : option (nat * N) :=
  match getDay LocalTZA (created_utc p), getHours LocalTZA (created_utc p) with
  | Some d, Some h => Some (d, h)
  | _, _ => None
  end.

Definition valid_slot (w : option (nat * N)) : Prop :=
  match w with
  | Some (d, h) => (d < 7)%nat ∧ h < 24
  | None => True
  end.

Definition slotKey (w : option (nat * N)) : jsstring :=
  match w with
  | Some (d, h) => mkKey d h
  | None => undatedKey
  end.

Definition slotDay (w : option (nat * N)) : jsstring :=
  match w with
  | Some (d, _) => default [] (dayNames !! d)
  | None => js "undefined"
  end.

Definition slotHour (w : option (nat * N)) : value :=
  match w with
  | Some (_, h) => VNum h
  | None => VNaN
  end.

Definition scores_when (LocalTZA : Z → Z) (posts : list post)
    (w : option (nat * N)) : list Z :=
  score <$> filter (λ p, postTime LocalTZA p = w) posts.

(** A double with sign [s] that is neither zero nor NaN, and a double
    that is not finite or has an exponent of -1074, the least of a double,
    or more. *)
Definition signed (s : bool) (d : double) : Prop :=
  match d with
  | S754_finite s' _ e => s' = s ∧ (-1074 <= e)%Z
  | S754_infinity s' => s' = s
  | _ => False
  end.

Definition low_bounded (d : double) : Prop :=
  match d with
  | S754_finite _ _ e => (-1074 <= e)%Z
  | _ => True
  end.

(** A double that is a number and not negative: +0, a positive double or
    +Infinity. *)
Definition non_negative (d : double) : Prop :=
  match d with
  | S754_zero s | S754_infinity s | S754_finite s _ _ => s = false
  | S754_nan => False
  end.

(** The arithmetic mean, in lowest terms. *)
Definition mean (xs : list Z) : Q :=
  Qred (inject_Z (sum xs) / inject_Z (Z.of_nat (length xs))).

(** [a < b] on exact numbers; NaN stands in no order. *)
Definition num_lt (a b : number) : Prop :=
  match a, b with
  | Fin p, Fin q => (p < q)%Q
  | NInf, (Fin _ | PInf) | Fin _, PInf => True
  | _, _ => False
  end.

(** A double is ranked below another when its value is less. *)
Definition ranks_below (a b : double) : Prop := num_lt (exact a) (exact b).

(** Splitting the key of day [d], hour [h] at the underscore gives back
    the day name and the digits of the hour, which parse to [h]. *)
Definition key_decodes (d : nat) (h : N) : bool :=
  bool_decide (split_on 95 (mkKey d h) =
               [default [] (dayNames !! d); digits_of h])
  && match parseInt (VStr (digits_of h)) with
     | VNum n => n =? h
     | _ => false
     end.

(** The hour of a slot, as a number. *)
Definition slot_hour (s : slot) : N :=
  match hour s with VNum h => h | _ => 0 end.

(** The sample of the specification's scenario. *)
Definition sample3 : list post :=
  [ {| score := 10; num_comments := 2; created_utc := 0 |};
    {| score := 20; num_comments := 4; created_utc := 0 |};
    {| score := 30; num_comments := 6; created_utc := 0 |} ].

(** A month's sample in UTC: three posts on a Thursday at 0h, 1h and 2h,
    two more at 2h and 3h, and one on the Friday. *)
Definition sample6 : list post :=
  [ {| score := 30; num_comments := 2; created_utc := 0 |};
    {| score := 10; num_comments := 4; created_utc := 3600 |};
    {| score := 21; num_comments := 6; created_utc := 7200 |};
    {| score := 50; num_comments := 6; created_utc := 7200 |};
    {| score := 50; num_comments := 1; created_utc := 10800 |};
    {| score := 20; num_comments := 6; created_utc := 86400 |} ].

(** [x] may stand before [y] under the comparator. *)
Definition may_precede {A : Type} (comparefn : A → A → number) (x y : A)
    : Prop :=
  is_positive (comparefn x y) = false.

(** * The rest of the scrapers and what they call *)

(** [text] has a part that reads [word] once its ASCII letters are put in
    lower case. *)
Definition contains_ignoring_case (text word : jsstring) : Prop :=
  ∃ before w after, text = before ++ w ++ after ∧ toLowerCase w = word.

Definition verification_words : list jsstring :=
  [js "verify"; js "verified"; js "verification"].

(** The keys of the object [parseRules] starts from, and those it has
    written when it returns. *)
Definition server_initial_keys : list string :=
  ["min_karma"; "min_post_karma"; "min_comment_karma"; "min_account_age_days";
   "requires_verification"; "verification_instructions";
   "allows_links_in_post"; "allows_links_in_comments";
   "posting_frequency_limit"; "posting_frequency_hours";
   "required_flairs"; "banned_words"; "content_types_allowed"].

Definition server_keys : list string :=
  server_initial_keys ++ ["rules_raw"; "rules_summary"].

Definition client_keys : list string :=
  ["min_karma"; "min_account_age_days"; "requires_verification";
   "allows_links_in_post"; "allows_links_in_comments";
   "posting_frequency_hours"; "posting_frequency_limit";
   "rules_raw"; "rules_summary"].

(** The keys [parseRules] may assign after the initial object is built. *)
Definition written_keys : list string :=
  ["min_karma"; "min_account_age_days"; "requires_verification";
   "allows_links_in_post"; "allows_links_in_comments";
   "allows_links_in_profile_only";
   "posting_frequency_hours"; "posting_frequency_limit";
   "required_flairs"; "rules_raw"; "rules_summary"].

(** What the server's [parseRules] appends to the rules text for one rule. *)
Definition rule_line (rule : Server.rule) : jsstring :=
  [10] ++ ToString (Server.short_name rule) ++ js ": "
  ++ ToString (js_or (Server.rule_description rule)
                     (Server.violation_reason rule)).

(** ** Batch scraping

    [scrapeMultiple] of both scrapers.  What an awaited call comes to: it
    resolves with a value, or rejects with an [Error], given by its
    [message]. *)
Inductive outcome (A : Type) :=
| Resolved (a : A)
| Rejected (message : jsstring).
Arguments Resolved {A} a.
Arguments Rejected {A} message.

(** The object [results]. *)
Record batch := {
  success : list jsstring;
  failed : list (jsstring * jsstring)     (* [{name, error}] *)
}.

(** The argument of the browser's [onProgress]; [n_success] and [n_failed]
    are its fields [success] and [failed]. *)
Record progress := {
  current : nat;
  total : nat;
  n_success : nat;
  n_failed : nat
}.

(** The calls a batch makes, in the order in which it makes them. *)
Inductive event :=
| Scraped (name : jsstring)       (* [scrapeSubreddit(name)] *)
| Slept (ms : Z)                  (* [setTimeout(resolve, ms)], awaited *)
| Reported (p : progress).        (* [onProgress(p)] *)

Section Batch.
(** The state of the world outside the loop (the network, the database);
    [scrapeSubreddit] and the passing of time change it. *)
Context {World Data : Type}.
Variable scrapeSubreddit : jsstring → World → outcome Data * World.
Variable wait : Z → World → World.

Record run := {
  result : outcome batch;
  world : World;
  trace : list event
}.

(** The [try ... catch] of the loop body. *)
Definition attempt (name : jsstring) (w : World) (results : batch)
    : batch * World :=
  match scrapeSubreddit name w with
  | (Resolved _, w) =>
      ({| success := success results ++ [name]; failed := failed results |}, w)
  | (Rejected message, w) =>
      ({| success := success results;
          failed := failed results ++ [(name, message)] |}, w)
  end.

(** The server's loop from index [i] on, [rest] being the names from [i]
    on and [length] the length of [subredditNames] (in [length - 1] the
    subtraction is never reached with [length = 0]). *)
Fixpoint server_loop (length : nat) (delayMs : Z) (i : nat)
    (rest : list jsstring) (w : World) (results : batch) (tr : list event)
    : run :=
  match rest with
  | [] => {| result := Resolved results; world := w; trace := tr |}
  | name :: rest' =>
      let '(results, w) := attempt name w results in
      let tr := tr ++ [Scraped name] in
      if (i <? length - 1)%nat
      then server_loop length delayMs (S i) rest' (wait delayMs w) results
             (tr ++ [Slept delayMs])
      else server_loop length delayMs (S i) rest' w results tr
  end.

(** [delayMs] is [None] when the argument is left out. *)
Definition server_scrapeMultiple (subredditNames : list jsstring)
    (delayMs : option Z) (w : World) : run :=
  server_loop (length subredditNames) (default 2000%Z delayMs) 0
    subredditNames w {| success := []; failed := [] |} [].

(** The browser's loop.  [onProgress] is [None] when it is left out or
    null; a call of it returns or throws. *)
Fixpoint client_loop (length : nat)
    (onProgress : option (progress → World → option jsstring * World))
    (i : nat) (rest : list jsstring) (w : World) (results : batch)
    (tr : list event) : run :=
  match rest with
  | [] => {| result := Resolved results; world := w; trace := tr |}
  | name :: rest' =>
      let '(results, w) := attempt name w results in
      let tr := tr ++ [Scraped name] in
      match onProgress with
      | Some callback =>
          let p := {| current := i + 1; total := length;
                      n_success := List.length (success results);
                      n_failed := List.length (failed results) |} in
          match callback p w with
          | (Some message, w) =>
              {| result := Rejected message; world := w;
                 trace := tr ++ [Reported p] |}
          | (None, w) =>
              client_loop length onProgress (S i) rest' (wait 1000 w) results
                (tr ++ [Reported p; Slept 1000])
          end
      | None =>
          client_loop length onProgress (S i) rest' (wait 1000 w) results
            (tr ++ [Slept 1000])
      end
  end.

Definition client_scrapeMultiple (subredditNames : list jsstring)
    (onProgress : option (progress → World → option jsstring * World))
    (w : World) : run :=
  client_loop (length subredditNames) onProgress 0 subredditNames w
    {| success := []; failed := [] |} [].
End Batch.

(** The events [l] with [sep] between each two. *)
Fixpoint separated (sep : event) (l : list event) : list event :=
  match l with
  | [] => []
  | [e] => [e]
  | e :: l' => e :: sep :: separated sep l'
  end.

Definition reports (tr : list event) : list progress :=
  omap (λ e, match e with Reported p => Some p | _ => None end) tr.

Definition scrapes (tr : list event) : list jsstring :=
  omap (λ e, match e with Scraped name => Some name | _ => None end) tr.

Definition sleeps (tr : list event) : list Z :=
  omap (λ e, match e with Slept ms => Some ms | _ => None end) tr.

(** The results grow by the names of [rest], each in one of the lists. *)
Definition extends (b b' : batch) (rest : list jsstring) : Prop :=
  ∃ s f, success b' = success b ++ s ∧ failed b' = failed b ++ f
         ∧ s ++ f.*1 ≡ₚ rest
         ∧ s `sublist_of` rest ∧ f.*1 `sublist_of` rest.

(** ** The public Reddit client (src/lib/publicRedditClient.js)

    The client's functions await one request each; as elsewhere, what the
    request came to is an argument.  The wait of [waitForRateLimit] before
    a request changes no result and is left out. *)

(** [try { body } catch (error) { handler }] around awaited calls. *)
Definition try_catch {A : Type} (body : outcome A)
    (handler : jsstring → outcome A) : outcome A :=
  match body with
  | Resolved a => Resolved a
  | Rejected message => handler message
  end.

Definition and_then {A B : Type} (x : outcome A) (f : A → outcome B)
    : outcome B :=
  match x with
  | Resolved a => f a
  | Rejected message => Rejected message
  end.

Module PublicRedditClient.

(** What [fetch(url)] came to: a response, with its status and with what
    parsing its body and reading from it comes to, or a rejection (the
    network failed).  The body of a response is given by what the caller
    reads from it; [Rejected] stands for a body that [response.json()]
    rejects or from which the caller's reads throw, both of which happen
    inside the caller's [try]. *)
Inductive fetched (J : Type) :=
| Response (status : N) (body : outcome J)
| NetworkError (message : jsstring).
Arguments Response {J} status body.
Arguments NetworkError {J} message.

(** [response.ok] *)
Definition ok (status : N) : bool := (200 <=? status) && (status <=? 299).

Definition fetchRedditJson {J : Type} (response : fetched J) : outcome J :=
  match response with
  | NetworkError message => Rejected message
  | Response status body =>
      if negb (ok status) then
        if status =? 404 then Rejected (js "Subreddit not found")
        else if status =? 403 then Rejected (js "Subreddit is private or banned")
        else if status =? 429
             then Rejected (js "Rate limited - please wait a minute")
        else Rejected (js "Reddit API error: " ++ ToString (VNum status))
      else body
  end.

(** [name.replace(/^r\//, '')] *)
Definition cleanName (name : jsstring) : jsstring :=
  match name with
  | 114 :: 47 :: rest => rest
  | _ => name
  end.

Definition baseUrl : jsstring := js "https://www.reddit.com".

(** The URLs the four subreddit requests go to. *)
Definition aboutUrl (name : jsstring) : jsstring :=
  baseUrl ++ js "/r/" ++ cleanName name ++ js "/about.json".

Definition rulesUrl (name : jsstring) : jsstring :=
  baseUrl ++ js "/r/" ++ cleanName name ++ js "/about/rules.json".

Definition topUrl (name timeframe : jsstring) (limit : N) : jsstring :=
  baseUrl ++ js "/r/" ++ cleanName name ++ js "/top.json?t=" ++ timeframe
  ++ js "&limit=" ++ ToString (VNum limit).

Definition recentUrl (name : jsstring) (limit : N) : jsstring :=
  baseUrl ++ js "/r/" ++ cleanName name ++ js ".json?limit="
  ++ ToString (VNum limit).

(** [getSubreddit]: the body is [data.data]. *)
Definition getSubreddit (response : fetched (gmap string value))
    : outcome (gmap string value) :=
  try_catch
    (and_then (fetchRedditJson response) (λ sub,
       Resolved
         (<["name" := get sub "display_name"]>
         (<["display_name" := get sub "display_name_prefixed"]>
         (<["title" := get sub "title"]>
         (<["description" := get sub "public_description"]>
         (<["subscribers" := get sub "subscribers"]>
         (<["active_users" := get sub "active_user_count"]>
         (<["created" := get sub "created_utc"]>
         (<["over18" := get sub "over18"]>
         (<["url" := VStr (js "https://www.reddit.com"
                           ++ ToString (get sub "url"))]>
         (<["icon" := js_or (get sub "icon_img") (get sub "community_icon")]>
         (<["banner" := js_or (get sub "banner_img")
                              (get sub "banner_background_image")]>
            ∅)))))))))))))
    (λ message, Rejected message).

Record rule := {
  short_name : value;
  description : value;
  kind : value;
  violation_reason : value
}.

(** [getSubredditRules]: the body is [data.rules] when it is truthy. *)
Definition getSubredditRules (response : fetched (option (list rule)))
    : outcome (list rule) :=
  try_catch
    (and_then (fetchRedditJson response) (λ data,
       match data with
       | Some rules => Resolved rules
       | None => Resolved []
       end))
    (λ _, Resolved []).

(** [getTopPosts] and [getRecentPosts]: the body is [data.data.children]
    when [data.data && data.data.children] is truthy, each child given by
    those of the copied fields that the scraper reads. *)
Definition getTopPosts (response : fetched (option (list post)))
    : outcome (list post) :=
  try_catch
    (and_then (fetchRedditJson response) (λ data,
       match data with
       | Some children => Resolved children
       | None => Resolved []
       end))
    (λ _, Resolved []).

Definition getRecentPosts (response : fetched (option (list post)))
    : outcome (list post) :=
  try_catch
    (and_then (fetchRedditJson response) (λ data,
       match data with
       | Some children => Resolved children
       | None => Resolved []
       end))
    (λ _, Resolved []).

(** [checkShadowban]: the body is [data.data] when it is truthy. *)
Definition not_found : gmap string value :=
  <["exists" := VBool false]> (<["shadowbanned" := VBool true]> ∅).

Definition checkShadowban (response : fetched (option (gmap string value)))
    : outcome (gmap string value) :=
  try_catch
    (and_then (fetchRedditJson response) (λ data,
       match data with
       | Some user =>
           Resolved
             (<["exists" := VBool true]>
             (<["shadowbanned" := VBool false]>
             (<["username" := get user "name"]>
             (<["link_karma" := get user "link_karma"]>
             (<["comment_karma" := get user "comment_karma"]>
             (<["created_utc" := get user "created_utc"]> ∅))))))
       | None => Resolved not_found
       end))
    (λ message,
       if includes message (js "404") then Resolved not_found
       else Rejected message).

End PublicRedditClient.

(** ** The browser's [scrapeSubreddit] (src/lib/clientSubredditScraper.js) *)

(** What a [try] block sees of an awaited call. *)
Definition returned {A : Type} (o : outcome A) : option A :=
  match o with
  | Resolved a => Some a
  | Rejected _ => None
  end.

(** The values of the fields of the scraped object [data]. *)
Inductive field :=
| FValue (v : value)
| FDate (seconds : value)              (* [new Date(seconds * 1000)] *)
| FDouble (d : double)
| FMedian (m : option double)          (* [None]: undefined *)
| FTimes (times : list (jsstring * list value))
| FTags (tags : list jsstring).

(** The object [calculateEngagement] returns. *)
Definition engagement_object (e : engagement) : gmap string field :=
  <["avg_upvotes" := FDouble (avg_upvotes e)]>
  (<["median_upvotes" := FMedian (median_upvotes e)]>
  (<["avg_comments" := FDouble (avg_comments e)]>
  (<["engagement_score" := FDouble (engagement_score e)]> ∅))).

(** [Object.assign(target, source)] *)
Definition assign (target source : gmap string field) : gmap string field :=
  source ∪ target.

Module ClientScraper.
Import PublicRedditClient.

Section Scrape.
Variable lowerCase : jsstring → jsstring.
Variable LocalTZA : Z → Z.
(** [new Date(created * 1000).toISOString()] as a function of [created];
    it throws a RangeError when the date is invalid. *)
Variable toISOString : value → outcome value.

(** [calculateEngagement] and [analyzeBestPostingTimes] with the request
    they await. *)
Definition calculateEngagement (recent : fetched (option (list post)))
    : engagement :=
  Client.calculateEngagement (returned (getRecentPosts recent)).

Definition analyzeBestPostingTimes (top : fetched (option (list post)))
    : list (jsstring * list value) :=
  Client.analyzeBestPostingTimes LocalTZA (returned (getTopPosts top)).

(** The text handed to [parseRules]. *)
Definition rulesText (sub : gmap string value) (rules : list rule)
    : jsstring :=
  ToString (get sub "description") ++ [10; 10]
  ++ join [10]
       (List.map (λ r, ToString (short_name r) ++ js ": "
                       ++ ToString (description r)) rules).

(** [inferNicheTags(sub)] reads two properties of its argument. *)
Definition nicheTagsOf (sub : gmap string value) : list jsstring :=
  inferNicheTags lowerCase
    {| display_name := get sub "display_name";
       public_description := get sub "public_description" |}.

(** [about], [rules], [recent] and [top] are what the four requests came
    to, [saved] what [localDB.saveSubreddit(data)] came to. *)
Definition scrapeSubreddit (about : fetched (gmap string value))
    (rules : fetched (option (list rule)))
    (recent top : fetched (option (list post))) (saved : outcome unit)
    : outcome (gmap string field) :=
  try_catch
    (and_then (getSubreddit about) (λ sub,
     and_then (toISOString (get sub "created")) (λ created_utc,
       let data : gmap string field :=
         <["name" := FValue (get sub "name")]>
         (<["display_name" := FValue (get sub "display_name")]>
         (<["subscribers" := FValue (get sub "subscribers")]>
         (<["active_users" := FValue (get sub "active_users")]>
         (<["created_utc" := FValue created_utc]>
         (<["is_nsfw" := FValue (get sub "over18")]>
         (<["description" := FValue (get sub "description")]> ∅)))))) in
     and_then (getSubredditRules rules) (λ rules,
       let rulesData := Client.parseRules (rulesText sub rules) in
       let data := assign data (FValue <$> rulesData) in
       let engagement := calculateEngagement recent in
       let data := assign data (engagement_object engagement) in
       let data :=
         <["best_posting_times" := FTimes (analyzeBestPostingTimes top)]>
           data in
       let data := <["niche_tags" := FTags (nicheTagsOf sub)]> data in
     and_then saved (λ _, Resolved data)))))
    (λ message, Rejected message).
End Scrape.
End ClientScraper.

(** What the browser's calculator returns on an empty sample. *)
Definition NaN_engagement : engagement :=
  {| avg_upvotes := S754_nan; median_upvotes := None;
     avg_comments := S754_nan; engagement_score := S754_nan |}.

(** A subreddit whose description names a niche and whose other requests
    fail. *)
Definition sample_about : PublicRedditClient.fetched (gmap string value) :=
  PublicRedditClient.Response 200
    (Resolved (<["display_name" := VStr (js "pics")]>
              (<["display_name_prefixed" := VStr (js "r/pics")]>
              (<["public_description" := VStr (js "Feet pictures")]>
              (<["created_utc" := VNum 1200000000]> ∅))))).

Definition sample_scrape : outcome (gmap string field) :=
  ClientScraper.scrapeSubreddit toLowerCase (λ _, 0%Z) (λ v, Resolved v)
    sample_about (PublicRedditClient.NetworkError (js "Failed to fetch"))
    (PublicRedditClient.Response 429 (Rejected []))
    (PublicRedditClient.Response 200 (Resolved None)) (Resolved tt).

(** ** The server's [saveToDatabase] (services/subredditScraper.js)

    One statement, [INSERT ... ON CONFLICT (name) DO UPDATE SET ...], with
    29 parameters.  A row is given by the columns the statement names; the
    row that conflicts, if there is one, is an argument, as is the value of
    [NOW()].  The statement is taken to succeed: when the database rejects
    it the table keeps its rows and [scrapeSubreddit] throws. *)

Inductive cell :=
| Null
| Cell (f : field)
| Json (f : field).            (* the text [JSON.stringify] gives *)

(** A parameter as the driver sends it: null for null and undefined. *)
Definition to_param (x : option field) : cell :=
  match x with
  | None | Some (FValue VUndefined) | Some (FValue VNull)
  | Some (FMedian None) => Null
  | Some f => Cell f
  end.

(** [JSON.stringify(x)], undefined for undefined. *)
Definition stringify (x : option field) : cell :=
  match x with
  | None | Some (FValue VUndefined) | Some (FMedian None) => Null
  | Some f => Json f
  end.

(** The column list of the INSERT; the i-th takes [$i]. *)
Definition insert_columns : list string :=
  ["name"; "display_name"; "subscribers"; "active_users"; "created_utc";
   "is_nsfw"; "description";
   "avg_upvotes"; "median_upvotes"; "avg_comments"; "engagement_score";
   "min_karma"; "min_post_karma"; "min_comment_karma"; "min_account_age_days";
   "requires_verification"; "verification_instructions";
   "rules_raw"; "rules_summary";
   "allows_links_in_post"; "allows_links_in_comments";
   "allows_links_in_profile_only";
   "posting_frequency_limit"; "posting_frequency_hours";
   "required_flairs"; "banned_words"; "content_types_allowed";
   "best_posting_times"; "niche_tags"].

(** The assignments [column = $n] of DO UPDATE SET. *)
Definition update_set : list (string * nat) :=
  [("display_name", 2); ("subscribers", 3); ("active_users", 4);
   ("is_nsfw", 6); ("description", 7);
   ("avg_upvotes", 8); ("median_upvotes", 9); ("avg_comments", 10);
   ("engagement_score", 11);
   ("min_karma", 12); ("min_account_age_days", 15);
   ("requires_verification", 16);
   ("rules_raw", 18); ("rules_summary", 19);
   ("allows_links_in_post", 20); ("allows_links_in_comments", 21);
   ("posting_frequency_limit", 23); ("posting_frequency_hours", 24);
   ("required_flairs", 25); ("best_posting_times", 28); ("niche_tags", 29)]%nat.

(** The parameter array. *)
Definition parameters (data : gmap string field) : list cell :=
  [to_param (data !! "name"); to_param (data !! "display_name");
   to_param (data !! "subscribers"); to_param (data !! "active_users");
   to_param (data !! "created_utc");
   to_param (data !! "is_nsfw"); to_param (data !! "description");
   to_param (data !! "avg_upvotes"); to_param (data !! "median_upvotes");
   to_param (data !! "avg_comments"); to_param (data !! "engagement_score");
   to_param (data !! "min_karma"); to_param (data !! "min_post_karma");
   to_param (data !! "min_comment_karma");
   to_param (data !! "min_account_age_days");
   to_param (data !! "requires_verification");
   to_param (data !! "verification_instructions");
   to_param (data !! "rules_raw"); to_param (data !! "rules_summary");
   to_param (data !! "allows_links_in_post");
   to_param (data !! "allows_links_in_comments");
   to_param (data !! "allows_links_in_profile_only");
   to_param (data !! "posting_frequency_limit");
   to_param (data !! "posting_frequency_hours");
   to_param (data !! "required_flairs"); to_param (data !! "banned_words");
   to_param (data !! "content_types_allowed");
   stringify (data !! "best_posting_times"); to_param (data !! "niche_tags")].

(** [$n] *)
Definition placeholder (ps : list cell) (n : nat) : cell :=
  default Null (ps !! (n - 1)%nat).

(** [existing] is the row whose name is [$1], if the table has one. *)
Definition saveToDatabase (existing : option (gmap string cell)) (now : cell)
    (data : gmap string field) : gmap string cell :=
  let ps := parameters data in
  match existing with
  | None =>
      <["last_scraped" := now]>
        (list_to_map (zip insert_columns ps))
  | Some row =>
      <["updated_at" := now]>
      (<["last_scraped" := now]>
         (foldr (λ '(column, n) row, <[column := placeholder ps n]> row)
                row update_set))
  end.

(** The columns that the INSERT fills and the UPDATE leaves alone. *)
Definition kept_columns : list string :=
  ["name"; "created_utc"; "min_post_karma"; "min_comment_karma";
   "verification_instructions"; "allows_links_in_profile_only";
   "banned_words"; "content_types_allowed"].

(** ** The batch script [scrapeFromNodeIds]

    It fetches a list of names, one per line, keeps the non-empty lines
    that [isNSFW] accepts, and hands the first 50 to the server's
    [scrapeMultiple] with a delay of 3000.  Whatever throws inside its
    [try] makes it exit with code 1.  [isNSFW] comes from src/lib/nsfwFilter,
    which is not among these sources: a call of it returns, what it returns
    being read as a boolean, or throws. *)
Section Script.
Context {World Data : Type}.
Variable scrapeSubreddit : jsstring → World → outcome Data * World.
Variable wait : Z → World → World.
Variable isNSFW : jsstring → outcome bool.

(** [lines.filter(isNSFW)]: the lines are tried in order, and a call that
    throws ends the filter. *)
Fixpoint filterNSFW (lines : list jsstring) : outcome (list jsstring) :=
  match lines with
  | [] => Resolved []
  | line :: rest =>
      and_then (isNSFW line) (λ keep,
      and_then (filterNSFW rest) (λ kept,
        Resolved (if keep then line :: kept else kept)))
  end.

Definition subredditsToScrape (text : jsstring) : outcome (list jsstring) :=
  let allSubreddits :=
    List.filter (λ line, truthy (VStr line)) (split_on 10 text) in
  and_then (filterNSFW allSubreddits) (λ nsfwSubreddits,
    Resolved (take 50 nsfwSubreddits)).

(** [fetched]: what fetching the list and reading its text came to;
    [constructed]: what [new SubredditScraper()] came to, whose constructor
    builds the snoowrap client from the environment.  The result is the
    code the process exits with, and the calls made. *)
Definition scrapeFromNodeIds (fetched : outcome jsstring)
    (constructed : outcome unit) (w : World) : N * list event :=
  match and_then fetched subredditsToScrape with
  | Resolved names =>
      match constructed with
      | Resolved _ =>
          let r := server_scrapeMultiple scrapeSubreddit wait names
                     (Some 3000%Z) w in
          match result r with
          | Resolved _ => (0, trace r)
          | Rejected _ => (1, trace r)
          end
      | Rejected _ => (1, [])
      end
  | Rejected _ => (1, [])
  end.

(** A line that [isNSFW] accepts without throwing. *)
Definition accepted (line : jsstring) : bool :=
  match isNSFW line with
  | Resolved true => true
  | _ => false
  end.
End Script.

(** The elements of [l], each once, in the order of their first
    occurrence. *)
Fixpoint first_seen (l : list jsstring) : list jsstring :=
  match l with
  | [] => []
  | x :: l' => x :: List.filter (λ y, negb (bool_decide (y = x))) (first_seen l')
  end.

(** The name of the local day of the week on which a post was made,
    "undefined" when its time stamp is no valid date. *)
Definition dayOfPost (LocalTZA : Z → Z) (p : post) : jsstring :=
  ToString (dayOfDate LocalTZA (created_utc p)).

(** ** The server's [scrapeSubreddit] (services/subredditScraper.js) *)
Module ServerScraper.

(** The subreddit once [sub.fetch()] has resolved: its properties, and
    what its four listing calls come to ([None] when the call throws). *)
Record fetched_subreddit := {
  props : gmap string value;
  getRules : option (list Server.rule);
  getLinkFlairTemplates : option (list value);
  getHot : option (list post);
  getTop : option (list post)
}.

(** What [parseRules] reads of it. *)
Definition rulesSource (sub : fetched_subreddit) : Server.subreddit :=
  {| Server.description := get (props sub) "description";
     Server.getRules := getRules sub;
     Server.getLinkFlairTemplates := getLinkFlairTemplates sub |}.

Section Scrape.
Variable lowerCase : jsstring → jsstring.
Variable LocalTZA : Z → Z.

(** [fetched]: what [getSubreddit] and [sub.fetch()] came to; [saved]: what
    [saveToDatabase(data)] came to. *)
Definition scrapeSubreddit (fetched : outcome fetched_subreddit)
    (saved : outcome unit) : outcome (gmap string field) :=
  try_catch
    (and_then fetched (λ sub,
       let data : gmap string field :=
         <["name" := FValue (get (props sub) "display_name")]>
         (<["display_name" := FValue (get (props sub) "display_name_prefixed")]>
         (<["subscribers" := FValue (get (props sub) "subscribers")]>
         (<["active_users" := FValue (get (props sub) "accounts_active")]>
         (<["created_utc" := FDate (get (props sub) "created_utc")]>
         (<["is_nsfw" := FValue (get (props sub) "over18")]>
         (<["description" := FValue (get (props sub) "public_description")]>
            ∅)))))) in
       let rulesData := Server.parseRules (rulesSource sub) in
       let data := assign data (FValue <$> rulesData) in
       let engagement := Server.calculateEngagement (getHot sub) in
       let data := assign data (engagement_object engagement) in
       let data :=
         <["best_posting_times" :=
             FTimes (Server.analyzeBestPostingTimes LocalTZA (getTop sub))]>
           data in
       let data :=
         <["niche_tags" :=
             FTags (inferNicheTags lowerCase
                      {| display_name := get (props sub) "display_name";
                         public_description :=
                           get (props sub) "public_description" |})]>
           data in
     and_then saved (λ _, Resolved data)))
    (λ message, Rejected message).
End Scrape.
End ServerScraper.

(** ** Similar subreddits (src/lib/dataService.js) *)

(** [Math.abs] and [Math.max] *)
Definition dabs : double → double := SFabs.

Definition math_max (x y : double) : double :=
  match x, y with
  | S754_nan, _ | _, S754_nan => S754_nan
  | S754_zero sx, S754_zero sy => S754_zero (sx && sy)
  | _, _ => if SFltb x y then y else x
  end.

(** [a === b]; two arrays read from the store are never the same object. *)
Definition strict_eq (a b : value) : bool :=
  match a, b with
  | VUndefined, VUndefined | VNull, VNull => true
  | VBool x, VBool y => eqb x y
  | VNum x, VNum y => x =? y
  | VInfinity, VInfinity => true
  | VStr s, VStr t => bool_decide (s = t)
  | _, _ => false
  end.

Module DataService.

(** A stored subreddit, through the fields [calculateSimilarity] reads:
    [niche_tags] and [engagement_score] are [None] when undefined or
    null. *)
Record stored := {
  cluster_id : value;
  niche_tags : option (list jsstring);
  engagement_score : option double
}.

(** [score || 0] *)
Definition or_zero (score : option double) : double :=
  match score with
  | Some (S754_zero _) | Some S754_nan | None => d0
  | Some d => d
  end.

Definition calculateSimilarity (sub1 sub2 : stored) : double :=
  let score := d0 in
  let score :=
    if truthy (cluster_id sub1) && strict_eq (cluster_id sub1) (cluster_id sub2)
    then dadd score (of_int 30) else score in
  let tags1 := default [] (niche_tags sub1) in
  let tags2 := default [] (niche_tags sub2) in
  let sharedTags := List.filter (λ t, bool_decide (t ∈ tags2)) tags1 in
  let score :=
    dadd score (dmul (of_int (Z.of_nat (length sharedTags))) (of_int 15)) in
  let engagementDiff :=
    dabs (dsub (or_zero (engagement_score sub1))
               (or_zero (engagement_score sub2))) in
  dadd score
    (math_max d0 (dsub (of_int 20) (ddiv engagementDiff (of_int 100)))).

End DataService.

(** ** The browser's store ([LocalDatabase], in src/lib/publicRedditClient.js)

    An object store of IndexedDB with a key path holds one record per key;
    [put] replaces the record under the key of the record it is given.
    The keys here are strings, as the names of subreddits and of settings
    are. *)
Module LocalDatabase.

Abbreviation store := (gmap jsstring (gmap string field)).

(** [put(storeName, data)], [key] being what the key path reads in
    [data], and [get(storeName, key)]. *)
Definition put (key : jsstring) (data : gmap string field) (s : store)
    : store :=
  <[key := data]> s.

Definition get (key : jsstring) (s : store) : option (gmap string field) :=
  s !! key.

(** [saveSubreddit]: [now] is [new Date().toISOString()].  [None]: the
    name of the record is not a string, which the model leaves out. *)
Definition saveSubreddit (now : value) (subreddit : gmap string field)
    (s : store) : option store :=
  match subreddit !! "name" with
  | Some (FValue (VStr name)) =>
      Some (put name (<["last_scraped" := FValue now]> subreddit) s)
  | _ => None
  end.

Definition getSubreddit (name : jsstring) (s : store)
    : option (gmap string field) :=
  get name s.

(** [saveSetting(key, value)] and [getSetting(key, defaultValue)]. *)
Definition saveSetting (key : jsstring) (value : field) (s : store) : store :=
  put key (<["key" := FValue (VStr key)]> (<["value" := value]> ∅)) s.

Definition getSetting (key : jsstring) (defaultValue : field) (s : store)
    : field :=
  match get key s with
  | Some setting => default (FValue VUndefined) (setting !! "value")
  | None => defaultValue
  end.

End LocalDatabase.

(** ** The listing route (backend/src/routes/subreddits.js)

    [GET /] builds its two statements from the query of the request. *)
Module SubredditsRoute.

(** [req.query], a field being undefined when the request has none. *)
Record query := {
  niche : value;
  minSubscribers : value;
  maxKarma : value;
  maxAge : value;
  requiresVerification : value;
  search : value;
  limit : value;
  offset : value
}.

(** [query], [params] and [paramIndex]. *)
Record statement := {
  text : jsstring;
  params : list value;
  paramIndex : N
}.

(** [if (cond) { query += before$n after; params.push(param); paramIndex++ }] *)
Definition add_filter (cond : bool) (before after : jsstring) (param : value)
    (st : statement) : statement :=
  if cond then
    {| text := text st ++ before ++ js "$" ++ ToString (VNum (paramIndex st))
               ++ after;
       params := params st ++ [param];
       paramIndex := paramIndex st + 1 |}
  else st.

Definition is_undefined (v : value) : bool :=
  match v with VUndefined => true | _ => false end.

(** [v === 'true'] *)
Definition is_true_text (v : value) : bool :=
  match v with VStr s => bool_decide (s = js "true") | _ => false end.

(** The default of a destructured field. *)
Definition or_default (v d : value) : value :=
  if is_undefined v then d else v.

Section Route.
(** The language's [parseInt], on any text a request may carry. *)
Variable parseInt : value → value.

Definition filters (q : query) : statement :=
  let st := {| text := js "SELECT * FROM subreddits WHERE 1=1";
               params := []; paramIndex := 1 |} in
  let st := add_filter (truthy (niche q))
              (js " AND ") (js " = ANY(niche_tags)") (niche q) st in
  let st := add_filter (truthy (minSubscribers q))
              (js " AND subscribers >= ") [] (parseInt (minSubscribers q)) st in
  let st := add_filter (truthy (maxKarma q))
              (js " AND (min_karma IS NULL OR min_karma <= ") (js ")")
              (parseInt (maxKarma q)) st in
  let st := add_filter (truthy (maxAge q))
              (js " AND (min_account_age_days IS NULL OR min_account_age_days <= ")
              (js ")") (parseInt (maxAge q)) st in
  let st := add_filter (negb (is_undefined (requiresVerification q)))
              (js " AND requires_verification = ") []
              (VBool (is_true_text (requiresVerification q))) st in
  add_filter (truthy (search q))
    (js " AND name ILIKE ") []
    (VStr (js "%" ++ ToString (search q) ++ js "%")) st.

(** The statement that selects the rows. *)
Definition listQuery (q : query) : jsstring * list value :=
  let st := filters q in
  (text st
   ++ js " ORDER BY engagement_score DESC NULLS LAST, subscribers DESC LIMIT $"
   ++ ToString (VNum (paramIndex st)) ++ js " OFFSET $"
   ++ ToString (VNum (paramIndex st + 1)),
   params st ++ [parseInt (or_default (limit q) (VNum 100));
                 parseInt (or_default (offset q) (VNum 0))]).

(** [text.replace(/\$\d+/g, match => `$${parseInt(match.slice(1))}`)];
    [skipping] while the digits of a match are passed over.  The digits
    are those of a number the route wrote itself. *)
Fixpoint renumber (skipping : bool) (s : jsstring) : jsstring :=
  match s with
  | [] => []
  | c :: s' =>
      if skipping && is_digit c then renumber true s'
      else if (c =? 36) && match s' with
                           | d :: _ => is_digit d
                           | [] => false
                           end
           then [36] ++ ToString (VNum (parse_digits 0 s')) ++ renumber true s'
           else c :: renumber false s'
  end.

(** The statement that counts them. *)
Definition countQuery (q : query) : jsstring * list value :=
  let countQuery := js "SELECT COUNT(*) FROM subreddits WHERE 1=1" in
  let countParams :=
    let params := snd (listQuery q) in
    take (length params - 2) params in
  let countQuery :=
    if truthy (niche q) then countQuery ++ js " AND $1 = ANY(niche_tags)"
    else countQuery in
  let countQuery :=
    if truthy (minSubscribers q)
    then countQuery ++ js " AND subscribers >= $"
         ++ ToString (VNum (if truthy (niche q) then 2 else 1))
    else countQuery in
  (renumber false countQuery, countParams).
End Route.
End SubredditsRoute.

(** The numbers of the placeholders [$n] of a statement, in order. *)
Fixpoint placeholders (s : jsstring) : list N :=
  match s with
  | [] => []
  | c :: s' =>
      if (c =? 36) && match s' with
                      | d :: _ => is_digit d
                      | [] => false
                      end
      then parse_digits 0 s' :: placeholders s'
      else placeholders s'
  end.

(** Which filters a request asks for. *)
Definition asked (q : SubredditsRoute.query) : list bool :=
  [truthy (SubredditsRoute.niche q);
   truthy (SubredditsRoute.minSubscribers q);
   truthy (SubredditsRoute.maxKarma q);
   truthy (SubredditsRoute.maxAge q);
   negb (SubredditsRoute.is_undefined (SubredditsRoute.requiresVerification q));
   truthy (SubredditsRoute.search q)].

Definition count_true (l : list bool) : nat := length (List.filter id l).

(** * Properties *)

(** ** The matcher against the reference semantics *)

Lemma star_greedy_sound cl s c k res :
  star_greedy cl s c k = Some res →
  ∃ s', matches (Star cl) s c s' c ∧ k s' c = Some res.
Proof.
  induction s as [|x s IH]; simpl; intros H.
  - exists []. split; [apply (M_Star cl [] [] c); done | done].
  - destruct (cl x) eqn:Hx.
    + destruct (star_greedy cl s c k) as [r|] eqn:Hs.
      * destruct (IH H) as (s' & Hm & Hk).
        exists s'. split; [|done].
        inversion Hm; subst.
        apply (M_Star cl (x :: w) s' c). simpl. by rewrite Hx.
      * exists (x :: s). split; [apply (M_Star cl [] (x :: s) c); done | done].
    + exists (x :: s). split; [apply (M_Star cl [] (x :: s) c); done | done].
Qed.

Lemma star_lazy_sound cl s c k res :
  star_lazy cl s c k = Some res →
  ∃ s', matches (StarLazy cl) s c s' c ∧ k s' c = Some res.
Proof.
  induction s as [|x s IH]; simpl; intros H.
  - destruct (k [] c) eqn:Hk; [|done].
    exists []. split; [apply (M_StarLazy cl [] [] c); done | congruence].
  - destruct (k (x :: s) c) eqn:Hk.
    + exists (x :: s).
      split; [apply (M_StarLazy cl [] (x :: s) c); done | congruence].
    + destruct (cl x) eqn:Hx; [|done].
      destruct (IH H) as (s' & Hm & Hk').
      exists s'. split; [|done].
      inversion Hm; subst.
      apply (M_StarLazy cl (x :: w) s' c). simpl. by rewrite Hx.
Qed.

(** Whatever the matcher returns came from the continuation, called after a
    match of the reference semantics. *)
Lemma mtch_sound r : ∀ s c k res,
  mtch r s c k = Some res →
  ∃ s' c', matches r s c s' c' ∧ k s' c' = Some res.
Proof.
  induction r as [p|cl|r1 IH1 r2 IH2|r1 IH1 r2 IH2|r1 IH1|cl|cl|i r1 IH1];
    simpl; intros s c k res H.
  - destruct (match_lit p s) as [s'|] eqn:Hl; [|done].
    exists s', c. split; [by constructor | done].
  - destruct s as [|x s]; [done|]. destruct (cl x) eqn:Hx; [|done].
    exists s, c. split; [by constructor | done].
  - destruct (IH1 _ _ _ _ H) as (s1 & c1 & Hm1 & H1).
    destruct (IH2 _ _ _ _ H1) as (s2 & c2 & Hm2 & H2).
    exists s2, c2. split; [by econstructor | done].
  - destruct (mtch r1 s c k) as [res1|] eqn:E1.
    + destruct (IH1 _ _ _ _ E1) as (s' & c' & Hm & Hk).
      exists s', c'. split; [by apply M_AltL | congruence].
    + destruct (IH2 _ _ _ _ H) as (s' & c' & Hm & Hk).
      exists s', c'. split; [by apply M_AltR | done].
  - destruct (mtch r1 s c k) as [res1|] eqn:E1.
    + destruct (IH1 _ _ _ _ E1) as (s' & c' & Hm & Hk).
      exists s', c'. split; [by apply M_OptSome | congruence].
    + exists s, c. split; [apply M_OptNone | done].
  - destruct (star_greedy_sound _ _ _ _ _ H) as (s' & Hm & Hk). eauto.
  - destruct (star_lazy_sound _ _ _ _ _ H) as (s' & Hm & Hk). eauto.
  - destruct (IH1 _ _ _ _ H) as (s' & c' & Hm & Hk).
    exists s', (<[i := consumed s s']> c'). split; [by constructor | done].
Qed.

Lemma star_greedy_complete cl w : ∀ s c k,
  forallb cl w = true → is_Some (k s c) →
  is_Some (star_greedy cl (w ++ s) c k).
Proof.
  induction w as [|x w IH]; simpl; intros s c k Hw Hk.
  - destruct s as [|y s]; simpl; [done|].
    destruct (cl y); [|done].
    by destruct (star_greedy cl s c k).
  - apply andb_true_iff in Hw as [Hx Hw]. rewrite Hx.
    destruct (IH s c k Hw Hk) as [r ->]. by eexists.
Qed.

Lemma star_lazy_complete cl w : ∀ s c k,
  forallb cl w = true → is_Some (k s c) →
  is_Some (star_lazy cl (w ++ s) c k).
Proof.
  induction w as [|x w IH]; simpl; intros s c k Hw Hk.
  - destruct Hk as [r Hk]. destruct s; simpl; rewrite Hk; by eexists.
  - apply andb_true_iff in Hw as [Hx Hw]. rewrite Hx.
    destruct (k (x :: w ++ s) c); [by eexists|]. by apply IH.
Qed.

(** If some match lets the continuation succeed, the matcher succeeds. *)
Lemma mtch_complete r s c s' c' :
  matches r s c s' c' →
  ∀ k, is_Some (k s' c') → is_Some (mtch r s c k).
Proof.
  induction 1 as [p s s' c Hl|cl x s c Hx|r1 r2 s c s1 c1 s2 c2 _ IH1 _ IH2
                  |r1 r2 s c s' c' _ IH|r1 r2 s c s' c' _ IH
                  |r s c s' c' _ IH|r s c|cl w s c Hw|cl w s c Hw
                  |i r s c s' c' _ IH]; simpl; intros k Hk.
  - by rewrite Hl.
  - by rewrite Hx.
  - apply IH1. by apply IH2.
  - destruct (IH k Hk) as [res ->]. by eexists.
  - destruct (mtch r1 s c k); [by eexists | by apply IH].
  - destruct (IH k Hk) as [res ->]. by eexists.
  - destruct (mtch r s c k); [by eexists | done].
  - by apply star_greedy_complete.
  - by apply star_lazy_complete.
  - by apply IH.
Qed.

(** What [exec] returns: the captures of a match somewhere in the text,
    with the matched part under 0. *)
Lemma exec_sound r text m :
  exec r text = Some m →
  ∃ before s s' c',
    text = before ++ s ∧ matches r s ∅ s' c' ∧
    m = <[0%nat := consumed s s']> c'.
Proof.
  induction text as [|x text IH]; simpl.
  - destruct (mtch r [] ∅ _) as [m'|] eqn:E; [|done].
    intros [= <-]. destruct (mtch_sound _ _ _ _ _ E) as (s' & c' & Hm & [= <-]).
    by exists [], [], s', c'.
  - destruct (mtch r (x :: text) ∅ _) as [m'|] eqn:E.
    + intros [= <-]. destruct (mtch_sound _ _ _ _ _ E) as (s' & c' & Hm & [= <-]).
      by exists [], (x :: text), s', c'.
    + intros H. destruct (IH H) as (before & s & s' & c' & -> & Hm & ->).
      by exists (x :: before), s, s', c'.
Qed.

Lemma exec_complete r text :
  occurs_in r text → is_Some (exec r text).
Proof.
  intros (before & s & s' & c' & -> & Hm).
  induction before as [|x before IH]; simpl.
  - assert (is_Some (mtch r s ∅ (λ s' c, Some (<[0%nat := consumed s s']> c))))
      as [m Hs] by (eapply mtch_complete; [done | by eexists]).
    destruct s; simpl; rewrite Hs; by eexists.
  - destruct (mtch r (x :: before ++ s) ∅ _); [by eexists | done].
Qed.

(** [test] decides whether the pattern occurs in the text. *)
Lemma test_occurs r text : test r text = true ↔ occurs_in r text.
Proof.
  unfold test. split.
  - destruct (exec r text) as [m|] eqn:E; [|done]. intros _.
    destruct (exec_sound _ _ _ E) as (before & s & s' & c' & ? & ? & ?).
    by exists before, s, s', c'.
  - intros H. by destruct (exec_complete _ _ H) as [m ->].
Qed.

(** ** Which fields each step of the parser writes *)

Lemma check_verification_other text r k :
  k ≠ "requires_verification" → check_verification text r !! k = r !! k.
Proof.
  intros Hk. unfold check_verification.
  destruct (test re_verif text); [by rewrite lookup_insert_ne by congruence | done].
Qed.

Lemma check_posting_frequency_other text r k :
  k ≠ "posting_frequency_limit" → k ≠ "posting_frequency_hours" →
  check_posting_frequency text r !! k = r !! k.
Proof.
  intros Hl Hh. unfold check_posting_frequency.
  destruct (exec re_frequency text); [|done].
  by rewrite !lookup_insert_ne by congruence.
Qed.

Lemma check_link_policies_other text r k :
  k ≠ "allows_links_in_post" → k ≠ "allows_links_in_comments" →
  k ≠ "allows_links_in_profile_only" →
  check_link_policies text r !! k = r !! k.
Proof.
  intros Hp Hc Ho. unfold check_link_policies.
  destruct (test re_no_links text), (test re_profile_links text);
    by rewrite ?lookup_insert_ne by congruence.
Qed.

(** The three link fields after the link checks, from their values before. *)
Lemma check_link_policies_post text r :
  check_link_policies text r !! "allows_links_in_post" =
  if test re_no_links text || test re_profile_links text
  then Some (VBool false) else r !! "allows_links_in_post".
Proof.
  unfold check_link_policies.
  destruct (test re_no_links text), (test re_profile_links text);
    cbv zeta; by simplify_map_eq.
Qed.

Lemma check_link_policies_comments text r :
  check_link_policies text r !! "allows_links_in_comments" =
  if test re_no_links text || test re_profile_links text
  then Some (VBool false) else r !! "allows_links_in_comments".
Proof.
  unfold check_link_policies.
  destruct (test re_no_links text), (test re_profile_links text);
    cbv zeta; by simplify_map_eq.
Qed.

Lemma check_link_policies_profile_only text r :
  check_link_policies text r !! "allows_links_in_profile_only" =
  if test re_profile_links text
  then Some (VBool true) else r !! "allows_links_in_profile_only".
Proof.
  unfold check_link_policies.
  destruct (test re_no_links text), (test re_profile_links text);
    cbv zeta; by simplify_map_eq.
Qed.

(** Reading a field that the later steps leave alone. *)
Ltac skip_writes :=
  repeat first
    [ rewrite lookup_insert_ne by done
    | rewrite check_posting_frequency_other by done
    | rewrite check_link_policies_other by done
    | rewrite check_verification_other by done ].

Lemma server_links text flairs :
  let r := Server.parseRulesText text flairs in
  r !! "allows_links_in_post" =
    Some (VBool (negb (test re_no_links text || test re_profile_links text)))
  ∧ r !! "allows_links_in_comments" =
    Some (VBool (negb (test re_no_links text || test re_profile_links text)))
  ∧ r !! "allows_links_in_profile_only" =
    (if test re_profile_links text then Some (VBool true) else None).
Proof.
  unfold Server.parseRulesText. cbv zeta.
  repeat split.
  - destruct flairs; skip_writes; rewrite check_link_policies_post;
      destruct (_ || _); try done; skip_writes;
      destruct (first_match agePatterns text), (first_match karmaPatterns text);
      by skip_writes.
  - destruct flairs; skip_writes; rewrite check_link_policies_comments;
      destruct (_ || _); try done; skip_writes;
      destruct (first_match agePatterns text), (first_match karmaPatterns text);
      by skip_writes.
  - destruct flairs; skip_writes; rewrite check_link_policies_profile_only;
      destruct (test re_profile_links text); try done; skip_writes;
      destruct (first_match agePatterns text), (first_match karmaPatterns text);
      by skip_writes.
Qed.

Lemma client_links text :
  let r := Client.parseRules text in
  r !! "allows_links_in_post" =
    Some (VBool (negb (test re_no_links text || test re_profile_links text)))
  ∧ r !! "allows_links_in_comments" =
    Some (VBool (negb (test re_no_links text || test re_profile_links text)))
  ∧ r !! "allows_links_in_profile_only" =
    (if test re_profile_links text then Some (VBool true) else None).
Proof.
  unfold Client.parseRules. cbv zeta.
  repeat split.
  - skip_writes; rewrite check_link_policies_post;
      destruct (_ || _); try done; skip_writes;
      destruct (exec re_age_old text), (exec re_karma_count text);
      by skip_writes.
  - skip_writes; rewrite check_link_policies_comments;
      destruct (_ || _); try done; skip_writes;
      destruct (exec re_age_old text), (exec re_karma_count text);
      by skip_writes.
  - skip_writes; rewrite check_link_policies_profile_only;
      destruct (test re_profile_links text); try done; skip_writes;
      destruct (exec re_age_old text), (exec re_karma_count text);
      by skip_writes.
Qed.

(** The link fields of either parser's output. *)
Lemma parser_links text flairs r :
  r = Server.parseRulesText text flairs ∨ r = Client.parseRules text →
  r !! "allows_links_in_post" =
    Some (VBool (negb (test re_no_links text || test re_profile_links text)))
  ∧ r !! "allows_links_in_comments" =
    Some (VBool (negb (test re_no_links text || test re_profile_links text)))
  ∧ r !! "allows_links_in_profile_only" =
    (if test re_profile_links text then Some (VBool true) else None).
Proof.
  intros [-> | ->]; [apply server_links | apply client_links].
Qed.

(** C5.  In the output of either parser: a text that matches
    "no [external] link(s)" has [allows_links_in_post] and
    [allows_links_in_comments] false; a text that matches
    "link(s) [only] [in] profile" has both false and
    [allows_links_in_profile_only] true; and whenever
    [allows_links_in_profile_only] is true the other two are false. *)
Theorem link_policy_invariant text flairs r :
  r = Server.parseRulesText text flairs ∨ r = Client.parseRules text →
  (test re_no_links text = true →
     r !! "allows_links_in_post" = Some (VBool false)
     ∧ r !! "allows_links_in_comments" = Some (VBool false))
  ∧ (test re_profile_links text = true →
     r !! "allows_links_in_post" = Some (VBool false)
     ∧ r !! "allows_links_in_comments" = Some (VBool false)
     ∧ r !! "allows_links_in_profile_only" = Some (VBool true))
  ∧ (r !! "allows_links_in_profile_only" = Some (VBool true) →
     r !! "allows_links_in_post" = Some (VBool false)
     ∧ r !! "allows_links_in_comments" = Some (VBool false)).
Proof.
  intros Hr. destruct (parser_links _ _ _ Hr) as (Hp & Hc & Ho).
  rewrite Hp, Hc, Ho. split; [|split].
  - intros ->. by split.
  - intros ->. rewrite orb_true_r. by repeat split.
  - destruct (test re_profile_links text); [|done].
    intros _. rewrite orb_true_r. by split.
Qed.

Lemma link_policy_invariant_witness :
  let text := js "No external links allowed, links only in profile." in
  let r := Server.parseRulesText text None in
  test re_no_links text = true ∧ test re_profile_links text = true
  ∧ r !! "allows_links_in_post" = Some (VBool false)
  ∧ r !! "allows_links_in_comments" = Some (VBool false)
  ∧ r !! "allows_links_in_profile_only" = Some (VBool true).
Proof.
  intros text r.
  assert (Hno : test re_no_links text = true) by (vm_compute; reflexivity).
  assert (Hpr : test re_profile_links text = true) by (vm_compute; reflexivity).
  destruct (link_policy_invariant text None r (or_introl eq_refl)) as (_ & H & _).
  destruct (H Hpr) as (Hp & Hc & Ho).
  exact (conj Hno (conj Hpr (conj Hp (conj Hc Ho)))).
Defined.

(** C10.  For a text that does not match "link(s) [only] [in] profile", the
    output of either parser has no [allows_links_in_profile_only] key at
    all (it is not there with the value false): neither initial object has
    the key, and the one assignment to it, in the profile branch, writes
    true. *)
Theorem profile_only_absent text flairs r :
  r = Server.parseRulesText text flairs ∨ r = Client.parseRules text →
  (test re_profile_links text = false →
   r !! "allows_links_in_profile_only" = None)
  ∧ (r !! "allows_links_in_profile_only" = None
     ∨ r !! "allows_links_in_profile_only" = Some (VBool true))
  ∧ Server.initial_requirements !! "allows_links_in_profile_only" = None
  ∧ Client.initial_requirements text !! "allows_links_in_profile_only" = None.
Proof.
  intros Hr. destruct (parser_links _ _ _ Hr) as (_ & _ & Ho).
  rewrite Ho. split; [|split; [|split]].
  - by intros ->.
  - destruct (test re_profile_links text); [by right | by left].
  - reflexivity.
  - reflexivity.
Qed.

Lemma profile_only_absent_witness :
  test re_profile_links (js "No external links allowed") = false
  ∧ Client.parseRules (js "No external links allowed")
      !! "allows_links_in_profile_only" = None.
Proof.
  assert (Ht : test re_profile_links (js "No external links allowed") = false)
    by (vm_compute; reflexivity).
  destruct (profile_only_absent (js "No external links allowed") None
              (Client.parseRules (js "No external links allowed"))
              (or_intror eq_refl)) as (H & _).
  exact (conj Ht (H Ht)).
Defined.

(** ** What the patterns capture *)

Lemma consumed_app (w s : jsstring) : consumed (w ++ s) s = w.
Proof.
  unfold consumed. rewrite length_app.
  replace (length w + length s - length s)%nat with (length w) by lia.
  by rewrite take_app_length.
Qed.

(** An integer below 2^53 is its own Number. *)
Lemma number_of_exact n : n < 2 ^ 53 → number_of n = VNum n.
Proof.
  intros Hn. unfold number_of, round_double.
  destruct (N.leb_spec (N.size n) 53) as [_|Hs]; [done|].
  exfalso. pose proof (N.size_le n) as Hle.
  assert (2 ^ 54 <= 2 ^ N.size n) by (apply N.pow_le_mono_r; lia).
  assert (N.succ_double n < 2 ^ 54)
    by (rewrite N.succ_double_spec; change (2 ^ 54) with (2 * 2 ^ 53); lia).
  lia.
Qed.

(** The Number for an integer is an integer or Infinity. *)
Lemma number_of_shape n :
  number_of n = VInfinity ∨ ∃ m, number_of n = VNum m.
Proof. unfold number_of. destruct (round_double n); eauto. Qed.

Lemma parseInt_number_text ds :
  is_number_text ds = true → parseInt (VStr ds) = number_of (parse_digits 0 ds).
Proof.
  unfold parseInt. destruct ds as [|x w]; simpl; [done|].
  intros H. apply andb_true_iff in H as [Hx _]. by rewrite Hx.
Qed.

Ltac inv_matches :=
  repeat match goal with
  | H : matches (Seq _ _) _ _ _ _ |- _ => inversion H; subst; clear H
  | H : matches (Grp _ _) _ _ _ _ |- _ => inversion H; subst; clear H
  | H : matches (Opt _) _ _ _ _ |- _ => inversion H; subst; clear H
  | H : matches (Alt _ _) _ _ _ _ |- _ => inversion H; subst; clear H
  | H : matches (Star _) _ _ _ _ |- _ => inversion H; subst; clear H
  | H : matches (StarLazy _) _ _ _ _ |- _ => inversion H; subst; clear H
  | H : matches (Cls _) _ _ _ _ |- _ => inversion H; subst; clear H
  | H : matches (Lit _) _ _ _ _ |- _ => inversion H; subst; clear H
  end.

(** A match of [\d+] takes a non-empty run of digits and captures nothing. *)
Lemma matches_digits s c s' c' :
  matches (plus cls_d) s c s' c' →
  ∃ ds, s = ds ++ s' ∧ is_number_text ds = true ∧ c' = c.
Proof.
  unfold plus. intros H. inv_matches.
  exists (x :: w). repeat split. simpl.
  match goal with H : cls_d x = true |- _ => unfold cls_d in H; rewrite H end.
  done.
Qed.

(** Group 1 of a match of any karma or age pattern is a run of digits. *)
Lemma number_pattern_capture p text m :
  p ∈ karmaPatterns ++ agePatterns →
  exec p text = Some m →
  ∃ ds, m !! 1%nat = Some ds ∧ is_number_text ds = true.
Proof.
  intros Hp He.
  destruct (exec_sound _ _ _ He) as (before & s & s' & c' & -> & Hm & ->).
  clear He.
  repeat (apply elem_of_cons in Hp as [-> | Hp]);
    [..|by apply elem_of_nil in Hp];
    cbv [re_karma_count re_karma_then re_karma_minimum
         re_age_old re_age_account re_age_day seqs] in Hm;
    inv_matches;
    repeat match goal with
    | H : matches (plus cls_d) _ _ _ _ |- _ =>
        apply matches_digits in H as (ds & -> & Hds & ->)
    end;
    exists ds; rewrite lookup_insert_ne by done;
    rewrite ?lookup_insert_ne by done;
    (split; [|done]).
  all: try (rewrite lookup_insert_eq; f_equal; apply consumed_app).
Qed.

(** ** The karma minimum *)

Lemma first_match_integer patterns text :
  (∀ p, p ∈ patterns → p ∈ karmaPatterns ++ agePatterns) →
  match first_match patterns text with
  | Some m => parseInt (cap m 1)
  | None => VNull
  end = first_captured_integer patterns text.
Proof.
  induction patterns as [|p rest IH]; simpl; intros Hin; [done|].
  destruct (exec p text) as [m|] eqn:E.
  - destruct (number_pattern_capture p text m) as (ds & Hds & Hnum);
      [apply Hin; left | done |].
    unfold cap. rewrite Hds. by apply parseInt_number_text.
  - apply IH. intros q Hq. apply Hin. by right.
Qed.

(** What an extractor makes of the match it finds: the Number for the run
    of digits that group 1 captured, which is the integer those digits
    denote when that is below 2^53. *)
Lemma first_match_capture patterns text m :
  (∀ p, p ∈ patterns → p ∈ karmaPatterns ++ agePatterns) →
  first_match patterns text = Some m →
  ∃ ds, m !! 1%nat = Some ds ∧ is_number_text ds = true
        ∧ first_captured_integer patterns text = number_of (parse_digits 0 ds)
        ∧ (parse_digits 0 ds < 2 ^ 53 →
           first_captured_integer patterns text = VNum (parse_digits 0 ds)).
Proof.
  induction patterns as [|p rest IH]; simpl; intros Hin Hm; [done|].
  destruct (exec p text) as [m'|] eqn:E.
  - injection Hm as ->.
    destruct (number_pattern_capture p text m) as (ds & Hds & Hnum);
      [apply Hin; left | done |].
    exists ds. rewrite Hds. repeat split; try done. apply number_of_exact.
  - apply IH; [|done]. intros q Hq. apply Hin. by right.
Qed.

Lemma first_match_none patterns text :
  first_match patterns text = None →
  first_captured_integer patterns text = VNull.
Proof.
  induction patterns as [|p rest IH]; simpl; [done|].
  by destruct (exec p text).
Qed.

Lemma server_min_karma text flairs :
  get (Server.parseRulesText text flairs) "min_karma" =
  first_captured_integer karmaPatterns text.
Proof.
  rewrite <- first_match_integer
    by (intros p Hp; apply elem_of_app; by left).
  unfold get, Server.parseRulesText. cbv zeta.
  destruct flairs; skip_writes;
    destruct (first_match agePatterns text); skip_writes;
    destruct (first_match karmaPatterns text);
    by rewrite ?lookup_insert_eq.
Qed.

Lemma client_min_karma text :
  get (Client.parseRules text) "min_karma" =
  first_captured_integer [re_karma_count] text.
Proof.
  rewrite <- first_match_integer.
  2: { intros p Hp. apply list_elem_of_singleton in Hp as ->.
       apply elem_of_app; left; left. }
  unfold get, Client.parseRules. cbv zeta. simpl first_match.
  skip_writes.
  destruct (exec re_age_old text); skip_writes;
    destruct (exec re_karma_count text);
    by rewrite ?lookup_insert_eq.
Qed.

(** C2 does not hold of the browser-side parser: on "karma: 500" the second
    pattern matches and captures 500, and the browser-side parser, which
    tries the first pattern only, leaves [min_karma] null.  Nor is the
    field the integer captured when a double does not hold it: of
    "9007199254740993 karma" the server-side parser keeps
    9007199254740992. *)
Lemma client_skips_later_karma_patterns :
  first_captured_integer karmaPatterns (js "karma: 500") = VNum 500
  ∧ get (Client.parseRules (js "karma: 500")) "min_karma" = VNull
  ∧ ¬ tries_in_order karmaPatterns
        (λ text, get (Client.parseRules text) "min_karma")
  ∧ get (Server.parseRulesText (js "9007199254740993 karma") None) "min_karma"
    = VNum 9007199254740992.
Proof.
  assert (H1 : first_captured_integer karmaPatterns (js "karma: 500")
               = VNum 500) by (vm_compute; reflexivity).
  assert (H2 : get (Client.parseRules (js "karma: 500")) "min_karma" = VNull)
    by (vm_compute; reflexivity).
  split; [done|]. split; [done|]. split; [|vm_compute; reflexivity].
  intros H. specialize (H (js "karma: 500")). cbv beta in H.
  rewrite H1, H2 in H. discriminate.
Qed.

(** C2, as it holds of the code.  The server-side extractor tries exactly
    the three patterns "N (combined) karma", "karma ... N",
    "minimum ... N ... karma" in that order, the browser-side extractor only
    the first of them.  Each sets [min_karma] from the first of its patterns
    that matches, to the Number that [parseInt] makes of the digits
    captured, which is the integer they denote when that is below 2^53; and
    leaves it null when none matches. *)
Theorem karma_minimum_patterns :
  karmaPatterns = [re_karma_count; re_karma_then; re_karma_minimum]
  ∧ (∀ flairs,
       tries_in_order karmaPatterns
         (λ text, get (Server.parseRulesText text flairs) "min_karma"))
  ∧ tries_in_order [re_karma_count]
      (λ text, get (Client.parseRules text) "min_karma")
  ∧ (∀ text flairs,
       let min_karma := get (Server.parseRulesText text flairs) "min_karma" in
       match first_match karmaPatterns text with
       | Some m =>
           ∃ ds, m !! 1%nat = Some ds ∧ is_number_text ds = true
                 ∧ min_karma = number_of (parse_digits 0 ds)
                 ∧ (parse_digits 0 ds < 2 ^ 53 →
                    min_karma = VNum (parse_digits 0 ds))
       | None => min_karma = VNull
       end)
  ∧ (∀ text,
       let min_karma := get (Client.parseRules text) "min_karma" in
       match exec re_karma_count text with
       | Some m =>
           ∃ ds, m !! 1%nat = Some ds ∧ is_number_text ds = true
                 ∧ min_karma = number_of (parse_digits 0 ds)
                 ∧ (parse_digits 0 ds < 2 ^ 53 →
                    min_karma = VNum (parse_digits 0 ds))
       | None => min_karma = VNull
       end).
Proof.
  assert (∀ p, p ∈ karmaPatterns → p ∈ karmaPatterns ++ agePatterns) as Hs
    by (intros p Hp; apply elem_of_app; by left).
  assert (∀ p, p ∈ [re_karma_count] → p ∈ karmaPatterns ++ agePatterns) as Hc.
  { intros p ->%list_elem_of_singleton. apply elem_of_app; left; left. }
  split; [done|]. split; [|split; [|split]].
  - intros flairs text. apply server_min_karma.
  - intros text. apply client_min_karma.
  - intros text flairs. cbv zeta. rewrite server_min_karma.
    destruct (first_match karmaPatterns text) as [m|] eqn:E.
    + by apply first_match_capture.
    + by apply first_match_none.
  - intros text. cbv zeta. rewrite client_min_karma.
    pose proof (first_match_capture [re_karma_count] text) as Hm.
    pose proof (first_match_none [re_karma_count] text) as Hn.
    cbn [first_match] in Hm, Hn.
    destruct (exec re_karma_count text) as [m|].
    + by apply Hm.
    + by apply Hn.
Qed.

(** ** The posting frequency *)

Lemma match_lit_prefix p : ∀ s s',
  match_lit p s = Some s' →
  ∃ w, s = w ++ s' ∧ List.map canon w = List.map canon p.
Proof.
  induction p as [|a p IH]; simpl; intros s s' H.
  - injection H as <-. by exists [].
  - destruct s as [|b s]; [done|].
    destruct (canon a =? canon b) eqn:E; [|done].
    apply N.eqb_eq in E.
    destruct (IH _ _ H) as (w & -> & Hw).
    exists (b :: w). simpl. by rewrite Hw, E.
Qed.

(** A text that equals a lower-case word up to case lower-cases to it. *)
Lemma lower_of_canon p : ∀ w,
  forallb (λ a, (97 <=? a) && (a <=? 122)) p = true →
  List.map canon w = List.map canon p → toLowerCase w = p.
Proof.
  induction p as [|a p IH]; intros [|x w]; simpl; try done.
  intros Hp [= Hx Hw].
  apply andb_true_iff in Hp as [Ha Hp].
  rewrite (IH w Hp Hw). f_equal.
  revert Hx. unfold canon, lower_unit. rewrite Ha.
  apply andb_true_iff in Ha as [Ha1 Ha2].
  apply N.leb_le in Ha1, Ha2.
  destruct ((97 <=? x) && (x <=? 122)) eqn:E1;
    destruct ((65 <=? x) && (x <=? 90)) eqn:E2;
    rewrite ?andb_true_iff, ?andb_false_iff, ?N.leb_le, ?N.leb_gt in E1, E2;
    lia.
Qed.


Lemma check_posting_frequency_fields text r :
  r !! "posting_frequency_hours" = Some VNull →
  r !! "posting_frequency_limit" = Some VNull →
  let r' := check_posting_frequency text r in
  match exec re_frequency text with
  | Some m =>
      let hours :=
        if decide (toLowerCase (ToString (cap m 3)) = js "day") then VNum 24
        else parseInt (js_or (cap m 2) (VNum 1)) in
      r' !! "posting_frequency_hours" = Some hours
      ∧ r' !! "posting_frequency_limit" =
          Some (VStr (js "1 per " ++ ToString hours ++ js " hours"))
  | None =>
      r' !! "posting_frequency_hours" = Some VNull
      ∧ r' !! "posting_frequency_limit" = Some VNull
  end.
Proof.
  intros Hh Hl. unfold check_posting_frequency.
  destruct (exec re_frequency text) as [m|]; [|done].
  cbv zeta. by simplify_map_eq.
Qed.

(** The frequency fields of either parser's output are those the frequency
    check computes from nulls. *)
Lemma parser_frequency_fields text flairs r :
  r = Server.parseRulesText text flairs ∨ r = Client.parseRules text →
  match exec re_frequency text with
  | Some m =>
      let hours :=
        if decide (toLowerCase (ToString (cap m 3)) = js "day") then VNum 24
        else parseInt (js_or (cap m 2) (VNum 1)) in
      r !! "posting_frequency_hours" = Some hours
      ∧ r !! "posting_frequency_limit" =
          Some (VStr (js "1 per " ++ ToString hours ++ js " hours"))
  | None =>
      r !! "posting_frequency_hours" = Some VNull
      ∧ r !! "posting_frequency_limit" = Some VNull
  end.
Proof.
  intros [-> | ->].
  - unfold Server.parseRulesText. cbv zeta.
    set (r0 := check_link_policies text _).
    assert (Hh : r0 !! "posting_frequency_hours" = Some VNull).
    { subst r0. skip_writes.
      destruct (first_match agePatterns text),
               (first_match karmaPatterns text); by skip_writes. }
    assert (Hl : r0 !! "posting_frequency_limit" = Some VNull).
    { subst r0. skip_writes.
      destruct (first_match agePatterns text),
               (first_match karmaPatterns text); by skip_writes. }
    pose proof (check_posting_frequency_fields text r0 Hh Hl) as H.
    cbv zeta in H.
    destruct flairs; rewrite !lookup_insert_ne by done; exact H.
  - unfold Client.parseRules. cbv zeta.
    set (r0 := check_link_policies text _).
    assert (Hh : r0 !! "posting_frequency_hours" = Some VNull).
    { subst r0. skip_writes.
      destruct (exec re_age_old text), (exec re_karma_count text);
        by skip_writes. }
    assert (Hl : r0 !! "posting_frequency_limit" = Some VNull).
    { subst r0. skip_writes.
      destruct (exec re_age_old text), (exec re_karma_count text);
        by skip_writes. }
    pose proof (check_posting_frequency_fields text r0 Hh Hl) as H.
    cbv zeta in H.
    rewrite !lookup_insert_ne by done; exact H.
Qed.




(** ** The rules summary *)

Lemma generateRulesSummary_lines r :
  well_shaped r →
  Server.generateRulesSummary r = summary_of (summary_lines nonzero_number r).
Proof.
  intros [Hk Ha [bv Hv] Hl [bl Hp] Hf].
  unfold Server.generateRulesSummary, summary_lines. cbv zeta.
  rewrite Hv, Hp.
  assert (Ek : truthy (get r "min_karma") = nonzero_number (get r "min_karma"))
    by (destruct Hk as [-> | [-> | [k ->]]]; reflexivity).
  assert (Ea : truthy (get r "min_account_age_days")
               = nonzero_number (get r "min_account_age_days"))
    by (destruct Ha as [-> | [-> | [k ->]]]; reflexivity).
  assert (El : truthy (get r "posting_frequency_limit")
               = non_null (get r "posting_frequency_limit"))
    by (destruct Hl as [-> | (x & s & ->)]; reflexivity).
  rewrite Ek, Ea, El.
  destruct (nonzero_number (get r "min_karma")),
           (nonzero_number (get r "min_account_age_days")),
           bv, (non_null (get r "posting_frequency_limit")), bl;
    destruct Hf as [-> | [[|f l] ->]]; reflexivity.
Qed.

(** The summary only reads six fields. *)
Lemma generateRulesSummary_ext r r' :
  (∀ k, k ≠ "rules_summary" → r !! k = r' !! k) →
  Server.generateRulesSummary r = Server.generateRulesSummary r'.
Proof.
  intros H. unfold Server.generateRulesSummary, get.
  by rewrite !(H _) by done.
Qed.

Lemma first_captured_integer_shape patterns text :
  (∀ p, p ∈ patterns → p ∈ karmaPatterns ++ agePatterns) →
  first_captured_integer patterns text = VNull
  ∨ first_captured_integer patterns text = VInfinity
  ∨ ∃ k, first_captured_integer patterns text = VNum k.
Proof.
  induction patterns as [|p rest IH]; simpl; intros Hin; [by left|].
  destruct (exec p text) as [m|] eqn:E.
  - destruct (number_pattern_capture p text m) as (ds & -> & _);
      [apply Hin; left | done |]. right. apply number_of_shape.
  - apply IH. intros q Hq. apply Hin. by right.
Qed.

Lemma server_min_age text flairs :
  get (Server.parseRulesText text flairs) "min_account_age_days" =
  first_captured_integer agePatterns text.
Proof.
  rewrite <- first_match_integer
    by (intros p Hp; apply elem_of_app; by right).
  unfold get, Server.parseRulesText. cbv zeta.
  destruct flairs; skip_writes;
    destruct (first_match agePatterns text);
    rewrite ?lookup_insert_eq; try done; skip_writes;
    destruct (first_match karmaPatterns text); by skip_writes.
Qed.

Lemma client_min_age text :
  get (Client.parseRules text) "min_account_age_days" =
  first_captured_integer [re_age_old] text.
Proof.
  rewrite <- first_match_integer.
  2: { intros p Hp. apply list_elem_of_singleton in Hp as ->.
       apply elem_of_app; right; left. }
  unfold get, Client.parseRules. cbv zeta. simpl first_match.
  skip_writes.
  destruct (exec re_age_old text);
    rewrite ?lookup_insert_eq; try done; skip_writes;
    destruct (exec re_karma_count text); by skip_writes.
Qed.

Lemma parser_verification text flairs r :
  r = Server.parseRulesText text flairs ∨ r = Client.parseRules text →
  r !! "requires_verification" = Some (VBool (test re_verif text)).
Proof.
  intros [-> | ->].
  - unfold Server.parseRulesText. cbv zeta.
    destruct flairs; skip_writes; unfold check_verification;
      destruct (test re_verif text);
      rewrite ?lookup_insert_eq; try done;
      destruct (first_match agePatterns text),
               (first_match karmaPatterns text); by skip_writes.
  - unfold Client.parseRules. cbv zeta.
    skip_writes; unfold check_verification;
      destruct (test re_verif text);
      rewrite ?lookup_insert_eq; try done;
      destruct (exec re_age_old text), (exec re_karma_count text);
      by skip_writes.
Qed.

Lemma server_flairs text flairs :
  Server.parseRulesText text flairs !! "required_flairs" =
  Some (VArr (match flairs with
              | Some texts => List.filter truthy texts
              | None => []
              end)).
Proof.
  unfold Server.parseRulesText. cbv zeta.
  destruct flairs; skip_writes; rewrite ?lookup_insert_eq; try done.
  destruct (first_match agePatterns text),
           (first_match karmaPatterns text); by skip_writes.
Qed.

Lemma client_flairs text :
  Client.parseRules text !! "required_flairs" = None.
Proof.
  unfold Client.parseRules. cbv zeta. skip_writes.
  destruct (exec re_age_old text), (exec re_karma_count text); by skip_writes.
Qed.

Lemma parser_well_shaped text flairs r :
  r = Server.parseRulesText text flairs ∨ r = Client.parseRules text →
  well_shaped r.
Proof.
  intros Hr.
  pose proof (parser_links text flairs r Hr) as (Hp & _ & _).
  pose proof (parser_verification text flairs r Hr) as Hv.
  pose proof (parser_frequency_fields text flairs r Hr) as Hf.
  split.
  - destruct Hr as [-> | ->];
      [rewrite server_min_karma | rewrite client_min_karma];
      apply first_captured_integer_shape; intros p Hp';
      [|apply list_elem_of_singleton in Hp' as ->];
      apply elem_of_app; left; [done | left].
  - destruct Hr as [-> | ->];
      [rewrite server_min_age | rewrite client_min_age];
      apply first_captured_integer_shape; intros p Hp';
      [|apply list_elem_of_singleton in Hp' as ->];
      apply elem_of_app; right; [done | left].
  - unfold get. rewrite Hv. by eexists.
  - unfold get. destruct (exec re_frequency text).
    + cbv zeta in Hf. destruct Hf as [_ ->]. right. simpl. by do 2 eexists.
    + destruct Hf as [_ ->]. by left.
  - unfold get. rewrite Hp. by eexists.
  - unfold get. destruct Hr as [-> | ->].
    + rewrite server_flairs. right. by eexists.
    + rewrite client_flairs. by left.
Qed.

Lemma get_insert_eq (r : gmap string value) k v : get (<[k := v]> r) k = v.
Proof. unfold get. by rewrite lookup_insert_eq. Qed.

(** The summary field is the summary of the object that carries it. *)
Lemma parser_summary_field text flairs r :
  r = Server.parseRulesText text flairs ∨ r = Client.parseRules text →
  get r "rules_summary" = VStr (Server.generateRulesSummary r).
Proof.
  intros [-> | ->].
  - unfold Server.parseRulesText. cbv zeta.
    rewrite get_insert_eq. f_equal.
    apply generateRulesSummary_ext. intros k Hk.
    symmetry. apply lookup_insert_ne. congruence.
  - pose proof (client_flairs text) as Hfl.
    revert Hfl. unfold Client.parseRules. cbv zeta.
    set (req := check_posting_frequency text _).
    rewrite lookup_insert_ne by done. intros Hfl.
    rewrite get_insert_eq. f_equal.
    rewrite <- (generateRulesSummary_ext req) by
      (intros k Hk; symmetry; apply lookup_insert_ne; congruence).
    unfold Server.generateRulesSummary. cbv zeta.
    replace (get req "required_flairs") with VUndefined
      by (unfold get; by rewrite Hfl).
    reflexivity.
Qed.




(** ** Numbers *)

(** Multiplication of doubles is commutative, bit for bit. *)
Lemma dmul_comm x y : dmul x y = dmul y x.
Proof.
  unfold dmul.
  destruct x as [sx|sx| |sx mx ex], y as [sy|sy| |sy my ey]; simpl;
    rewrite ?(xorb_comm sx sy); try reflexivity.
  by rewrite (Pos.mul_comm mx my), (Z.add_comm ex ey).
Qed.

(** The two constants are the doubles nearest to 7/10 and 3/10. *)
Lemma literals_nearest :
  d07 = ddiv (of_int 7) (of_int 10) ∧ d03 = ddiv (of_int 3) (of_int 10).
Proof. split; vm_compute; reflexivity. Qed.

Lemma Qnum_positive q : (0 <? Qnum q)%Z = true ↔ (0 < q)%Q.
Proof. rewrite Z.ltb_lt. unfold Qlt. simpl. lia. Qed.

Lemma is_positive_sub p q :
  is_positive (num_sub (Fin p) (Fin q)) = true ↔ (q < p)%Q.
Proof.
  unfold num_sub, num_opp, num_add, is_positive.
  rewrite Qnum_positive, !Qred_correct.
  rewrite (Qlt_minus_iff q p). reflexivity.
Qed.

Lemma ascending_positive a b :
  is_positive (ascending a b) = (b <? a)%Z.
Proof.
  apply eq_true_iff_eq. unfold ascending, of_Z.
  rewrite is_positive_sub, <- Zlt_Qlt, Z.ltb_lt. reflexivity.
Qed.

(** ** Doubles *)

(** The least exponent of a double. *)
Lemma emin_double : emin 53 1024 = (-1074)%Z.
Proof. reflexivity. Qed.

Lemma digits2_pos_bounds m :
  (2 ^ (Z.pos (digits2_pos m) - 1) <= Z.pos m < 2 ^ Z.pos (digits2_pos m))%Z.
Proof.
  induction m as [p IH|p IH|]; cbn [digits2_pos].
  - rewrite Pos2Z.inj_succ, (Pos2Z.inj_xI p).
    replace (Z.succ (Z.pos (digits2_pos p)) - 1)%Z
      with (Z.succ (Z.pos (digits2_pos p) - 1)) by lia.
    rewrite !Z.pow_succ_r by lia. lia.
  - rewrite Pos2Z.inj_succ, (Pos2Z.inj_xO p).
    replace (Z.succ (Z.pos (digits2_pos p)) - 1)%Z
      with (Z.succ (Z.pos (digits2_pos p) - 1)) by lia.
    rewrite !Z.pow_succ_r by lia. lia.
  - simpl. lia.
Qed.

Lemma shr_1_m mrs :
  (0 <= shr_m mrs)%Z → shr_m (shr_1 mrs) = (shr_m mrs / 2)%Z.
Proof.
  destruct mrs as [m r s]. cbn [shr_m]. intros Hm.
  rewrite <- Z.div2_div.
  destruct m as [|[p|p|]|p]; try reflexivity. lia.
Qed.

Lemma iter_shr_1 p : ∀ mrs,
  (0 <= shr_m mrs)%Z →
  shr_m (SpecFloat.iter_pos shr_1 p mrs) = (shr_m mrs / 2 ^ Z.pos p)%Z.
Proof.
  induction p as [p IH|p IH|]; intros mrs Hm; cbn [SpecFloat.iter_pos].
  - assert (H1 : (0 <= shr_m (shr_1 mrs))%Z)
      by (rewrite shr_1_m by done; apply Z.div_pos; lia).
    assert (H2 : (0 <= shr_m (SpecFloat.iter_pos shr_1 p (shr_1 mrs)))%Z)
      by (rewrite IH by done; apply Z.div_pos; lia).
    rewrite IH, IH, shr_1_m by done.
    rewrite !Z.div_div by lia. f_equal.
    rewrite (Pos2Z.inj_xI p).
    replace (2 * Z.pos p + 1)%Z with (1 + Z.pos p + Z.pos p)%Z by lia.
    rewrite !Z.pow_add_r by lia. lia.
  - assert (H2 : (0 <= shr_m (SpecFloat.iter_pos shr_1 p mrs))%Z)
      by (rewrite IH by done; apply Z.div_pos; lia).
    rewrite IH, IH by done.
    rewrite !Z.div_div by lia. f_equal.
    rewrite (Pos2Z.inj_xO p).
    replace (2 * Z.pos p)%Z with (Z.pos p + Z.pos p)%Z by lia.
    rewrite !Z.pow_add_r by lia. lia.
  - by rewrite shr_1_m.
Qed.

Lemma shr_record_m m l : shr_m (shr_record_of_loc m l) = m.
Proof. by destruct l as [|[]]. Qed.

(** A shift leaves an exponent of [emin] or more, *)
Lemma shr_fexp_exp m e l : (-1074 <= (shr_fexp 53 1024 m e l).2)%Z.
Proof.
  unfold shr_fexp, shr, fexp. rewrite emin_double.
  destruct (Z.max (Zdigits2 m + e - 53) (-1074) - e)%Z eqn:E; cbn [snd]; lia.
Qed.

(** and of a positive mantissa, from such an exponent, a positive one. *)
Lemma shr_fexp_pos m e l :
  (0 < m)%Z → (-1074 <= e)%Z → (0 < shr_m (shr_fexp 53 1024 m e l).1)%Z.
Proof.
  intros Hm He. unfold shr_fexp, shr, fexp. rewrite emin_double.
  destruct (Z.max (Zdigits2 m + e - 53) (-1074) - e)%Z as [|n|n] eqn:E;
    cbn [fst]; rewrite ?shr_record_m; try done.
  rewrite iter_shr_1 by (rewrite shr_record_m; lia).
  rewrite shr_record_m.
  destruct m as [|p|p]; try lia. cbn [Zdigits2] in E.
  pose proof (digits2_pos_bounds p) as [Hlo _].
  apply Z.div_str_pos. split; [lia|].
  transitivity (2 ^ (Z.pos (digits2_pos p) - 1))%Z; [|done].
  apply Z.pow_le_mono_r; lia.
Qed.

Lemma binary_round_aux_signed s m e l :
  (0 < m)%Z → (-1074 <= e)%Z → signed s (binary_round_aux 53 1024 s m e l).
Proof.
  intros Hm He. unfold binary_round_aux.
  pose proof (shr_fexp_pos m e l Hm He) as H1.
  pose proof (shr_fexp_exp m e l) as H1'.
  destruct (shr_fexp 53 1024 m e l) as [mrs' e'].
  cbn [fst snd] in H1, H1'.
  set (m1 := round_nearest_even _ _).
  assert (Hm1 : (0 < m1)%Z).
  { subst m1. unfold round_nearest_even.
    destruct (loc_of_shr_record mrs') as [|[]]; try done;
      [destruct (Z.even _)|]; lia. }
  pose proof (shr_fexp_pos m1 e' loc_Exact Hm1 H1') as H2.
  pose proof (shr_fexp_exp m1 e' loc_Exact) as H2'.
  destruct (shr_fexp 53 1024 m1 e' loc_Exact) as [mrs'' e''].
  cbn [fst snd] in H2, H2'.
  destruct (shr_m mrs''); try lia.
  by destruct (e'' <=? 1024 - 53)%Z.
Qed.

Lemma binary_round_aux_low s m e l :
  low_bounded (binary_round_aux 53 1024 s m e l).
Proof.
  unfold binary_round_aux.
  destruct (shr_fexp 53 1024 m e l) as [mrs' e'].
  set (m1 := round_nearest_even _ _).
  pose proof (shr_fexp_exp m1 e' loc_Exact) as H2'.
  destruct (shr_fexp 53 1024 m1 e' loc_Exact) as [mrs'' e''].
  cbn [snd] in H2'.
  destruct (shr_m mrs''); try done.
  by destruct (e'' <=? 1024 - 53)%Z.
Qed.

Lemma binary_round_signed s m e :
  (-1074 <= e)%Z → signed s (binary_round 53 1024 s m e).
Proof.
  intros He. unfold binary_round.
  destruct (shl_align m e _) as [mz ez] eqn:E.
  apply binary_round_aux_signed; [done|].
  revert E. unfold shl_align, fexp. rewrite emin_double.
  destruct (Z.max _ _ - e)%Z; intros [= <- <-]; lia.
Qed.

Lemma iter_xO m d : Z.pos (Pos.iter xO m d) = (Z.pos m * 2 ^ Z.pos d)%Z.
Proof.
  induction d as [|d IH] using Pos.peano_ind.
  - simpl. lia.
  - rewrite Pos.iter_succ, (Pos2Z.inj_xO (Pos.iter xO m d)), IH,
      Pos2Z.inj_succ, Z.pow_succ_r by lia.
    lia.
Qed.

Lemma shl_align_mantissa m e ez :
  (ez <= e)%Z → Z.pos (shl_align m e ez).1 = (Z.pos m * 2 ^ (e - ez))%Z.
Proof.
  intros He. unfold shl_align.
  destruct (ez - e)%Z as [|d|d] eqn:E; cbn [fst]; try lia.
  - replace (e - ez)%Z with 0%Z by lia. lia.
  - rewrite iter_xO. do 2 f_equal. lia.
Qed.

Lemma two_power_positive e : (0 < 2 ^ e)%Q.
Proof. by apply Qpower_0_lt. Qed.

Lemma is_positive_scaled z e :
  is_positive (Fin (inject_Z z * 2 ^ e)) = (0 <? z)%Z.
Proof.
  apply eq_true_iff_eq. cbn [is_positive].
  rewrite Qnum_positive, Z.ltb_lt.
  pose proof (two_power_positive e) as Hp. split.
  - intros H. destruct (Z.lt_ge_cases 0 z) as [|Hle]; [done|]. exfalso.
    assert (inject_Z z * 2 ^ e <= 0)%Q.
    { rewrite <- (Qmult_0_l (2 ^ e)). apply Qmult_le_compat_r.
      - rewrite Zle_Qle in Hle. exact Hle.
      - by apply Qlt_le_weak. }
    by apply (Qlt_not_le _ _ H).
  - intros H. apply Qmult_lt_0_compat; [|done].
    rewrite Zlt_Qlt in H. exact H.
Qed.

Lemma is_positive_signed s d : signed s d → is_positive (exact d) = negb s.
Proof.
  destruct d as [| [] | |s' m e]; cbn [signed exact]; try done.
  - by intros <-.
  - by intros <-.
  - intros [<- _]. rewrite is_positive_scaled. by destruct s'.
Qed.

(** A finite double at a lower exponent. *)
Lemma exact_aligned s m e ez :
  (ez <= e)%Z →
  (inject_Z (cond_Zopp s (Z.pos m)) * 2 ^ e ==
   inject_Z (cond_Zopp s (Z.pos m * 2 ^ (e - ez))) * 2 ^ ez)%Q.
Proof.
  intros He.
  replace e with ((e - ez) + ez)%Z at 1 by lia.
  rewrite Qpower_plus by done.
  assert (cond_Zopp s (Z.pos m * 2 ^ (e - ez))
          = (cond_Zopp s (Z.pos m) * 2 ^ (e - ez))%Z) as ->
    by (destruct s; simpl; lia).
  rewrite inject_Z_mult, Zpower_Qpower by lia.
  change (inject_Z 2) with 2%Q. ring.
Qed.

Lemma ranks_below_scaled a b e :
  (inject_Z a * 2 ^ e < inject_Z b * 2 ^ e)%Q ↔ (a < b)%Z.
Proof.
  pose proof (two_power_positive e) as Hp.
  rewrite Zlt_Qlt. split.
  - intros H. by apply Qmult_lt_r in H.
  - intros H. by apply Qmult_lt_r.
Qed.

(** The sign of a difference of doubles is that of the difference of their
    values: it is positive exactly when the value subtracted is the
    lesser. *)
Lemma dsub_positive x y :
  low_bounded x → low_bounded y → x ≠ S754_nan → y ≠ S754_nan →
  is_positive (exact (dsub y x)) = true ↔ ranks_below x y.
Proof.
  intros Hx Hy Hnx Hny. unfold ranks_below.
  destruct x as [sx|sx| |sx mx ex], y as [sy|sy| |sy my ey]; try done.
  - (* zero, zero *)
    destruct sx, sy; cbn; split; try done; intros H; by apply Qlt_irrefl in H.
  - destruct sx, sy; cbn; split; done.
  - (* x zero, y finite *)
    change (dsub (S754_finite sy my ey) (S754_zero sx))
      with (S754_finite sy my ey).
    cbn [exact num_lt]. rewrite is_positive_scaled.
    rewrite <- (Qmult_0_l (2 ^ ey)). change 0%Q with (inject_Z 0).
    rewrite ranks_below_scaled, Z.ltb_lt. reflexivity.
  - destruct sx, sy; cbn; split; done.
  - destruct sx, sy; cbn; split; done.
  - destruct sx, sy; cbn; split; done.
  - (* x finite, y zero *)
    change (dsub (S754_zero sy) (S754_finite sx mx ex))
      with (S754_finite (negb sx) mx ex).
    cbn [exact num_lt]. rewrite is_positive_scaled.
    rewrite <- (Qmult_0_l (2 ^ ex)). change 0%Q with (inject_Z 0).
    rewrite ranks_below_scaled, Z.ltb_lt. destruct sx; simpl; lia.
  - destruct sx, sy; cbn; split; done.
  - (* both finite *)
    cbn [low_bounded] in Hx, Hy.
    unfold dsub, SFsub. cbv zeta.
    set (ez := Z.min ey ex).
    rewrite !shl_align_mantissa by lia.
    cbn [exact num_lt].
    rewrite (exact_aligned sx mx ex ez), (exact_aligned sy my ey ez) by lia.
    rewrite ranks_below_scaled.
    set (ax := cond_Zopp sx _). set (ay := cond_Zopp sy _).
    destruct (ay - ax)%Z as [|d|d] eqn:E; cbn [binary_normalize].
    + cbn. split; [done | lia].
    + rewrite (is_positive_signed false) by (apply binary_round_signed; lia).
      split; [lia | done].
    + rewrite (is_positive_signed true) by (apply binary_round_signed; lia).
      split; [done | lia].
Qed.

Lemma ddiv_low x y : low_bounded (ddiv x y).
Proof.
  unfold ddiv, SFdiv.
  destruct x as [sx|sx| |sx mx ex], y as [sy|sy| |sy my ey]; try exact I.
  destruct (SFdiv_core_binary _ _ _ _ _ _) as [[mz ez] lz].
  apply binary_round_aux_low.
Qed.

(** A shift of a mantissa that is not negative leaves one. *)
Lemma shr_fexp_nonneg m e l :
  (0 <= m)%Z → (0 <= shr_m (shr_fexp 53 1024 m e l).1)%Z.
Proof.
  intros Hm. unfold shr_fexp, shr.
  destruct (fexp 53 1024 (Zdigits2 m + e) - e)%Z as [|n|n];
    cbn [fst]; rewrite ?shr_record_m; try done.
  rewrite iter_shr_1 by (rewrite shr_record_m; lia).
  rewrite shr_record_m. apply Z.div_pos; lia.
Qed.

(** Rounding keeps the sign, and gives no NaN. *)
Lemma binary_round_aux_sign m e l :
  (0 <= m)%Z → non_negative (binary_round_aux 53 1024 false m e l).
Proof.
  intros Hm. unfold binary_round_aux.
  pose proof (shr_fexp_nonneg m e l Hm) as H1.
  destruct (shr_fexp 53 1024 m e l) as [mrs' e']. cbn [fst] in H1.
  set (m1 := round_nearest_even _ _).
  assert (Hm1 : (0 <= m1)%Z).
  { subst m1. unfold round_nearest_even.
    destruct (loc_of_shr_record mrs') as [|[]]; try done;
      [destruct (Z.even _)|]; lia. }
  pose proof (shr_fexp_nonneg m1 e' loc_Exact Hm1) as H2.
  destruct (shr_fexp 53 1024 m1 e' loc_Exact) as [mrs'' e'']. cbn [fst] in H2.
  destruct (shr_m mrs''); try lia; [done|].
  by destruct (e'' <=? 1024 - 53)%Z.
Qed.

Lemma binary_round_sign m e : non_negative (binary_round 53 1024 false m e).
Proof.
  unfold binary_round. destruct (shl_align m e _) as [mz ez].
  by apply binary_round_aux_sign.
Qed.

Lemma of_int_sign z : (0 <= z)%Z → non_negative (of_int z).
Proof.
  intros Hz. unfold of_int. destruct z as [|p|p]; [done| |lia].
  apply binary_round_sign.
Qed.

Lemma dadd_sign x y : non_negative x → non_negative y → non_negative (dadd x y).
Proof.
  destruct x as [sx|sx| |sx mx ex], y as [sy|sy| |sy my ey];
    cbn [non_negative]; try done; intros -> ->; try done.
  unfold dadd, SFadd. cbn [cond_Zopp Z.add].
  apply binary_round_sign.
Qed.

Lemma dmul_sign x y : non_negative x → non_negative y →
  (∀ s, x = S754_infinity s → ∀ s', y ≠ S754_zero s') →
  (∀ s, y = S754_infinity s → ∀ s', x ≠ S754_zero s') →
  non_negative (dmul x y).
Proof.
  destruct x as [sx|sx| |sx mx ex], y as [sy|sy| |sy my ey];
    cbn [non_negative]; try done; intros -> -> H1 H2; try done.
  - by destruct (H2 false eq_refl false).
  - by destruct (H1 false eq_refl false).
  - unfold dmul, SFmul. cbn [xorb]. by apply binary_round_aux_sign.
Qed.

Lemma dsum_sign xs : Forall (λ z, (0 <= z)%Z) xs → non_negative (dsum xs).
Proof.
  unfold dsum. assert (H0 : non_negative d0) by done. revert H0.
  generalize d0. induction xs as [|x xs IH]; intros acc Hacc Hxs; [done|].
  apply Forall_cons in Hxs as [Hx Hxs]. cbn [fold_left].
  apply IH; [|done]. apply dadd_sign; [done | by apply of_int_sign].
Qed.

Lemma digits2_pos_shift p k :
  digits2_pos (Pos.iter xO p k) = (digits2_pos p + k)%positive.
Proof.
  induction k as [|k IH] using Pos.peano_ind.
  - simpl. lia.
  - rewrite Pos.iter_succ. cbn [digits2_pos]. rewrite IH. lia.
Qed.

(** A positive integer below 2^53 is a finite double. *)
Lemma of_int_finite z :
  (0 < z < 2 ^ 53)%Z → ∃ m e, of_int z = S754_finite false m e.
Proof.
  intros [Hpos Hlt]. destruct z as [|p|p]; try lia.
  unfold of_int, binary_normalize, binary_round.
  pose proof (digits2_pos_bounds p) as [Hlo _].
  assert (Hd : (Z.pos (digits2_pos p) <= 53)%Z).
  { destruct (Z.le_gt_cases (Z.pos (digits2_pos p)) 53) as [|Hgt]; [done|].
    assert (2 ^ 53 <= 2 ^ (Z.pos (digits2_pos p) - 1))%Z
      by (apply Z.pow_le_mono_r; lia).
    lia. }
  set (d := digits2_pos p) in *.
  assert (E : ∃ mz, shl_align p 0 (fexp 53 1024 (Z.pos d + 0))
                    = (mz, (Z.pos d - 53)%Z)
                    ∧ Z.pos (digits2_pos mz) = 53%Z).
  { unfold shl_align, fexp. rewrite emin_double.
    replace (Z.max (Z.pos d + 0 - 53) (-1074))%Z with (Z.pos d - 53)%Z by lia.
    destruct (Z.pos d - 53 - 0)%Z as [|n|n] eqn:En; try lia.
    - exists p. split; [f_equal; lia|]. fold d. lia.
    - eexists. split; [reflexivity|]. rewrite digits2_pos_shift. fold d. lia. }
  destruct E as (mz & -> & Hmz).
  unfold binary_round_aux, shr_fexp, shr, fexp. rewrite emin_double.
  cbn [Zdigits2 shr_record_of_loc]. rewrite Hmz.
  replace (Z.max (53 + (Z.pos d - 53) - 53) (-1074) - (Z.pos d - 53))%Z
    with 0%Z by lia.
  cbn [shr_m loc_of_shr_record round_nearest_even Zdigits2 shr_record_of_loc].
  rewrite Hmz.
  replace (Z.max (53 + (Z.pos d - 53) - 53) (-1074) - (Z.pos d - 53))%Z
    with 0%Z by lia.
  cbn [shr_m].
  destruct (Z.leb_spec (Z.pos d - 53) (1024 - 53)) as [_|]; [by eauto | lia].
Qed.

Lemma ddiv_sign x m e :
  non_negative x → non_negative (ddiv x (S754_finite false m e)).
Proof.
  destruct x as [sx|sx| |sx mx ex]; cbn [non_negative]; try done;
    intros ->; try done.
  unfold ddiv, SFdiv. cbn [xorb].
  destruct (SFdiv_core_binary _ _ _ _ _ _) as [[mz ez] lz] eqn:E.
  apply binary_round_aux_sign.
  revert E. unfold SFdiv_core_binary. cbv zeta.
  set (m' := match _ with Z0 => _ | Z.pos _ => _ | Z.neg _ => _ end).
  assert (Hm' : (0 <= m')%Z).
  { subst m'. destruct (_ - _ - _)%Z; try done. by apply Z.shiftl_nonneg. }
  pose proof (Z.div_pos m' (Z.pos m) Hm' ltac:(done)) as Hq.
  unfold Z.div in Hq. destruct (Z.div_eucl m' (Z.pos m)) as [q r].
  by intros [= <- _ _].
Qed.

(** The mean of a sample, not empty, of integers that are not negative is
    a number and is not negative. *)
Lemma mean_sign xs :
  xs ≠ [] → (Z.of_nat (length xs) < 2 ^ 53)%Z → Forall (λ z, (0 <= z)%Z) xs →
  non_negative (ddiv (dsum xs) (of_int (Z.of_nat (length xs)))).
Proof.
  intros Hne Hlen Hxs.
  destruct (of_int_finite (Z.of_nat (length xs))) as (m & e & ->).
  { split; [|done]. destruct xs; [done | simpl; lia]. }
  apply ddiv_sign. by apply dsum_sign.
Qed.

(** A double equals itself, as [==] has it, unless it is NaN. *)
Lemma SFeqb_refl x : SFeqb x x = true ↔ x ≠ S754_nan.
Proof.
  unfold SFeqb, SFcompare.
  destruct x as [[]|[]| |[] m e];
    rewrite ?Z.compare_refl, ?Pos.compare_cont_refl; split; done.
Qed.

Lemma score_sign u c :
  non_negative u → non_negative c →
  non_negative (dadd (dmul d07 u) (dmul d03 c)).
Proof.
  intros Hu Hc. apply dadd_sign; apply dmul_sign; try done.
  all: try (intros s E; discriminate E).
  all: intros s _ s'; discriminate.
Qed.

(** ** Sorting *)

Section SortProperties.
Context {A : Type} (comparefn : A → A → number).

Local Abbreviation before := (may_precede comparefn).

Lemma sort_insert_Permutation x l :
  sort_insert comparefn x l ≡ₚ x :: l.
Proof.
  induction l as [|y l IH]; simpl; [done|].
  destruct (is_positive (comparefn x y)); [|done].
  rewrite IH. apply Permutation_swap.
Qed.

Lemma js_sort_Permutation l : js_sort comparefn l ≡ₚ l.
Proof.
  induction l as [|x l IH]; simpl; [done|].
  by rewrite sort_insert_Permutation, IH.
Qed.

Lemma js_sort_length l : length (js_sort comparefn l) = length l.
Proof. apply Permutation_length, js_sort_Permutation. Qed.

(** A comparator that is consistent on the values that satisfy [P]:
    never both [x] after [y] and [y] after [x], and "may stand before"
    is transitive. *)
Context (P : A → Prop).
Hypothesis asymmetric : ∀ x y, P x → P y →
  is_positive (comparefn x y) = true → before y x.
Hypothesis transitive : ∀ x y z, P x → P y → P z →
  before x y → before y z → before x z.

Lemma sort_insert_sorted x l :
  P x → Forall P l →
  StronglySorted before l → StronglySorted before (sort_insert comparefn x l).
Proof using asymmetric transitive.
  intros Hx HP. induction 1 as [|y l Hl IH Hy]; simpl.
  - repeat constructor.
  - apply Forall_cons in HP as [HPy HP].
    destruct (is_positive (comparefn x y)) eqn:E.
    + constructor; [by apply IH|].
      rewrite sort_insert_Permutation. constructor; [by apply asymmetric|done].
    + constructor; [by constructor|].
      constructor; [done|].
      rewrite Forall_forall in Hy, HP. apply Forall_forall. intros z Hz.
      apply (transitive x y z); auto.
Qed.

Lemma js_sort_sorted l :
  Forall P l → StronglySorted before (js_sort comparefn l).
Proof using asymmetric transitive.
  induction 1 as [|x l Hx Hl IH]; simpl; [constructor|].
  apply sort_insert_sorted; [done | | done].
  by rewrite js_sort_Permutation.
Qed.
End SortProperties.

Lemma StronglySorted_fmap_weaken {A B} (R : A → A → Prop) (R' : B → B → Prop)
    (f : A → B) l :
  (∀ a b, a ∈ l → b ∈ l → R a b → R' (f a) (f b)) →
  StronglySorted R l → StronglySorted R' (f <$> l).
Proof.
  intros HR Hs. induction Hs as [|x l Hl IH Hx]; simpl; constructor.
  - apply IH. intros a b Ha Hb. apply HR; by right.
  - apply Forall_fmap, Forall_forall. intros y Hy.
    rewrite Forall_forall in Hx. apply HR; [left | by right | by apply Hx].
Qed.

Lemma sort_ascending_sorted (xs : list Z) :
  StronglySorted Z.le (js_sort ascending xs).
Proof.
  rewrite <- (list_fmap_id (js_sort ascending xs)).
  apply (StronglySorted_fmap_weaken (may_precede ascending)).
  - intros a b _ _. unfold may_precede.
    rewrite ascending_positive, Z.ltb_ge. done.
  - apply (js_sort_sorted ascending (λ _, True)); unfold may_precede.
    + intros a b _ _. rewrite !ascending_positive, Z.ltb_lt, Z.ltb_ge. lia.
    + intros a b c _ _ _. rewrite !ascending_positive, !Z.ltb_ge. lia.
    + by apply Forall_forall.
Qed.

(** ** The engagement calculator *)

(** On an empty sample, and when the fetch fails, the server-side
    calculator returns zeros. *)
Lemma server_empty_sample fetched :
  fetched = Some [] ∨ fetched = None →
  Server.calculateEngagement fetched =
  {| avg_upvotes := d0; median_upvotes := Some d0;
     avg_comments := d0; engagement_score := d0 |}.
Proof. intros [-> | ->]; vm_compute; reflexivity. Qed.

(** C1.  On an empty sample the browser-side calculator does not return
    zeros: both means are 0/0, which is NaN, the median is the element 0 of
    an empty array, which is undefined, and the score is NaN.  The
    server-side calculator returns four zeros there. *)
Theorem client_empty_sample_not_zero :
  Client.calculateEngagement (Some []) =
    {| avg_upvotes := S754_nan; median_upvotes := None;
       avg_comments := S754_nan; engagement_score := S754_nan |}
  ∧ Server.calculateEngagement (Some []) =
    {| avg_upvotes := d0; median_upvotes := Some d0;
       avg_comments := d0; engagement_score := d0 |}.
Proof. split; vm_compute; reflexivity. Qed.

(** C3.  For a non-empty sample of n posts, both calculators return as
    median the element at index floor(n/2) of the scores sorted ascending
    (the upper of the two middle elements when n is even); for the scores
    10, 20, 30 that is 20. *)
Theorem median_is_upper_middle (posts : list post) :
  posts ≠ [] →
  (∃ sorted m,
     sorted ≡ₚ List.map score posts
     ∧ StronglySorted Z.le sorted
     ∧ sorted !! (length posts / 2)%nat = Some m
     ∧ median_upvotes (Server.calculateEngagement (Some posts)) = Some (of_int m)
     ∧ median_upvotes (Client.calculateEngagement (Some posts)) = Some (of_int m))
  ∧ (List.map score posts = [10; 20; 30]%Z →
     median_upvotes (Server.calculateEngagement (Some posts)) = Some (of_int 20)
     ∧ median_upvotes (Client.calculateEngagement (Some posts)) = Some (of_int 20)).
Proof.
  intros Hne.
  assert (Hlen : (0 < length posts)%nat) by (destruct posts; [done | simpl; lia]).
  assert (Hs : median_upvotes (Server.calculateEngagement (Some posts)) =
               of_int <$> js_sort ascending (List.map score posts)
                          !! (length posts / 2)%nat).
  { unfold Server.calculateEngagement. simpl. rewrite length_map.
    destruct (length posts) eqn:E; [lia|]. reflexivity. }
  assert (Hc : median_upvotes (Client.calculateEngagement (Some posts)) =
               of_int <$> js_sort ascending (List.map score posts)
                          !! (length posts / 2)%nat).
  { unfold Client.calculateEngagement. simpl.
    by rewrite js_sort_length, length_map. }
  split.
  - destruct (lookup_lt_is_Some_2 (js_sort ascending (List.map score posts))
                (length posts / 2)%nat) as [m Hm].
    { rewrite js_sort_length, length_map.
      apply Nat.div_lt; lia. }
    exists (js_sort ascending (List.map score posts)), m.
    split; [apply js_sort_Permutation|].
    split; [apply sort_ascending_sorted|].
    split; [done|].
    by rewrite Hs, Hc, Hm.
  - intros Hscores. rewrite Hs, Hc, Hscores.
    assert (length posts = 3%nat) as ->
      by (rewrite <- (length_map score), Hscores; reflexivity).
    split; vm_compute; reflexivity.
Qed.

Lemma median_is_upper_middle_witness :
  sample3 ≠ []
  ∧ List.map score sample3 = [10; 20; 30]%Z
  ∧ median_upvotes (Server.calculateEngagement (Some sample3)) = Some (of_int 20)
  ∧ median_upvotes (Client.calculateEngagement (Some sample3)) = Some (of_int 20).
Proof.
  assert (Hne : sample3 ≠ []) by discriminate.
  destruct (median_is_upper_middle sample3 Hne) as [_ H].
  exact (conj Hne (conj eq_refl (H eq_refl))).
Defined.

(** C9.  On the browser's empty sample the score does not equal the
    weighted sum of the averages: the two averages are 0/0 there, so the
    score and the sum are both NaN, and NaN equals nothing, itself included.
    The server-side calculator guards each average by the length of the
    sample and returns 0 for all three, and there the equation holds. *)
Theorem empty_sample_score_equals_nothing :
  let formula e :=
    dadd (dmul d07 (avg_upvotes e)) (dmul d03 (avg_comments e)) in
  let client := Client.calculateEngagement (Some []) in
  let server := Server.calculateEngagement (Some []) in
  avg_upvotes client = S754_nan
  ∧ avg_comments client = S754_nan
  ∧ engagement_score client = S754_nan
  ∧ formula client = S754_nan
  ∧ SFeqb (engagement_score client) (formula client) = false
  ∧ engagement_score server = d0
  ∧ SFeqb (engagement_score server) (formula server) = true.
Proof. repeat split; vm_compute; reflexivity. Qed.

(** X30.  Whatever the sample, and also when the fetch fails, the score
    that either calculator returns is 0.7 times its average of upvotes plus
    0.3 times its average of comments, as doubles and bit for bit; the two
    are equal as [==] has it exactly when the score is not NaN.  It is not
    NaN on a sample, not empty, of posts whose scores and numbers of
    comments are not negative, and it is 0 when the server-side calculator
    has no post. *)
Theorem engagement_score_formula fetched e :
  e = Server.calculateEngagement fetched
  ∨ e = Client.calculateEngagement fetched →
  let formula := dadd (dmul d07 (avg_upvotes e)) (dmul d03 (avg_comments e)) in
  engagement_score e = formula
  ∧ (SFeqb (engagement_score e) formula = true ↔
     engagement_score e ≠ S754_nan)
  ∧ (∀ posts, fetched = Some posts → posts ≠ [] →
       (Z.of_nat (length posts) < 2 ^ 53)%Z →
       Forall (λ p, (0 <= score p)%Z ∧ (0 <= num_comments p)%Z) posts →
       non_negative (engagement_score e)
       ∧ SFeqb (engagement_score e) formula = true)
  ∧ (e = Server.calculateEngagement fetched → default [] fetched = [] →
     engagement_score e = d0).
Proof.
  intros He formula.
  assert (Hf : engagement_score e = formula).
  { subst formula. destruct He as [-> | ->].
    - unfold Server.calculateEngagement. cbv zeta.
      cbn [engagement_score avg_upvotes avg_comments].
      by rewrite (dmul_comm d07), (dmul_comm d03).
    - destruct fetched as [posts|]; unfold Client.calculateEngagement;
        cbv zeta; cbn [engagement_score avg_upvotes avg_comments];
        [|reflexivity].
      by rewrite (dmul_comm d07), (dmul_comm d03). }
  split; [done|]. split; [|split].
  - rewrite <- Hf. apply SFeqb_refl.
  - intros posts -> Hne Hlen Hposts.
    assert (Hsign : non_negative (engagement_score e)).
    { rewrite Hf. subst formula.
      assert (Hlen' : ∀ f : post → Z,
                (0 <? length (List.map f posts))%nat = true)
        by (intros f; destruct posts; [done | reflexivity]).
      assert (Hmean : ∀ f : post → Z,
                Forall (λ p, (0 <= f p)%Z) posts →
                non_negative
                  (ddiv (dsum (List.map f posts))
                        (of_int (Z.of_nat (length (List.map f posts)))))).
      { intros f Hpos. apply mean_sign.
        - by destruct posts.
        - by rewrite length_map.
        - by apply Forall_fmap. }
      assert (Hu : non_negative (avg_upvotes e)
                   ∧ non_negative (avg_comments e)).
      { destruct He as [-> | ->];
          unfold Server.calculateEngagement, Client.calculateEngagement;
          cbv zeta; cbn [avg_upvotes avg_comments default from_option id];
          rewrite ?Hlen';
          (split; apply Hmean; eapply Forall_impl; try exact Hposts;
           by intros p [? ?]). }
      destruct Hu. by apply score_sign. }
    split; [done|]. rewrite <- Hf. apply SFeqb_refl.
    intros E. by rewrite E in Hsign.
  - intros -> Hempty. unfold Server.calculateEngagement. rewrite Hempty.
    vm_compute. reflexivity.
Qed.

Lemma engagement_score_formula_witness :
  let e := Server.calculateEngagement (Some sample3) in
  avg_upvotes e = of_int 20 ∧ avg_comments e = of_int 4
  ∧ engagement_score e = ddiv (of_int 152) (of_int 10).
Proof.
  intros e.
  destruct (engagement_score_formula (Some sample3) e (or_introl eq_refl))
    as [H _].
  assert (Hu : avg_upvotes e = of_int 20) by (vm_compute; reflexivity).
  assert (Hc : avg_comments e = of_int 4) by (vm_compute; reflexivity).
  rewrite Hu, Hc in H.
  exact (conj Hu (conj Hc H)).
Defined.

(** ** The niche-tag inferencer *)

Lemma starts_with_prefix kw : ∀ text,
  starts_with kw text = true ↔ ∃ after, text = kw ++ after.
Proof.
  induction kw as [|a kw IH]; intros text; simpl.
  - split; [by exists text | done].
  - destruct text as [|b text].
    + split; [done | by intros [after ?]].
    + rewrite andb_true_iff, N.eqb_eq, IH. split.
      * intros [-> [after ->]]. by exists after.
      * intros [after [= -> ->]]. split; [done | by exists after].
Qed.

(** [includes] is plain containment: the keyword occurs somewhere in the
    text, whatever surrounds it. *)
Lemma includes_substring text kw :
  includes text kw = true ↔ ∃ before after, text = before ++ kw ++ after.
Proof.
  induction text as [|b text IH]; simpl.
  - rewrite orb_false_r, starts_with_prefix. split.
    + intros [after ->]. by exists [], after.
    + intros (before & after & H). destruct before; [by exists after|done].
  - rewrite orb_true_iff, starts_with_prefix, IH. split.
    + intros [[after ->] | (before & after & ->)].
      * by exists [], after.
      * by exists (b :: before), after.
    + intros (before & after & H). destruct before as [|b' before].
      * left. by exists after.
      * right. injection H as -> ->. by exists before, after.
Qed.

Lemma collect_tags (Q : list jsstring → bool)
    (l : list (jsstring * list jsstring)) : ∀ acc,
  fold_left (λ tags '(tag, keywords),
               if Q keywords then tags ++ [tag] else tags) l acc
  = acc ++ List.map fst (List.filter (λ entry, Q (snd entry)) l).
Proof.
  induction l as [|[tag kws] l IH]; intros acc; simpl.
  - by rewrite app_nil_r.
  - rewrite IH. destruct (Q kws); [|done].
    simpl. by rewrite <- app_assoc.
Qed.

Lemma nicheKeywords_functional tag kws kws' :
  (tag, kws) ∈ nicheKeywords → (tag, kws') ∈ nicheKeywords → kws = kws'.
Proof.
  intros H H'. apply list_elem_of_In in H, H'.
  vm_compute in H, H'.
  repeat (destruct H as [H | H]; [injection H as <- <-|]); [..|done];
    repeat (destruct H' as [H' | H']; [by simplify_eq|]); done.
Qed.

Lemma general_is_no_keyword_tag kws : (js "general", kws) ∉ nicheKeywords.
Proof.
  intros H. unfold nicheKeywords in H.
  repeat (apply elem_of_cons in H as [H | H]; [discriminate H|]).
  by apply elem_of_nil in H.
Qed.

(** The tags before the fallback: those of the entries one of whose
    keywords the text includes, in the order of the table. *)
Lemma inferNicheTags_filter lowerCase sub :
  inferNicheTags lowerCase sub =
  match List.map fst
          (List.filter
             (λ entry, existsb (λ kw, includes (nicheText lowerCase sub) kw)
                               (snd entry))
             nicheKeywords) with
  | [] => [js "general"]
  | tags => tags
  end.
Proof.
  unfold inferNicheTags. cbv zeta.
  rewrite (collect_tags
    (λ keywords, existsb (λ kw, includes (nicheText lowerCase sub) kw)
                         keywords)).
  cbn [app]. by destruct (List.map fst _).
Qed.

(** C7.  With [text] the lower-cased display name and description, a tag of
    the table is in the result exactly when one of its keywords occurs in
    [text] as a plain substring; the result is never empty; and when no
    keyword of any tag occurs in [text] the result is exactly
    ["general"]. *)
Theorem niche_tags_by_substring (lowerCase : jsstring → jsstring)
    (sub : subredditInfo) :
  let text := nicheText lowerCase sub in
  let tags := inferNicheTags lowerCase sub in
  (∀ tag keywords, (tag, keywords) ∈ nicheKeywords →
     (tag ∈ tags ↔
      ∃ kw before after, kw ∈ keywords ∧ text = before ++ kw ++ after))
  ∧ tags ≠ []
  ∧ ((∀ tag keywords kw before after,
        (tag, keywords) ∈ nicheKeywords → kw ∈ keywords →
        text ≠ before ++ kw ++ after) →
     tags = [js "general"]).
Proof.
  intros text tags. subst tags. rewrite inferNicheTags_filter. fold text.
  set (P := λ entry : jsstring * list jsstring,
              existsb (λ kw, includes text kw) (snd entry)).
  assert (HP : ∀ tag keywords,
           P (tag, keywords) = true ↔
           ∃ kw before after, kw ∈ keywords ∧ text = before ++ kw ++ after).
  { intros tag keywords. unfold P. simpl. rewrite existsb_exists. split.
    - intros (kw & Hin & Hinc). apply includes_substring in Hinc
        as (before & after & ->).
      exists kw, before, after. split; [by apply list_elem_of_In | done].
    - intros (kw & before & after & Hin & Htext). exists kw.
      split; [by apply list_elem_of_In|].
      apply includes_substring. by exists before, after. }
  assert (Hin : ∀ tag, tag ∈ List.map fst (List.filter P nicheKeywords) ↔
                  ∃ keywords, (tag, keywords) ∈ nicheKeywords
                              ∧ P (tag, keywords) = true).
  { intros tag. rewrite list_elem_of_In, in_map_iff. split.
    - intros ([tag' kws] & <- & Hf). apply filter_In in Hf as [Hf HPf].
      exists kws. split; [by apply list_elem_of_In | done].
    - intros (kws & Hk & HPk). exists (tag, kws). split; [done|].
      apply filter_In. split; [by apply list_elem_of_In | done]. }
  repeat split.
  - intros Htag. apply (HP tag keywords).
    destruct (List.map fst (List.filter P nicheKeywords)) as [|t ts] eqn:E.
    + apply list_elem_of_singleton in Htag as ->.
      by apply general_is_no_keyword_tag in H.
    + apply Hin in Htag as (kws & Hk & HPk).
      by rewrite (nicheKeywords_functional _ _ _ H Hk).
  - intros Hkw. apply (HP tag keywords) in Hkw.
    assert (Htag : tag ∈ List.map fst (List.filter P nicheKeywords))
      by (apply Hin; by exists keywords).
    destruct (List.map fst (List.filter P nicheKeywords));
      [by apply elem_of_nil in Htag | done].
  - by destruct (List.map fst (List.filter P nicheKeywords)).
  - intros Hnone.
    destruct (List.map fst (List.filter P nicheKeywords)) as [|t ts] eqn:E;
      [done|].
    assert (Ht : t ∈ t :: ts) by left.
    apply Hin in Ht as (kws & Hk & HPk).
    apply (HP t kws) in HPk as (kw & before & after & Hkw & Htext).
    by destruct (Hnone t kws kw before after).
Qed.

Lemma niche_tags_by_substring_witness :
  let sub := {| display_name := VStr (js "r/TinyFeetLovers");
                public_description := VUndefined |} in
  js "feet" ∈ inferNicheTags toLowerCase sub
  ∧ js "petite" ∈ inferNicheTags toLowerCase sub.
Proof.
  intros sub.
  destruct (niche_tags_by_substring toLowerCase sub) as (H & _ & _).
  split.
  - apply (H (js "feet") [js "feet"; js "foot"; js "toes"; js "soles"]).
    + apply list_elem_of_In. vm_compute. tauto.
    + exists (js "feet"), (js "r/tiny"), (js "lovers ").
      split; [left | vm_compute; reflexivity].
  - apply (H (js "petite") [js "petite"; js "tiny"; js "small"]).
    + apply list_elem_of_In. vm_compute. tauto.
    + exists (js "tiny"), (js "r/"), (js "feetlovers ").
      split; [right; left | vm_compute; reflexivity].
Defined.

(** ** Objects filled by pushing under a key *)

Section Grouping.
Context {A B : Type} (f : A → jsstring) (g : A → B).

Lemma obj_get_push_eq k x (o : list (jsstring * list B)) :
  obj_get k (obj_push k x o) = Some (default [] (obj_get k o) ++ [x]).
Proof.
  induction o as [|[k' xs] o IH]; cbn [obj_get obj_push].
  - by rewrite decide_True.
  - destruct (decide (k' = k)) as [->|Hne]; cbn [obj_get].
    + by rewrite decide_True.
    + by rewrite decide_False.
Qed.

Lemma obj_get_push_ne k k' x (o : list (jsstring * list B)) :
  k ≠ k' → obj_get k' (obj_push k x o) = obj_get k' o.
Proof.
  intros Hne. induction o as [|[k0 xs] o IH]; cbn [obj_get obj_push].
  - by rewrite decide_False.
  - destruct (decide (k0 = k)) as [->|]; cbn [obj_get].
    + by rewrite !decide_False.
    + by destruct (decide (k0 = k')).
Qed.

Lemma obj_get_None k (o : list (jsstring * list B)) :
  obj_get k o = None ↔ k ∉ List.map fst o.
Proof.
  induction o as [|[k0 xs] o IH]; cbn [obj_get List.map fst].
  - split; [intros _; apply not_elem_of_nil | done].
  - rewrite not_elem_of_cons. destruct (decide (k0 = k)) as [->|].
    + split; [done | by intros [? _]].
    + rewrite IH. split; [by split | by intros [_ ?]].
Qed.

Lemma obj_push_keys k x (o : list (jsstring * list B)) :
  List.map fst (obj_push k x o) =
  if decide (k ∈ List.map fst o) then List.map fst o
  else List.map fst o ++ [k].
Proof.
  induction o as [|[k0 xs] o IH]; cbn [obj_push List.map fst].
  - rewrite decide_False; [done | apply not_elem_of_nil].
  - destruct (decide (k0 = k)) as [->|Hne]; cbn [List.map fst app].
    + rewrite decide_True; [done | left].
    + rewrite IH. destruct (decide (k ∈ List.map fst o)) as [Hin|Hin].
      * rewrite decide_True; [done | by right].
      * rewrite decide_False; [done|].
        rewrite not_elem_of_cons. split; [congruence | done].
Qed.

Lemma obj_push_NoDup k x (o : list (jsstring * list B)) :
  NoDup (List.map fst o) → NoDup (List.map fst (obj_push k x o)).
Proof.
  intros Hnd. rewrite obj_push_keys.
  destruct (decide (k ∈ List.map fst o)); [done|].
  apply NoDup_app. split; [done|]. split.
  - intros y Hy Hy'. apply list_elem_of_singleton in Hy' as ->. done.
  - apply NoDup_singleton.
Qed.

Lemma obj_get_elem k xs (o : list (jsstring * list B)) :
  NoDup (List.map fst o) → ((k, xs) ∈ o ↔ obj_get k o = Some xs).
Proof.
  induction o as [|[k0 ys] o IH]; cbn [obj_get List.map fst]; intros Hnd.
  - split; [by intros ?%elem_of_nil | done].
  - apply NoDup_cons in Hnd as [Hk0 Hnd]. rewrite elem_of_cons.
    destruct (decide (k0 = k)) as [->|Hne].
    + split.
      * intros [[= ->] | Hin]; [done|].
        destruct Hk0. apply list_elem_of_fmap. by exists (k, xs).
      * intros [= ->]. by left.
    + rewrite <- (IH Hnd). split; [|by right].
      intros [[= -> ->] | Hin]; done.
Qed.

Lemma grouped_snoc l a :
  grouped f g (l ++ [a]) = obj_push (f a) (g a) (grouped f g l).
Proof. unfold grouped. by rewrite fold_left_app. Qed.

Lemma grouped_NoDup l : NoDup (List.map fst (grouped f g l)).
Proof.
  induction l as [|a l IH] using rev_ind.
  - apply NoDup_nil_2.
  - rewrite grouped_snoc. by apply obj_push_NoDup.
Qed.

(** Under each key are the values of the elements with that key, in
    order; a key with no element is absent. *)
Lemma grouped_get l k :
  obj_get k (grouped f g l) =
  match g <$> filter (λ a, f a = k) l with
  | [] => None
  | xs => Some xs
  end.
Proof.
  induction l as [|a l IH] using rev_ind; [done|].
  rewrite grouped_snoc, filter_app, fmap_app, filter_cons, filter_nil.
  destruct (decide (f a = k)) as [<-|Hne].
  - rewrite obj_get_push_eq, IH.
    by destruct (g <$> filter (λ a0, f a0 = f a) l).
  - rewrite obj_get_push_ne, IH by done. simpl. by rewrite app_nil_r.
Qed.

Lemma grouped_elem l k xs :
  (k, xs) ∈ grouped f g l ↔
  xs ≠ [] ∧ xs = g <$> filter (λ a, f a = k) l.
Proof.
  rewrite (obj_get_elem _ _ _ (grouped_NoDup l)), grouped_get.
  destruct (g <$> filter (λ a, f a = k) l) as [|y ys].
  - split; [done | by intros [? ->]].
  - split; [by intros [= <-] | by intros [_ ->]].
Qed.

Lemma grouped_key l k :
  k ∈ (grouped f g l).*1 ↔ ∃ a, a ∈ l ∧ f a = k.
Proof.
  destruct (decide (k ∈ (grouped f g l).*1)) as [Hin|Hin].
  - split; [intros _ | done].
    apply list_elem_of_fmap in Hin as ([k' xs] & -> & Hin).
    apply grouped_elem in Hin as [Hne ->].
    destruct (filter (λ a, f a = k') l) as [|a ?] eqn:E; [done|].
    assert (Ha : a ∈ filter (λ a, f a = k') l) by (rewrite E; left).
    apply list_elem_of_filter in Ha as [Hk Ha]. by exists a.
  - split; [done|]. intros (a & Ha & Hk). destruct Hin.
    pose proof (grouped_get l k) as Hget.
    destruct (g <$> filter (λ a, f a = k) l) as [|x xs] eqn:E.
    + apply fmap_nil_inv in E.
      assert (a ∈ filter (λ a, f a = k) l)
        by (by apply list_elem_of_filter).
      rewrite E in H. by apply elem_of_nil in H.
    + apply (obj_get_elem _ _ _ (grouped_NoDup l)) in Hget.
      apply list_elem_of_fmap. by exists (k, x :: xs).
Qed.
End Grouping.

(** ** Time keys *)

Lemma key_table :
  forallb (λ d, forallb (λ h, key_decodes d (N.of_nat h)) (seq 0 24)) (seq 0 7)
  = true.
Proof. vm_compute. reflexivity. Qed.

Lemma key_decode d h :
  (d < 7)%nat → h < 24 →
  split_on 95 (mkKey d h) = [default [] (dayNames !! d); digits_of h]
  ∧ parseInt (VStr (digits_of h)) = VNum h.
Proof.
  intros Hd Hh. pose proof key_table as H.
  rewrite forallb_forall in H. specialize (H d).
  rewrite forallb_forall in H.
  specialize (H ltac:(apply in_seq; lia) (N.to_nat h) ltac:(apply in_seq; lia)).
  rewrite N2Nat.id in H. unfold key_decodes in H.
  apply andb_true_iff in H as [H1 H2].
  split; [by apply bool_decide_eq_true in H1|].
  destruct (parseInt (VStr (digits_of h))); try done.
  by apply N.eqb_eq in H2 as ->.
Qed.

Lemma undated_decode :
  split_on 95 undatedKey = [js "undefined"; js "NaN"]
  ∧ parseInt (VStr (js "NaN")) = VNaN.
Proof. split; vm_compute; reflexivity. Qed.

Lemma getDay_lt LocalTZA t d : getDay LocalTZA t = Some d → (d < 7)%nat.
Proof.
  unfold getDay. destruct (timeValue t) as [tv|]; [|done]. intros [= <-].
  pose proof (Z.mod_pos_bound (localTime LocalTZA tv / 86400000 + 4) 7) as H.
  lia.
Qed.

Lemma getHours_lt LocalTZA t h : getHours LocalTZA t = Some h → h < 24.
Proof.
  unfold getHours. destruct (timeValue t) as [tv|]; [|done]. intros [= <-].
  pose proof (Z.mod_pos_bound (localTime LocalTZA tv / 3600000) 24) as H.
  lia.
Qed.

(** A date has a day and an hour, or neither. *)
Lemma postTime_None LocalTZA p :
  postTime LocalTZA p = None ↔ timeValue (created_utc p) = None.
Proof.
  unfold postTime, getDay, getHours.
  by destruct (timeValue (created_utc p)).
Qed.

Lemma postTime_Some LocalTZA p d h :
  postTime LocalTZA p = Some (d, h) ↔
  getDay LocalTZA (created_utc p) = Some d
  ∧ getHours LocalTZA (created_utc p) = Some h.
Proof.
  unfold postTime, getDay, getHours.
  destruct (timeValue (created_utc p)); cbn [fmap option_fmap option_map].
  - split; [by intros [= <- <-] | by intros [[= <-] [= <-]]].
  - split; [done | by intros [? _]].
Qed.

Lemma postTime_valid LocalTZA p : valid_slot (postTime LocalTZA p).
Proof.
  destruct (postTime LocalTZA p) as [[d h]|] eqn:E; [|done].
  apply postTime_Some in E as [Hd Hh].
  split; [by apply getDay_lt in Hd | by apply getHours_lt in Hh].
Qed.

Lemma timeKey_slotKey LocalTZA p :
  timeKey LocalTZA p = slotKey (postTime LocalTZA p).
Proof.
  unfold timeKey, dayOfDate, postTime, getDay, getHours.
  by destruct (timeValue (created_utc p)).
Qed.

Lemma getDay_postTime LocalTZA p d :
  getDay LocalTZA (created_utc p) = Some d ↔
  ∃ h, postTime LocalTZA p = Some (d, h).
Proof.
  split.
  - intros Hd. unfold postTime. rewrite Hd.
    revert Hd. unfold getDay, getHours.
    destruct (timeValue (created_utc p)); [|done]. intros _. by eexists.
  - intros [h H]. by apply postTime_Some in H as [? _].
Qed.

Lemma dayNames_inj d d' day :
  dayNames !! d = Some day → dayNames !! d' = Some day → d = d'.
Proof.
  intros H H'. apply (NoDup_lookup dayNames d d' day); [|done..].
  apply (bool_decide_unpack _). vm_compute. exact I.
Qed.

Lemma undefined_is_no_day : js "undefined" ∉ dayNames.
Proof. apply (bool_decide_unpack _). vm_compute. exact I. Qed.

Lemma mkKey_inj d h d' h' :
  (d < 7)%nat → h < 24 → (d' < 7)%nat → h' < 24 →
  mkKey d h = mkKey d' h' → d = d' ∧ h = h'.
Proof.
  intros Hd Hh Hd' Hh' Hk.
  destruct (key_decode d h Hd Hh) as [Hs Hp].
  destruct (key_decode d' h' Hd' Hh') as [Hs' Hp'].
  rewrite Hk, Hs' in Hs. injection Hs as Hname Hdig.
  split.
  - destruct (lookup_lt_is_Some_2 dayNames d) as [day Hday]; [simpl; lia|].
    destruct (lookup_lt_is_Some_2 dayNames d') as [day' Hday']; [simpl; lia|].
    rewrite Hday, Hday' in Hname. simpl in Hname. subst day'.
    by apply (dayNames_inj d d' day).
  - rewrite <- Hdig in Hp. rewrite Hp' in Hp. by injection Hp.
Qed.

Lemma mkKey_undated d h : (d < 7)%nat → h < 24 → mkKey d h ≠ undatedKey.
Proof.
  intros Hd Hh Hk.
  destruct (key_decode d h Hd Hh) as [Hs _].
  destruct undated_decode as [Hu _].
  rewrite Hk, Hu in Hs. injection Hs as Hname _.
  destruct (lookup_lt_is_Some_2 dayNames d) as [day Hday]; [simpl; lia|].
  rewrite Hday in Hname. simpl in Hname. subst day.
  apply undefined_is_no_day. by apply list_elem_of_lookup_2 in Hday.
Qed.

Lemma slotKey_inj w w' :
  valid_slot w → valid_slot w' → slotKey w = slotKey w' → w = w'.
Proof.
  destruct w as [[d h]|], w' as [[d' h']|]; cbn [valid_slot slotKey];
    intros Hw Hw' Hk; try done.
  - destruct Hw, Hw'. by destruct (mkKey_inj d h d' h') as [-> ->].
  - destruct Hw. by apply mkKey_undated in Hk.
  - destruct Hw'. symmetry in Hk. by apply mkKey_undated in Hk.
Qed.

(** The day of a slot is a day name for a dated slot, and no day name for
    the undated one. *)
Lemma slotDay_day w d day :
  valid_slot w → dayNames !! d = Some day →
  slotDay w = day ↔ ∃ h, w = Some (d, h).
Proof.
  intros Hw Hday. destruct w as [[d' h]|]; cbn [valid_slot slotDay] in *.
  - destruct Hw as [Hd' _].
    destruct (lookup_lt_is_Some_2 dayNames d') as [day' Hday']; [simpl; lia|].
    rewrite Hday'. cbn [default from_option id]. split.
    + intros ->. rewrite (dayNames_inj d' d day Hday' Hday). by exists h.
    + intros (h' & [= -> ->]). congruence.
  - split.
    + intros <-. exfalso. apply undefined_is_no_day.
      by apply list_elem_of_lookup_2 in Hday.
    + by intros [? ?].
Qed.

Lemma slotDay_undefined w :
  valid_slot w → slotDay w = js "undefined" ↔ w = None.
Proof.
  intros Hw. destruct w as [[d h]|]; cbn [valid_slot slotDay] in *; [|done].
  destruct Hw as [Hd _].
  destruct (lookup_lt_is_Some_2 dayNames d) as [day Hday]; [simpl; lia|].
  rewrite Hday. cbn [default from_option id]. split; [|done].
  intros ->. exfalso. apply undefined_is_no_day.
  by apply list_elem_of_lookup_2 in Hday.
Qed.

(** Two slots of one day with the same hour are the same slot. *)
Lemma slotHour_inj w w' :
  valid_slot w → valid_slot w' →
  slotDay w = slotDay w' → slotHour w = slotHour w' → w = w'.
Proof.
  intros Hw Hw' Hday Hhour.
  destruct w as [[d h]|].
  - destruct Hw as [Hd _].
    destruct (lookup_lt_is_Some_2 dayNames d) as [day Hd']; [simpl; lia|].
    assert (Hs : slotDay w' = day)
      by (rewrite <- Hday; cbn [slotDay]; by rewrite Hd').
    apply (slotDay_day w' d day Hw' Hd') in Hs as [h' ->].
    cbn [slotHour] in Hhour. by injection Hhour as ->.
  - symmetry in Hday. by apply slotDay_undefined in Hday.
Qed.

(** ** The best-posting-time analyzer *)

Lemma scores_when_dated LocalTZA posts d h :
  scores_when LocalTZA posts (Some (d, h)) = scores_at LocalTZA posts d h.
Proof.
  unfold scores_when, scores_at. f_equal. apply list_filter_iff.
  intros p. apply postTime_Some.
Qed.

Lemma scores_when_undated LocalTZA posts :
  scores_when LocalTZA posts None = score <$> undated posts.
Proof.
  unfold scores_when, undated. f_equal. apply list_filter_iff.
  intros p. apply postTime_None.
Qed.

Lemma entry_decode w vs :
  valid_slot w →
  entry_day (slotKey w, vs) = slotDay w
  ∧ entry_slot (slotKey w, vs) =
    {| hour := slotHour w; slot_score := mean_score vs |}.
Proof.
  intros Hw. unfold entry_day, entry_slot. cbn [fst snd].
  destruct w as [[d h]|]; cbn [valid_slot slotKey slotDay slotHour] in *.
  - destruct Hw as [Hd Hh].
    destruct (key_decode d h Hd Hh) as [Hs Hp].
    destruct (lookup_lt_is_Some_2 dayNames d) as [day Hday]; [simpl; lia|].
    rewrite Hs, Hday. cbn [lookup list_lookup from_option default id ToString].
    by rewrite Hp.
  - destruct undated_decode as [Hs Hp]. rewrite Hs.
    cbn [lookup list_lookup from_option default id ToString].
    by rewrite Hp.
Qed.

Lemma bestHoursPerDay_grouped perf :
  bestHoursPerDay perf = grouped entry_day entry_slot perf.
Proof.
  unfold bestHoursPerDay, grouped. generalize (@nil (jsstring * list slot)).
  induction perf as [|[k vs] perf IH]; intros acc; simpl; [done|].
  apply IH.
Qed.

Section BestTimes.
Variable LocalTZA : Z → Z.

Lemma filter_timeKey (posts : list post) w :
  valid_slot w →
  filter (λ p, timeKey LocalTZA p = slotKey w) posts =
  filter (λ p, postTime LocalTZA p = w) posts.
Proof.
  intros Hw. apply list_filter_iff. intros p.
  rewrite timeKey_slotKey. split.
  - apply slotKey_inj; [apply postTime_valid | done].
  - by intros ->.
Qed.

(** The entries of [performanceByTime]: one per slot in which a post
    falls, with the scores of those posts. *)
Lemma performance_entry (posts : list post) k vs :
  (k, vs) ∈ performanceByTime LocalTZA posts ↔
  ∃ w, valid_slot w ∧ k = slotKey w
       ∧ vs = scores_when LocalTZA posts w ∧ vs ≠ [].
Proof.
  change (performanceByTime LocalTZA posts)
    with (grouped (timeKey LocalTZA) score posts).
  rewrite grouped_elem. split.
  - intros [Hne ->].
    destruct (filter (λ p, timeKey LocalTZA p = k) posts) as [|p ps] eqn:E;
      [done|].
    assert (Hp : p ∈ filter (λ p, timeKey LocalTZA p = k) posts)
      by (rewrite E; left).
    apply list_elem_of_filter in Hp as [Hk _].
    exists (postTime LocalTZA p).
    split; [apply postTime_valid|].
    split; [by rewrite <- Hk, timeKey_slotKey|].
    split; [|by rewrite <- E in Hne].
    unfold scores_when. rewrite <- filter_timeKey by apply postTime_valid.
    by rewrite <- timeKey_slotKey, Hk, E.
  - intros (w & Hw & -> & -> & Hne).
    split; [done|]. unfold scores_when. by rewrite filter_timeKey.
Qed.

Lemma performance_NoDup (posts : list post) :
  NoDup ((performanceByTime LocalTZA posts).*1).
Proof. apply (grouped_NoDup (timeKey LocalTZA) score). Qed.

Lemma scores_when_nonempty (posts : list post) w :
  scores_when LocalTZA posts w ≠ [] ↔
  ∃ p, p ∈ posts ∧ postTime LocalTZA p = w.
Proof.
  unfold scores_when. split.
  - destruct (filter _ posts) as [|p ps] eqn:E; [done|]. intros _.
    assert (Hp : p ∈ filter (λ p, postTime LocalTZA p = w) posts)
      by (rewrite E; left).
    apply list_elem_of_filter in Hp as [? ?]. by exists p.
  - intros (p & Hp & Hw) E. apply fmap_nil_inv in E.
    assert (Hin : p ∈ filter (λ p, postTime LocalTZA p = w) posts)
      by (by apply list_elem_of_filter).
    rewrite E in Hin. by apply elem_of_nil in Hin.
Qed.

(** The entries of [performanceByTime] that the second loop files under
    [day]. *)
Lemma day_entries (posts : list post) day e :
  e ∈ filter (λ e, entry_day e = day) (performanceByTime LocalTZA posts) ↔
  ∃ w, valid_slot w ∧ slotDay w = day
       ∧ scores_when LocalTZA posts w ≠ []
       ∧ e = (slotKey w, scores_when LocalTZA posts w).
Proof.
  rewrite list_elem_of_filter. destruct e as [k vs]. split.
  - intros [He Hin].
    apply performance_entry in Hin as (w & Hw & -> & -> & Hne).
    destruct (entry_decode w (scores_when LocalTZA posts w) Hw) as [Hed _].
    rewrite Hed in He. by exists w.
  - intros (w & Hw & Hday & Hne & [= -> ->]). split.
    + by destruct (entry_decode w (scores_when LocalTZA posts w) Hw) as [-> _].
    + apply performance_entry. by exists w.
Qed.

(** The keys of the second loop's object. *)
Lemma day_keys (posts : list post) day :
  day ∈ (bestHoursPerDay (performanceByTime LocalTZA posts)).*1 ↔
  ∃ w, valid_slot w ∧ slotDay w = day ∧ scores_when LocalTZA posts w ≠ [].
Proof.
  rewrite bestHoursPerDay_grouped, grouped_key. split.
  - intros ([k vs] & Hin & Hday).
    apply performance_entry in Hin as (w & Hw & -> & -> & Hne).
    destruct (entry_decode w (scores_when LocalTZA posts w) Hw) as [Hed _].
    rewrite Hed in Hday. by exists w.
  - intros (w & Hw & Hday & Hne).
    exists (slotKey w, scores_when LocalTZA posts w). split.
    + apply performance_entry. by exists w.
    + by destruct (entry_decode w (scores_when LocalTZA posts w) Hw) as [-> _].
Qed.

(** The slots of a day before ranking: one per slot of that day in which
    a post falls, with the mean score of those posts as the code computes
    it. *)
Lemma day_slots (posts : list post) day slots :
  (day, slots) ∈ bestHoursPerDay (performanceByTime LocalTZA posts) →
  slots ≠ []
  ∧ NoDup (hour <$> slots)
  ∧ ∀ s, s ∈ slots ↔
         ∃ w, valid_slot w ∧ slotDay w = day
              ∧ scores_when LocalTZA posts w ≠ []
              ∧ s = {| hour := slotHour w;
                       slot_score :=
                         mean_score (scores_when LocalTZA posts w) |}.
Proof.
  rewrite bestHoursPerDay_grouped, grouped_elem.
  intros [Hne ->]. split; [done|].
  assert (Hslot : ∀ w, valid_slot w →
            entry_slot (slotKey w, scores_when LocalTZA posts w) =
            {| hour := slotHour w;
               slot_score := mean_score (scores_when LocalTZA posts w) |}).
  { intros w Hw.
    by destruct (entry_decode w (scores_when LocalTZA posts w) Hw)
      as [_ ->]. }
  split.
  - rewrite <- list_fmap_compose. apply NoDup_fmap_2_strong.
    + intros e e' He He' Heq.
      apply (day_entries posts day) in He as (w & Hw & Hd & Hsc & ->).
      apply (day_entries posts day) in He' as (w' & Hw' & Hd' & Hsc' & ->).
      cbn [compose] in Heq. rewrite !Hslot in Heq by done.
      cbn [hour] in Heq.
      by rewrite (slotHour_inj w w' Hw Hw' ltac:(congruence) Heq).
    + apply NoDup_filter, (NoDup_fmap_1 fst), performance_NoDup.
  - intros s. rewrite list_elem_of_fmap. split.
    + intros (e & -> & He).
      apply (day_entries posts day) in He as (w & Hw & Hd & Hsc & ->).
      exists w. by rewrite Hslot.
    + intros (w & Hw & Hd & Hsc & ->).
      exists (slotKey w, scores_when LocalTZA posts w).
      split; [by rewrite Hslot|].
      apply (day_entries posts day). by exists w.
Qed.
(** A list without repetition whose elements are all the same has one
    element at most. *)
Lemma NoDup_constant {A} (x : A) l :
  NoDup l → (∀ y, y ∈ l → y = x) → l ≠ [] → l = [x].
Proof.
  intros Hnd Hall Hne. destruct l as [|a [|b l]]; [done| |].
  - f_equal. apply Hall. left.
  - apply NoDup_cons in Hnd as [Hnot _]. exfalso. apply Hnot.
    rewrite (Hall a) by left. rewrite (Hall b) by (right; left). left.
Qed.

(** What the second loop files under a key: under "undefined" the one
    slot of the posts without a valid date, with hour NaN; under a day name
    one slot per hour of that day on which a post falls. *)
Lemma day_cases (posts : list post) day slots :
  (day, slots) ∈ bestHoursPerDay (performanceByTime LocalTZA posts) →
  (day = js "undefined"
   ∧ slots = [ {| hour := VNaN;
                  slot_score := mean_score (score <$> undated posts) |} ])
  ∨ ∃ d, dayNames !! d = Some day
         ∧ slots ≠ []
         ∧ NoDup (hour <$> slots)
         ∧ ∀ s, s ∈ slots ↔
                ∃ h, h < 24 ∧ scores_at LocalTZA posts d h ≠ []
                     ∧ s = {| hour := VNum h;
                              slot_score :=
                                mean_score (scores_at LocalTZA posts d h) |}.
Proof.
  intros Hin.
  assert (Hday : day ∈ (bestHoursPerDay (performanceByTime LocalTZA posts)).*1)
    by (apply list_elem_of_fmap; by exists (day, slots)).
  apply day_keys in Hday as (w0 & Hw0 & Hday & _).
  destruct (day_slots posts day slots Hin) as (Hne & Hnd & Hslots).
  destruct w0 as [[d h0]|].
  - right. destruct Hw0 as [Hd _].
    destruct (lookup_lt_is_Some_2 dayNames d) as [day' Hd']; [simpl; lia|].
    assert (day' = day) as ->
      by (rewrite <- Hday; cbn [slotDay]; by rewrite Hd').
    exists d. split; [done|]. split; [done|]. split; [done|].
    intros s. rewrite Hslots. split.
    + intros (w & Hw & Hwd & Hsc & ->).
      apply (slotDay_day w d day Hw Hd') in Hwd as [h ->].
      rewrite scores_when_dated in *. exists h. by destruct Hw.
    + intros (h & Hh & Hsc & ->). exists (Some (d, h)).
      rewrite scores_when_dated.
      split; [by split|]. split; [cbn [slotDay]; by rewrite Hd' | done].
  - left. cbn [slotDay] in Hday. subst day. split; [done|].
    apply NoDup_constant; [| |done].
    + by apply (NoDup_fmap_1 hour).
    + intros s Hs. apply Hslots in Hs as (w & Hw & Hwd & _ & ->).
      apply slotDay_undefined in Hwd as ->; [|done].
      by rewrite scores_when_undated.
Qed.
End BestTimes.

(** [a < b] is a strict order on the exact numbers, total on those that
    are not NaN. *)
Lemma num_lt_asym a b : num_lt a b → ¬ num_lt b a.
Proof.
  destruct a as [p| | |], b as [q| | |]; cbn [num_lt]; try tauto.
  intros H H'. apply (Qlt_irrefl p). by apply (Qlt_trans p q p).
Qed.

Lemma num_lt_cotrans a b c :
  b ≠ NaN → num_lt a c → num_lt a b ∨ num_lt b c.
Proof.
  destruct a as [p| | |], b as [q| | |], c as [r| | |]; cbn [num_lt];
    try tauto.
  intros _ H. destruct (Qlt_le_dec p q) as [|Hle]; [by left|].
  right. by apply (Qle_lt_trans q p r).
Qed.

Lemma exact_NaN d : exact d = NaN ↔ d = S754_nan.
Proof. by destruct d as [|[]| |]. Qed.

Lemma descending_positive (a b : slot) :
  low_bounded (slot_score a) → low_bounded (slot_score b) →
  slot_score a ≠ S754_nan → slot_score b ≠ S754_nan →
  is_positive (descending a b) = true ↔
  ranks_below (slot_score a) (slot_score b).
Proof. intros. unfold descending. by apply dsub_positive. Qed.

(** Sorting slots none of whose scores is NaN ranks them by score, highest
    first. *)
Lemma sort_descending_sorted (slots : list slot) :
  Forall (λ s, low_bounded (slot_score s) ∧ slot_score s ≠ S754_nan) slots →
  StronglySorted (λ a b, ¬ ranks_below (slot_score a) (slot_score b))
                 (js_sort descending slots).
Proof.
  intros Hfin.
  set (P := λ s, low_bounded (slot_score s) ∧ slot_score s ≠ S754_nan).
  assert (Hsorted : Forall P (js_sort descending slots))
    by (by rewrite js_sort_Permutation).
  rewrite <- (list_fmap_id (js_sort descending slots)).
  apply (StronglySorted_fmap_weaken (may_precede descending)).
  - rewrite Forall_forall in Hsorted.
    intros a b [Hla Hna]%Hsorted [Hlb Hnb]%Hsorted Hab.
    unfold may_precede in Hab. unfold id. intros Hlt.
    apply (descending_positive a b Hla Hlb Hna Hnb) in Hlt. congruence.
  - apply (js_sort_sorted descending P); unfold may_precede; [| |done].
    + intros a b [Hla Hna] [Hlb Hnb] Hab.
      apply (descending_positive a b Hla Hlb Hna Hnb) in Hab.
      apply not_true_is_false. intros Hba.
      apply (descending_positive b a Hlb Hla Hnb Hna) in Hba.
      by apply (num_lt_asym _ _ Hab).
    + intros a b c [Hla Hna] [Hlb Hnb] [Hlc Hnc] Hab Hbc.
      apply not_true_is_false. intros Hac.
      apply (descending_positive a c Hla Hlc Hna Hnc) in Hac.
      destruct (num_lt_cotrans _ (exact (slot_score b)) _
                  ltac:(by rewrite exact_NaN) Hac) as [Hlt|Hlt].
      * apply (descending_positive a b Hla Hlb Hna Hnb) in Hlt. congruence.
      * apply (descending_positive b c Hlb Hlc Hnb Hnc) in Hlt. congruence.
Qed.

Lemma mean_score_low xs : low_bounded (mean_score xs).
Proof. apply ddiv_low. Qed.

Lemma keepTop3_elem raw day hours :
  (day, hours) ∈ keepTop3 raw ↔
  ∃ slots, (day, slots) ∈ raw
           ∧ hours = hour <$> take 3 (js_sort descending slots).
Proof.
  unfold keepTop3. rewrite list_elem_of_In, in_map_iff. split.
  - intros ([day' slots] & [= -> <-] & Hin).
    exists slots. split; [by apply list_elem_of_In | done].
  - intros (slots & Hin & ->). exists (day, slots).
    split; [done | by apply list_elem_of_In].
Qed.

Lemma keepTop3_keys raw : (keepTop3 raw).*1 = raw.*1.
Proof.
  unfold keepTop3. induction raw as [|[day slots] raw IH]; [done|].
  simpl. by f_equal.
Qed.

Lemma analyze_both LocalTZA fetched best :
  best = Server.analyzeBestPostingTimes LocalTZA fetched
  ∨ best = Client.analyzeBestPostingTimes LocalTZA fetched →
  best = keepTop3 (bestHoursPerDay
                     (performanceByTime LocalTZA (default [] fetched))).
Proof. intros [-> | ->]; by destruct fetched. Qed.

(** C6 does not hold where two means differ by less than a double can
    tell.  Of three posts of one Thursday, one at 1h with score 2^53 and two
    at 2h with scores 2^53 and 2^53 + 2, the arithmetic mean is greater at
    2h (2^53 + 1 against 2^53); the sum at 2h rounds to 2^54, the two means
    are the same double, and both analyzers list 1h first. *)
Lemma equal_doubles_keep_their_order :
  let posts :=
    [ {| score := 9007199254740992; num_comments := 0; created_utc := 3600 |};
      {| score := 9007199254740992; num_comments := 0; created_utc := 7200 |};
      {| score := 9007199254740994; num_comments := 0; created_utc := 7200 |} ]
  in
  let UTC := λ _ : Z, 0%Z in
  (mean (scores_at UTC posts 4 1) < mean (scores_at UTC posts 4 2))%Q
  ∧ mean_score (scores_at UTC posts 4 1) = mean_score (scores_at UTC posts 4 2)
  ∧ Server.analyzeBestPostingTimes UTC (Some posts)
    = [(js "thursday", [VNum 1; VNum 2])]
  ∧ Client.analyzeBestPostingTimes UTC (Some posts)
    = [(js "thursday", [VNum 1; VNum 2])].
Proof. repeat split; vm_compute; reflexivity. Qed.

(** C6, as it holds of the code.  In the mapping of either analyzer the
    keys are distinct.  A key is a day name or "undefined"; the latter
    stands for the posts whose time stamp is no valid date, and maps to the
    single hour NaN.  A day name maps to at most 3 hours and to at least
    one: the first 3 of the day's hours on which a post falls, ranked by the
    mean of the scores of those posts as the code computes it in doubles,
    highest first when no such mean is NaN, as none is for a sample of
    scores that are not negative.  A day name is a key exactly
    when some post of the sample falls on that day, and "undefined" is one
    exactly when some post has no valid date. *)
Theorem best_posting_times_top3 (LocalTZA : Z → Z) (fetched : option (list post))
    (best : list (jsstring * list value)) :
  best = Server.analyzeBestPostingTimes LocalTZA fetched
  ∨ best = Client.analyzeBestPostingTimes LocalTZA fetched →
  let posts := default [] fetched in
  NoDup (best.*1)
  ∧ (∀ day hours, (day, hours) ∈ best →
       (day = js "undefined" ∧ hours = [VNaN])
       ∨ ∃ d ranked,
           dayNames !! d = Some day
           ∧ hours = (λ hm : N * double, VNum hm.1) <$> take 3 ranked
           ∧ (length hours ≤ 3)%nat ∧ hours ≠ []
           ∧ NoDup (ranked.*1)
           ∧ (∀ h m, (h, m) ∈ ranked ↔
                     scores_at LocalTZA posts d h ≠ []
                     ∧ m = mean_score (scores_at LocalTZA posts d h))
           ∧ (Forall (λ hm, hm.2 ≠ S754_nan) ranked →
              StronglySorted (λ a b, ¬ ranks_below a.2 b.2) ranked)
           ∧ (Forall (λ p, (0 <= score p)%Z) posts →
              (Z.of_nat (length posts) < 2 ^ 53)%Z →
              Forall (λ hm, non_negative hm.2) ranked
              ∧ StronglySorted (λ a b, ¬ ranks_below a.2 b.2) ranked))
  ∧ (∀ d day, dayNames !! d = Some day →
       (day ∈ best.*1 ↔
        ∃ p, p ∈ posts ∧ getDay LocalTZA (created_utc p) = Some d))
  ∧ (js "undefined" ∈ best.*1 ↔ undated posts ≠ []).
Proof.
  intros Hbest posts. apply analyze_both in Hbest. fold posts in Hbest.
  subst best. set (perf := performanceByTime LocalTZA posts).
  split; [|split; [|split]].
  - rewrite keepTop3_keys, bestHoursPerDay_grouped. apply grouped_NoDup.
  - intros day hours (slots & Hin & ->)%keepTop3_elem.
    set (sorted := js_sort descending slots).
    assert (Hperm : sorted ≡ₚ slots) by apply js_sort_Permutation.
    destruct (day_cases LocalTZA posts day slots Hin)
      as [[-> Hslots] | (d & Hd' & Hne & Hnd & Hslots)].
    + (* the posts without a valid date *)
      left. split; [done|]. subst sorted. by rewrite Hslots.
    + (* a day name *)
      right.
      assert (Hgood : Forall (λ s, ∃ h, scores_at LocalTZA posts d h ≠ []
                        ∧ s = {| hour := VNum h;
                                 slot_score :=
                                   mean_score (scores_at LocalTZA posts d h) |})
                        sorted).
      { apply Forall_forall. intros s Hs. rewrite Hperm in Hs.
        apply Hslots in Hs as (h & _ & Hsc & ->). by exists h. }
      exists d, ((λ s, (slot_hour s, slot_score s)) <$> sorted).
      assert (Hsorted : Forall (λ hm : N * double, hm.2 ≠ S754_nan)
                          ((λ s, (slot_hour s, slot_score s)) <$> sorted) →
                StronglySorted (λ a b : N * double, ¬ ranks_below a.2 b.2)
                  ((λ s, (slot_hour s, slot_score s)) <$> sorted)).
      { intros Hnan.
        apply (StronglySorted_fmap_weaken
                 (λ a b, ¬ ranks_below (slot_score a) (slot_score b)));
          [by intros|].
        apply sort_descending_sorted. apply Forall_forall. intros s Hs.
        rewrite <- Hperm in Hs.
        rewrite Forall_forall in Hgood.
        destruct (Hgood s Hs) as (h & _ & Es).
        split; [rewrite Es; apply mean_score_low|].
        apply (proj1 (Forall_forall _ _) Hnan (slot_hour s, slot_score s)).
        apply list_elem_of_fmap. by exists s. }
      split; [done|]. split; [|split; [|split; [|split; [|split; [|split]]]]].
      * rewrite <- fmap_take, <- list_fmap_compose.
        apply Forall_fmap_ext, Forall_take.
        eapply Forall_impl; [exact Hgood|]. by intros s (h & _ & ->).
      * rewrite length_fmap, length_take. lia.
      * intros E. apply fmap_nil_inv in E.
        assert (Hlen : length sorted = length slots)
          by (by apply Permutation_length).
        destruct sorted as [|? ?]; [|done]. by destruct slots.
      * rewrite <- list_fmap_compose.
        assert (Hh : NoDup (hour <$> sorted)) by (by rewrite Hperm).
        apply (NoDup_fmap_1 VNum). rewrite <- list_fmap_compose.
        erewrite list_fmap_ext; [exact Hh|].
        intros i s Hs. apply list_elem_of_lookup_2 in Hs.
        rewrite Forall_forall in Hgood.
        by destruct (Hgood s Hs) as (h & _ & ->).
      * intros h m. rewrite list_elem_of_fmap. split.
        -- intros (s & [= -> ->] & Hs).
           rewrite Forall_forall in Hgood.
           by destruct (Hgood s Hs) as (h & Hsc & ->).
        -- intros [Hsc ->].
           exists {| hour := VNum h;
                     slot_score := mean_score (scores_at LocalTZA posts d h) |}.
           split; [done|]. rewrite Hperm. apply Hslots.
           exists h. split; [|done].
           pose proof Hsc as Hsc'. rewrite <- scores_when_dated in Hsc'.
           apply scores_when_nonempty in Hsc' as (p & _ & Hp).
           pose proof (postTime_valid LocalTZA p) as Hv.
           rewrite Hp in Hv. by destruct Hv.
      * exact Hsorted.
      * intros Hpos Hlen.
        assert (Hnn : Forall (λ hm : N * double, non_negative hm.2)
                        ((λ s, (slot_hour s, slot_score s)) <$> sorted)).
        { apply Forall_fmap, Forall_forall. intros s Hs. cbn.
          rewrite Forall_forall in Hgood.
          destruct (Hgood s Hs) as (h & Hsc & ->). cbn [slot_score].
          apply mean_sign; [done| |].
          - unfold scores_at. rewrite length_fmap.
            pose proof (length_filter
                          (λ p, getDay LocalTZA (created_utc p) = Some d
                                ∧ getHours LocalTZA (created_utc p) = Some h)
                          posts). lia.
          - unfold scores_at. apply Forall_fmap, Forall_forall.
            intros p [_ Hp]%list_elem_of_filter.
            by apply (proj1 (Forall_forall _ _) Hpos). }
        split; [done|]. apply Hsorted.
        eapply Forall_impl; [exact Hnn|].
        intros [h m] Hm E. cbn in Hm, E. by rewrite E in Hm.
  - intros d day Hday. unfold perf. rewrite keepTop3_keys, day_keys. split.
    + intros (w & Hw & Hwd & Hne).
      apply (slotDay_day w d day Hw Hday) in Hwd as [h ->].
      apply scores_when_nonempty in Hne as (p & Hp & Ht).
      exists p. split; [done|]. apply getDay_postTime. by exists h.
    + intros (p & Hp & Hd). apply getDay_postTime in Hd as [h Ht].
      exists (Some (d, h)).
      split; [rewrite <- Ht; apply postTime_valid|].
      split; [cbn [slotDay]; by rewrite Hday|].
      apply scores_when_nonempty. by exists p.
  - unfold perf. rewrite keepTop3_keys, day_keys. split.
    + intros (w & Hw & Hwd & Hne).
      apply slotDay_undefined in Hwd as ->; [|done].
      rewrite scores_when_undated in Hne. intros E. by rewrite E in Hne.
    + intros Hne. exists None. split; [done|]. split; [done|].
      rewrite scores_when_undated. intros E. by apply fmap_nil_inv in E.
Qed.

Lemma best_posting_times_top3_witness :
  let best := Server.analyzeBestPostingTimes (λ _, 0%Z) (Some sample6) in
  best = [(js "thursday", [VNum 3; VNum 2; VNum 0]); (js "friday", [VNum 0])]
  ∧ NoDup (best.*1)
  ∧ js "thursday" ∈ best.*1.
Proof.
  intros best.
  destruct (best_posting_times_top3 (λ _, 0%Z) (Some sample6) best
              (or_introl eq_refl)) as (Hnd & _ & Hdays & _).
  split; [vm_compute; reflexivity|]. split; [exact Hnd|].
  apply (Hdays 4%nat (js "thursday") eq_refl).
  exists {| score := 30; num_comments := 2; created_utc := 0 |}.
  split; [left | reflexivity].
Defined.

(** ** The scenarios of the specification *)

Example scenario_requirements :
  let text := js "You need 500 combined karma and your account must be 30 days old. Verification required." in
  ∀ r, r ∈ [Server.parseRulesText text None; Client.parseRules text] →
       get r "min_karma" = VNum 500
       ∧ get r "min_account_age_days" = VNum 30
       ∧ get r "requires_verification" = VBool true.
Proof.
  intros text r Hr.
  repeat (apply elem_of_cons in Hr as [-> | Hr]);
    [..|by apply elem_of_nil in Hr]; vm_compute; done.
Qed.

Example scenario_links :
  let text := js "No external links allowed, links only in profile." in
  ∀ r, r ∈ [Server.parseRulesText text None; Client.parseRules text] →
       get r "allows_links_in_post" = VBool false
       ∧ get r "allows_links_in_comments" = VBool false
       ∧ get r "allows_links_in_profile_only" = VBool true.
Proof.
  intros text r Hr.
  repeat (apply elem_of_cons in Hr as [-> | Hr]);
    [..|by apply elem_of_nil in Hr]; vm_compute; done.
Qed.

Example scenario_engagement :
  ∀ e, e ∈ [Server.calculateEngagement (Some sample3);
            Client.calculateEngagement (Some sample3)] →
       e = {| avg_upvotes := of_int 20; median_upvotes := Some (of_int 20);
              avg_comments := of_int 4;
              engagement_score := ddiv (of_int 152) (of_int 10) |}.
Proof.
  intros e He.
  repeat (apply elem_of_cons in He as [-> | He]);
    [..|by apply elem_of_nil in He]; vm_compute; done.
Qed.

(** With an even number of posts the median is the upper of the two middle
    scores, not their average. *)
Example scenario_even_median :
  let posts := [ {| score := 40; num_comments := 0; created_utc := 0 |};
                 {| score := 10; num_comments := 0; created_utc := 0 |};
                 {| score := 30; num_comments := 0; created_utc := 0 |};
                 {| score := 20; num_comments := 0; created_utc := 0 |} ] in
  median_upvotes (Server.calculateEngagement (Some posts)) = Some (of_int 30)
  ∧ median_upvotes (Client.calculateEngagement (Some posts)) = Some (of_int 30).
Proof. split; vm_compute; reflexivity. Qed.

(** The matcher backtracks as the language does: the digits nearest to
    "karma" are captured, a lazy star stops at the first digits. *)
Example scenario_backtracking :
  (λ m, cap m 1) <$> exec re_karma_count (js "level 12, 34 karma")
    = Some (VStr (js "34"))
  ∧ (λ m, cap m 1) <$> exec re_karma_then (js "Karma needed: 50 or 100")
    = Some (VStr (js "50"))
  ∧ exec re_karma_count (js "good karma only") = None.
Proof. repeat split; vm_compute; reflexivity. Qed.

(** * Further properties *)

Lemma canon_lower_unit c : canon (lower_unit c) = canon c.
Proof.
  unfold canon, lower_unit.
  destruct (65 <=? c) eqn:E1, (c <=? 90) eqn:E2; simpl;
    destruct (97 <=? c) eqn:E3, (c <=? 122) eqn:E4; simpl;
    try destruct (97 <=? c + 32) eqn:E5; try destruct (c + 32 <=? 122) eqn:E6;
    simpl; rewrite ?N.leb_le, ?N.leb_gt in *; lia.
Qed.

Lemma canon_toLowerCase w : List.map canon (toLowerCase w) = List.map canon w.
Proof.
  unfold toLowerCase. rewrite List.map_map.
  apply List.map_ext. apply canon_lower_unit.
Qed.

Lemma match_lit_complete p : ∀ w s,
  List.map canon w = List.map canon p → match_lit p (w ++ s) = Some s.
Proof.
  induction p as [|a p IH]; intros [|b w] s H; simplify_eq/=; [done|].
  assert ((canon a =? canon b) = true) as -> by (apply N.eqb_eq; congruence).
  by apply IH.
Qed.

Lemma first_captured_integer_null patterns text :
  (∀ p, p ∈ patterns → p ∈ karmaPatterns ++ agePatterns) →
  first_captured_integer patterns text = VNull ↔
  ∀ p, p ∈ patterns → ¬ occurs_in p text.
Proof.
  induction patterns as [|p rest IH]; simpl; intros Hin.
  - split; [|done]. intros _ p Hp. by apply elem_of_nil in Hp.
  - destruct (exec p text) as [m|] eqn:E.
    + destruct (number_pattern_capture p text m) as (ds & -> & _);
        [apply Hin; left | done |].
      split; [by destruct (number_of_shape (parse_digits 0 ds)) as [-> | [? ->]]|].
      intros H. exfalso. apply (H p); [left|].
      apply test_occurs. unfold test. by rewrite E.
    + rewrite IH by (intros q Hq; apply Hin; by right).
      split.
      * intros H q [-> | Hq]%elem_of_cons; [|by apply H].
        intros Ho%exec_complete. rewrite E in Ho. by destruct Ho.
      * intros H q Hq. apply H. by right.
Qed.

Lemma first_captured_integer_head p rest text :
  first_captured_integer [p] text ≠ VNull →
  first_captured_integer (p :: rest) text = first_captured_integer [p] text.
Proof. simpl. by destruct (exec p text). Qed.

(** X1.  The minimum account age.  The server takes the first of its three
    age patterns that matches, the browser the first pattern alone; the
    field is null exactly when none of the parser's patterns occurs in the
    text.  Otherwise it is the Number that [parseInt] makes of the digits
    captured: the integer they denote when that is below 2^53, and always
    an integer or Infinity, never NaN. *)
Theorem account_age_patterns text flairs :
  let server := get (Server.parseRulesText text flairs) "min_account_age_days" in
  let client := get (Client.parseRules text) "min_account_age_days" in
  agePatterns = [re_age_old; re_age_account; re_age_day]
  ∧ server = first_captured_integer agePatterns text
  ∧ client = first_captured_integer [re_age_old] text
  ∧ (server = VNull ↔ ∀ p, p ∈ agePatterns → ¬ occurs_in p text)
  ∧ (client = VNull ↔ ¬ occurs_in re_age_old text)
  ∧ (∀ m, first_match agePatterns text = Some m →
       ∃ ds, m !! 1%nat = Some ds ∧ is_number_text ds = true
             ∧ server = number_of (parse_digits 0 ds)
             ∧ (parse_digits 0 ds < 2 ^ 53 →
                server = VNum (parse_digits 0 ds)))
  ∧ (∀ m, exec re_age_old text = Some m →
       ∃ ds, m !! 1%nat = Some ds ∧ is_number_text ds = true
             ∧ client = number_of (parse_digits 0 ds)
             ∧ (parse_digits 0 ds < 2 ^ 53 →
                client = VNum (parse_digits 0 ds)))
  ∧ (server = VNull ∨ server = VInfinity ∨ ∃ days, server = VNum days)
  ∧ (client = VNull ∨ client = VInfinity ∨ ∃ days, client = VNum days).
Proof.
  cbv zeta. rewrite server_min_age, client_min_age.
  assert (∀ p, p ∈ agePatterns → p ∈ karmaPatterns ++ agePatterns) as Hs
    by (intros p Hp; apply elem_of_app; by right).
  assert (∀ p, p ∈ [re_age_old] → p ∈ karmaPatterns ++ agePatterns) as Hc.
  { intros p ->%list_elem_of_singleton. apply elem_of_app; right; left. }
  split; [done|]. split; [done|]. split; [done|].
  split; [by apply first_captured_integer_null|].
  split.
  { rewrite (first_captured_integer_null _ text Hc). split.
    - intros H. apply H. left.
    - by intros H p ->%list_elem_of_singleton. }
  split; [intros m Hm; by apply first_match_capture|].
  split.
  { intros m Hm. apply first_match_capture; [done|].
    cbn [first_match]. by rewrite Hm. }
  split; by apply first_captured_integer_shape.
Qed.

Lemma dom_insert_present (r : gmap string value) k v :
  k ∈ dom r → dom (<[k := v]> r) = dom r.
Proof. intros H. rewrite dom_insert_L. set_solver. Qed.

Lemma dom_check_verification text r :
  "requires_verification" ∈ dom r → dom (check_verification text r) = dom r.
Proof.
  intros H. unfold check_verification.
  destruct (test re_verif text); [by apply dom_insert_present | done].
Qed.

Lemma dom_check_posting_frequency text r :
  "posting_frequency_hours" ∈ dom r → "posting_frequency_limit" ∈ dom r →
  dom (check_posting_frequency text r) = dom r.
Proof.
  intros H1 H2. unfold check_posting_frequency.
  destruct (exec re_frequency text); [|done].
  cbv zeta. rewrite dom_insert_present; rewrite dom_insert_present; done.
Qed.

Lemma dom_check_link_policies text r :
  "allows_links_in_post" ∈ dom r → "allows_links_in_comments" ∈ dom r →
  dom (check_link_policies text r) =
  (if test re_profile_links text
   then {["allows_links_in_profile_only"]} else ∅) ∪ dom r.
Proof.
  intros H1 H2. unfold check_link_policies.
  assert (dom (if test re_no_links text
               then <["allows_links_in_comments" := VBool false]>
                      (<["allows_links_in_post" := VBool false]> r)
               else r) = dom r) as H.
  { destruct (test re_no_links text); [|done].
    rewrite dom_insert_present; rewrite dom_insert_present; done. }
  cbv zeta. destruct (test re_profile_links text).
  - rewrite dom_insert_L. f_equal.
    rewrite dom_insert_present; rewrite dom_insert_present; by rewrite ?H.
  - rewrite H. by rewrite (left_id_L ∅ (∪)).
Qed.

Ltac key_present :=
  apply elem_of_dom;
  unfold Server.initial_requirements, Client.initial_requirements;
  by simplify_map_eq.

Lemma dom_server_parse text flairs :
  dom (Server.parseRulesText text flairs) =
  {["rules_summary"]} ∪ ({["rules_raw"]} ∪
    ((if test re_profile_links text
      then {["allows_links_in_profile_only"]} else ∅)
     ∪ dom Server.initial_requirements)).
Proof.
  unfold Server.parseRulesText. cbv zeta.
  set (r0 := Server.initial_requirements).
  set (r1 := match first_match karmaPatterns text with
             | Some m => _ | None => r0 end).
  set (r2 := match first_match agePatterns text with
             | Some m => _ | None => r1 end).
  assert (dom r2 = dom r0) as H2.
  { subst r2 r1.
    destruct (first_match karmaPatterns text), (first_match agePatterns text);
      rewrite ?dom_insert_present; rewrite ?dom_insert_present;
      try done; subst r0; key_present. }
  set (r3 := check_verification text r2).
  assert (dom r3 = dom r0) as H3.
  { subst r3. rewrite dom_check_verification; rewrite ?H2; [done|].
    subst r0; key_present. }
  set (r4 := check_link_policies text r3).
  assert (dom r4 = (if test re_profile_links text
                    then {["allows_links_in_profile_only"]} else ∅) ∪ dom r0)
    as H4.
  { subst r4. rewrite dom_check_link_policies; rewrite ?H3;
      [done|subst r0; key_present..]. }
  set (r5 := check_posting_frequency text r4).
  assert (dom r5 = dom r4) as H5.
  { apply dom_check_posting_frequency; rewrite H4; apply elem_of_union; right;
      subst r0; key_present. }
  assert ("required_flairs" ∈ dom r5) as Hf.
  { rewrite H5, H4. apply elem_of_union; right. subst r0; key_present. }
  rewrite !dom_insert_L.
  destruct flairs; rewrite ?dom_insert_present by done; by rewrite H5, H4.
Qed.

Lemma dom_client_parse text :
  dom (Client.parseRules text) =
  (if test re_profile_links text
   then {["allows_links_in_profile_only"]} else ∅)
  ∪ dom (Client.initial_requirements text).
Proof.
  unfold Client.parseRules. cbv zeta.
  set (r0 := Client.initial_requirements text).
  set (r1 := match exec re_karma_count text with
             | Some m => _ | None => r0 end).
  set (r2 := match exec re_age_old text with
             | Some m => _ | None => r1 end).
  assert (dom r2 = dom r0) as H2.
  { subst r2 r1.
    destruct (exec re_karma_count text), (exec re_age_old text);
      rewrite ?dom_insert_present; rewrite ?dom_insert_present;
      try done; subst r0; key_present. }
  set (r3 := check_verification text r2).
  assert (dom r3 = dom r0) as H3.
  { subst r3. rewrite dom_check_verification; rewrite ?H2; [done|].
    subst r0; key_present. }
  set (r4 := check_link_policies text r3).
  assert (dom r4 = (if test re_profile_links text
                    then {["allows_links_in_profile_only"]} else ∅) ∪ dom r0)
    as H4.
  { subst r4. rewrite dom_check_link_policies; rewrite ?H3;
      [done|subst r0; key_present..]. }
  set (r5 := check_posting_frequency text r4).
  assert (dom r5 = dom r4) as H5.
  { apply dom_check_posting_frequency; rewrite H4; apply elem_of_union; right;
      subst r0; key_present. }
  rewrite dom_insert_present; [by rewrite H5, H4|].
  rewrite H5, H4. apply elem_of_union; right. subst r0; key_present.
Qed.

Lemma dom_server_initial :
  dom Server.initial_requirements = list_to_set (server_initial_keys).
Proof.
  unfold Server.initial_requirements.
  rewrite !dom_insert_L, dom_empty_L. reflexivity.
Qed.

Lemma dom_client_initial text :
  dom (Client.initial_requirements text) = list_to_set client_keys.
Proof.
  unfold Client.initial_requirements.
  rewrite !dom_insert_L, dom_empty_L. reflexivity.
Qed.

(** X5.  The keys of the parsers' objects: the fifteen fixed keys of the
    server, the nine of the browser, and [allows_links_in_profile_only]
    exactly when the profile-link pattern occurs in the text. *)
Theorem parser_output_keys text flairs k :
  (is_Some (Server.parseRulesText text flairs !! k) ↔
   k ∈ server_keys
   ∨ (k = "allows_links_in_profile_only" ∧ occurs_in re_profile_links text))
  ∧ (is_Some (Client.parseRules text !! k) ↔
     k ∈ client_keys
     ∨ (k = "allows_links_in_profile_only" ∧ occurs_in re_profile_links text)).
Proof.
  rewrite <- !elem_of_dom, dom_server_parse, dom_client_parse, <- test_occurs.
  rewrite dom_server_initial, dom_client_initial.
  unfold server_keys.
  generalize server_initial_keys. generalize client_keys. intros ck sk.
  rewrite !elem_of_union, !elem_of_list_to_set, elem_of_app,
    !elem_of_cons, elem_of_nil, !elem_of_singleton.
  destruct (test re_profile_links text);
    rewrite ?elem_of_singleton, ?elem_of_empty.
  all: intuition congruence.
Qed.

Lemma server_untouched text flairs k :
  k ∉ written_keys →
  Server.parseRulesText text flairs !! k = Server.initial_requirements !! k.
Proof.
  intros Hk. unfold written_keys in Hk.
  rewrite !not_elem_of_cons in Hk. destruct_and!.
  unfold Server.parseRulesText. cbv zeta.
  destruct flairs; skip_writes;
    destruct (first_match agePatterns text),
             (first_match karmaPatterns text); by skip_writes.
Qed.

Lemma client_untouched text k :
  k ∉ written_keys →
  Client.parseRules text !! k = Client.initial_requirements text !! k.
Proof.
  intros Hk. unfold written_keys in Hk.
  rewrite !not_elem_of_cons in Hk. destruct_and!.
  unfold Client.parseRules. cbv zeta. skip_writes.
  destruct (exec re_age_old text), (exec re_karma_count text); by skip_writes.
Qed.

Lemma client_parse_absent text k :
  k ∉ written_keys → Client.parseRules text !! k = None.
Proof.
  intros Hk. rewrite client_untouched by done.
  unfold written_keys in Hk. rewrite !not_elem_of_cons in Hk. destruct_and!.
  unfold Client.initial_requirements. by simplify_map_eq.
Qed.

(** X4.  Fields the parser never fills.  The server's [parseRules] assigns
    at most eleven keys; every other key keeps its initial value, so that
    [min_post_karma], [min_comment_karma] and [verification_instructions]
    are always null, [banned_words] is always empty and
    [content_types_allowed] is always the four defaults.  The browser's
    object has no key outside the eleven. *)
Theorem fields_never_filled text flairs :
  let r := Server.parseRulesText text flairs in
  (∀ k, k ∉ written_keys → r !! k = Server.initial_requirements !! k)
  ∧ r !! "min_post_karma" = Some VNull
  ∧ r !! "min_comment_karma" = Some VNull
  ∧ r !! "verification_instructions" = Some VNull
  ∧ r !! "banned_words" = Some (VArr [])
  ∧ r !! "content_types_allowed" =
      Some (VArr [VStr (js "image"); VStr (js "video"); VStr (js "gif");
                  VStr (js "text")])
  ∧ (∀ k, k ∉ written_keys → Client.parseRules text !! k = None).
Proof.
  cbv zeta. split; [intros k; apply server_untouched|].
  repeat split.
  1-5: rewrite server_untouched; [done|];
       unfold written_keys; rewrite !not_elem_of_cons; by repeat split;
       try apply not_elem_of_nil.
  apply client_parse_absent.
Qed.

Lemma match_lit_app p1 p2 : ∀ s s2,
  match_lit (p1 ++ p2) s = Some s2 ↔
  ∃ s1, match_lit p1 s = Some s1 ∧ match_lit p2 s1 = Some s2.
Proof.
  induction p1 as [|a p1 IH]; intros s s2.
  - simpl. split; [by exists s | by intros (s1 & [= ->] & ?)].
  - destruct s as [|b s]; simpl.
    + split; [done | by intros (? & ? & ?)].
    + destruct (canon a =? canon b); [apply IH|].
      split; [done | by intros (? & ? & ?)].
Qed.

Lemma contains_word_matches text word :
  forallb (λ a, (97 <=? a) && (a <=? 122)) word = true →
  contains_ignoring_case text word ↔
  ∃ before s s', text = before ++ s ∧ match_lit word s = Some s'.
Proof.
  intros Hp. split.
  - intros (before & w & after & -> & Hw).
    exists before, (w ++ after), after. split; [done|].
    apply match_lit_complete. by rewrite <- Hw, canon_toLowerCase.
  - intros (before & s & s' & -> & Hm).
    apply match_lit_prefix in Hm as (w & -> & Hw).
    exists before, w, s'. split; [done|]. by apply lower_of_canon.
Qed.

Lemma verif_occurs text :
  occurs_in re_verif text ↔
  ∃ word, word ∈ verification_words ∧ contains_ignoring_case text word.
Proof.
  split.
  - intros (before & s & s' & c' & -> & Hm).
    unfold re_verif in Hm. inv_matches.
    + exists (js "verify"). split; [left|].
      apply contains_word_matches; [done|]. exists before, s, s'.
      split; [done|]. apply (match_lit_app (js "verif") (js "y")). eauto.
    + exists (js "verified"). split; [right; left|].
      apply contains_word_matches; [done|]. exists before, s, s'.
      split; [done|]. apply (match_lit_app (js "verif") (js "ied")). eauto.
    + exists (js "verification"). split; [right; right; left|].
      apply contains_word_matches; [done|]. exists before, s, s'.
      split; [done|]. apply (match_lit_app (js "verif") (js "ication")). eauto.
  - intros (word & Hword & Hc).
    unfold verification_words in Hword.
    apply elem_of_cons in Hword as [-> | Hword];
      [|apply elem_of_cons in Hword as [-> | Hword];
        [|apply list_elem_of_singleton in Hword as ->]];
      apply contains_word_matches in Hc as (before & s & s' & -> & Hm);
      try done.
    + apply (match_lit_app (js "verif") (js "y")) in Hm as (s1 & H1 & H2).
      exists before, s, s'. eexists. split; [done|].
      eapply M_Seq; [by apply M_Lit | by apply M_Grp, M_AltL, M_Lit].
    + apply (match_lit_app (js "verif") (js "ied")) in Hm as (s1 & H1 & H2).
      exists before, s, s'. eexists. split; [done|].
      eapply M_Seq; [by apply M_Lit | by apply M_Grp, M_AltR, M_AltL, M_Lit].
    + apply (match_lit_app (js "verif") (js "ication")) in Hm
        as (s1 & H1 & H2).
      exists before, s, s'. eexists. split; [done|].
      eapply M_Seq; [by apply M_Lit | by apply M_Grp, M_AltR, M_AltR, M_Lit].
Qed.

(** X3.  In either parser [requires_verification] is true exactly when
    the text contains one of the words verify, verified, verification in any
    mix of cases, anywhere (no word boundary is asked for), and false
    otherwise. *)
Theorem verification_by_substring text flairs :
  Forall (λ r : gmap string value,
    (get r "requires_verification" = VBool true ↔
     ∃ word, word ∈ verification_words ∧ contains_ignoring_case text word)
    ∧ (get r "requires_verification" = VBool false ↔
       ∀ word, word ∈ verification_words →
               ¬ contains_ignoring_case text word))
    [Server.parseRulesText text flairs; Client.parseRules text].
Proof.
  assert (∀ r, r = Server.parseRulesText text flairs
               ∨ r = Client.parseRules text →
    (get r "requires_verification" = VBool true ↔
     ∃ word, word ∈ verification_words ∧ contains_ignoring_case text word)
    ∧ (get r "requires_verification" = VBool false ↔
       ∀ word, word ∈ verification_words →
               ¬ contains_ignoring_case text word)) as H.
  { intros r Hr. unfold get.
    rewrite (parser_verification text flairs r Hr). simpl.
    rewrite <- verif_occurs, <- test_occurs.
    destruct (test re_verif text) eqn:E.
    - split; [done|]. split; [done|]. intros H. exfalso.
      apply test_occurs, verif_occurs in E as (word & Hw & Hc).
      by apply (H word).
    - split; [split; [done|]|split; [|done]].
      + intros [=].
      + intros _ word Hw Hc.
        assert (test re_verif text = true) as E'
          by (apply test_occurs, verif_occurs; eauto).
        congruence. }
  constructor; [apply H; auto|constructor; [apply H; auto|constructor]].
Qed.

(** X6.  [allows_links_in_post] and [allows_links_in_comments] are never
    told apart: in either parser they are equal, false exactly when one of
    the two link patterns occurs in the text and true otherwise. *)
Theorem link_fields_move_together text flairs :
  Forall (λ r : gmap string value,
    get r "allows_links_in_post" = get r "allows_links_in_comments"
    ∧ (get r "allows_links_in_post" = VBool false ↔
       occurs_in re_no_links text ∨ occurs_in re_profile_links text)
    ∧ (get r "allows_links_in_post" = VBool true ↔
       ¬ (occurs_in re_no_links text ∨ occurs_in re_profile_links text)))
    [Server.parseRulesText text flairs; Client.parseRules text].
Proof.
  assert (∀ r, r = Server.parseRulesText text flairs
               ∨ r = Client.parseRules text →
    get r "allows_links_in_post" = get r "allows_links_in_comments"
    ∧ (get r "allows_links_in_post" = VBool false ↔
       occurs_in re_no_links text ∨ occurs_in re_profile_links text)
    ∧ (get r "allows_links_in_post" = VBool true ↔
       ¬ (occurs_in re_no_links text ∨ occurs_in re_profile_links text)))
    as H.
  { intros r Hr. unfold get.
    destruct (parser_links text flairs r Hr) as (-> & -> & _). simpl.
    rewrite <- !test_occurs.
    destruct (test re_no_links text), (test re_profile_links text); simpl;
      intuition congruence. }
  constructor; [apply H; auto|constructor; [apply H; auto|constructor]].
Qed.

(** X2.  The two parsers on the same text.  They agree on the verification
    flag, the three link fields, the two frequency fields and [rules_raw];
    a karma or age minimum that the browser finds is the one the server
    finds; and when the minimums agree and the server has no flair, the
    summaries agree. *)
Theorem parsers_agree text flairs :
  let server := Server.parseRulesText text flairs in
  let client := Client.parseRules text in
  (∀ k, k ∈ ["requires_verification"; "allows_links_in_post";
             "allows_links_in_comments"; "allows_links_in_profile_only";
             "posting_frequency_hours"; "posting_frequency_limit";
             "rules_raw"] →
        server !! k = client !! k)
  ∧ (get client "min_karma" ≠ VNull →
     get server "min_karma" = get client "min_karma")
  ∧ (get client "min_account_age_days" ≠ VNull →
     get server "min_account_age_days" = get client "min_account_age_days")
  ∧ (get server "min_karma" = get client "min_karma" →
     get server "min_account_age_days" = get client "min_account_age_days" →
     get server "required_flairs" = VArr [] →
     get server "rules_summary" = get client "rules_summary").
Proof.
  cbv zeta.
  pose proof (parser_links text flairs _ (or_introl eq_refl)) as (Sp & Sc & So).
  pose proof (parser_links text flairs _ (or_intror eq_refl)) as (Cp & Cc & Co).
  pose proof (parser_verification text flairs _ (or_introl eq_refl)) as Sv.
  pose proof (parser_verification text flairs _ (or_intror eq_refl)) as Cv.
  pose proof (parser_frequency_fields text flairs _ (or_introl eq_refl)) as Sf.
  pose proof (parser_frequency_fields text flairs _ (or_intror eq_refl)) as Cf.
  split; [|split; [|split]].
  - intros k Hk.
    repeat (apply elem_of_cons in Hk as [-> | Hk]);
      [..|by apply elem_of_nil in Hk]; try congruence.
    + destruct (exec re_frequency text); cbv zeta in Sf, Cf;
        destruct Sf as [-> _], Cf as [-> _]; done.
    + destruct (exec re_frequency text); cbv zeta in Sf, Cf;
        destruct Sf as [_ ->], Cf as [_ ->]; done.
    + unfold Server.parseRulesText, Client.parseRules. cbv zeta.
      skip_writes. rewrite lookup_insert_eq.
      destruct (exec re_age_old text), (exec re_karma_count text);
        skip_writes; unfold Client.initial_requirements; by simplify_map_eq.
  - rewrite server_min_karma, client_min_karma.
    apply first_captured_integer_head.
  - rewrite server_min_age, client_min_age.
    apply first_captured_integer_head.
  - intros Hk Ha Hfl.
    rewrite (parser_summary_field text flairs _ (or_introl eq_refl)).
    rewrite (parser_summary_field text flairs _ (or_intror eq_refl)).
    rewrite (generateRulesSummary_lines _
               (parser_well_shaped text flairs _ (or_introl eq_refl))).
    rewrite (generateRulesSummary_lines _
               (parser_well_shaped text flairs _ (or_intror eq_refl))).
    assert (get (Server.parseRulesText text flairs) "requires_verification"
            = get (Client.parseRules text) "requires_verification") as Hv
      by (unfold get; by rewrite Sv, Cv).
    assert (get (Server.parseRulesText text flairs) "allows_links_in_post"
            = get (Client.parseRules text) "allows_links_in_post") as Hp
      by (unfold get; by rewrite Sp, Cp).
    assert (get (Server.parseRulesText text flairs) "posting_frequency_limit"
            = get (Client.parseRules text) "posting_frequency_limit") as Hl.
    { unfold get. destruct (exec re_frequency text); cbv zeta in Sf, Cf;
        destruct Sf as [_ ->], Cf as [_ ->]; done. }
    assert (get (Client.parseRules text) "required_flairs" = VUndefined) as Hc
      by (unfold get; by rewrite client_flairs).
    do 2 f_equal. unfold summary_lines.
    by rewrite Hk, Ha, Hfl, Hv, Hp, Hl, Hc.
Qed.

Lemma fold_left_append {A} (f : A → jsstring) l : ∀ init,
  fold_left (λ acc a, acc ++ f a) l init = init ++ concat (f <$> l).
Proof.
  induction l as [|a l IH]; intros init; simpl.
  - by rewrite app_nil_r.
  - by rewrite IH, <- (assoc_L (++)).
Qed.

Lemma rulesTextOf_parts sub :
  Server.rulesTextOf sub =
  ToString (js_or (Server.description sub) (VStr []))
  ++ concat (rule_line <$> default [] (Server.getRules sub)).
Proof.
  unfold Server.rulesTextOf. cbv zeta.
  destruct (Server.getRules sub) as [rules|]; simpl.
  - by rewrite <- fold_left_append.
  - by rewrite app_nil_r.
Qed.

Lemma contains_app_l text after word :
  contains_ignoring_case text word →
  contains_ignoring_case (text ++ after) word.
Proof.
  intros (b & w & a & -> & Hw). exists b, w, (a ++ after).
  by rewrite <- !(assoc_L (++)).
Qed.

Lemma contains_app_r before text word :
  contains_ignoring_case text word →
  contains_ignoring_case (before ++ text) word.
Proof.
  intros (b & w & a & -> & Hw). exists (before ++ b), w, a.
  by rewrite <- !(assoc_L (++)).
Qed.

Lemma contains_in_concat (parts : list jsstring) part word :
  part ∈ parts → contains_ignoring_case part word →
  contains_ignoring_case (concat parts) word.
Proof.
  intros (l1 & l2 & ->)%list_elem_of_split Hc.
  rewrite concat_app. simpl. by apply contains_app_r, contains_app_l.
Qed.

(** X7.  The server's [parseRules] reads the sidebar and every rule: a
    verification word in the sidebar text, in the short name of a rule, or
    in its description (its violation reason when the description is empty)
    sets [requires_verification]. *)
Theorem verification_found_in_any_rule sub word :
  word ∈ verification_words →
  contains_ignoring_case (ToString (js_or (Server.description sub) (VStr []))) word
  ∨ (∃ rules rule,
       Server.getRules sub = Some rules ∧ rule ∈ rules
       ∧ (contains_ignoring_case (ToString (Server.short_name rule)) word
          ∨ contains_ignoring_case
              (ToString (js_or (Server.rule_description rule)
                               (Server.violation_reason rule))) word)) →
  get (Server.parseRules sub) "requires_verification" = VBool true.
Proof.
  intros Hword Hc. unfold Server.parseRules, get.
  rewrite (parser_verification _ _ _ (or_introl eq_refl)). simpl.
  do 2 f_equal. apply test_occurs, verif_occurs. exists word. split; [done|].
  rewrite rulesTextOf_parts.
  destruct Hc as [Hc | (rules & rule & -> & Hin & Hc)].
  - by apply contains_app_l.
  - simpl. apply contains_app_r.
    apply (contains_in_concat _ (rule_line rule));
      [by apply list_elem_of_fmap_2|].
    unfold rule_line. apply contains_app_r. destruct Hc as [Hc | Hc].
    + by apply contains_app_l.
    + by do 2 apply contains_app_r.
Qed.

Lemma verification_found_in_any_rule_witness :
  get (Server.parseRules
         {| Server.description := VStr (js "Welcome");
            Server.getRules :=
              Some [ {| Server.short_name := VStr (js "Rule 1");
                        Server.rule_description := VStr [];
                        Server.violation_reason := VStr (js "Not Verified") |} ];
            Server.getLinkFlairTemplates := None |})
      "requires_verification" = VBool true.
Proof.
  apply (verification_found_in_any_rule _ (js "verified")).
  - right; left.
  - right. eexists _, _. split; [reflexivity|]. split; [left|].
    right. exists (js "Not "), (js "Verified"), []. split; reflexivity.
Defined.

(** X8.  The two engagement calculators return the same figures for the
    same fetch result, be it a list of posts or a failure, as long as it is
    not the empty list. *)
Theorem calculators_agree_off_empty fetched :
  fetched ≠ Some [] →
  Client.calculateEngagement fetched = Server.calculateEngagement fetched.
Proof.
  intros H. destruct fetched as [[|p posts]|]; [done| |done].
  unfold Client.calculateEngagement, Server.calculateEngagement.
  cbv zeta. rewrite js_sort_length. reflexivity.
Qed.

Lemma calculators_agree_off_empty_witness :
  Client.calculateEngagement (Some sample3)
  = Server.calculateEngagement (Some sample3).
Proof. apply calculators_agree_off_empty. discriminate. Defined.

Lemma sorted_Permutation_eq (l1 l2 : list Z) :
  StronglySorted Z.le l1 → StronglySorted Z.le l2 → l1 ≡ₚ l2 → l1 = l2.
Proof.
  intros H1. revert l2.
  induction H1 as [|a l1 H1 IH Ha]; intros l2 H2 Hp.
  - by apply Permutation_nil in Hp.
  - destruct H2 as [|b l2 H2 Hb].
    { symmetry in Hp. by apply Permutation_nil in Hp. }
    assert (a = b) as <-.
    { assert (a ∈ b :: l2) as Hin by (rewrite <- Hp; left).
      assert (b ∈ a :: l1) as Hin' by (rewrite Hp; left).
      apply elem_of_cons in Hin as [->|Hin]; [done|].
      apply elem_of_cons in Hin' as [->|Hin']; [done|].
      rewrite Forall_forall in Ha, Hb.
      apply Hb in Hin. apply Ha in Hin'. lia. }
    f_equal. apply IH; [done|]. by apply Permutation_cons_inv in Hp.
Qed.

Lemma js_sort_ascending_Permutation (xs ys : list Z) :
  xs ≡ₚ ys → js_sort ascending xs = js_sort ascending ys.
Proof.
  intros Hp. apply sorted_Permutation_eq; try apply sort_ascending_sorted.
  by rewrite !js_sort_Permutation.
Qed.

(** X9.  The median does not depend on the order of the posts: two
    samples that are permutations of each other have the same median in
    either calculator; and the median of a non-empty sample is the score of
    one of its posts. *)
Theorem median_ignores_order (posts posts' : list post) :
  posts ≡ₚ posts' →
  median_upvotes (Server.calculateEngagement (Some posts))
  = median_upvotes (Server.calculateEngagement (Some posts'))
  ∧ median_upvotes (Client.calculateEngagement (Some posts))
    = median_upvotes (Client.calculateEngagement (Some posts'))
  ∧ (posts ≠ [] →
     ∃ p, p ∈ posts
          ∧ median_upvotes (Server.calculateEngagement (Some posts))
            = Some (of_int (score p))
          ∧ median_upvotes (Client.calculateEngagement (Some posts))
            = Some (of_int (score p))).
Proof.
  intros Hp.
  assert (List.map score posts ≡ₚ List.map score posts') as Hs
    by (by apply Permutation_map).
  assert (length posts = length posts') as Hl by (by apply Permutation_length).
  unfold Server.calculateEngagement, Client.calculateEngagement. cbv zeta.
  cbn [median_upvotes from_option id].
  rewrite !js_sort_length, !length_map, Hl.
  rewrite (js_sort_ascending_Permutation _ _ Hs).
  split; [done|]. split; [done|].
  intros Hne.
  assert (0 < length posts')%nat as Hpos
    by (rewrite <- Hl; destruct posts; [done|simpl; lia]).
  assert ((0 <? length posts')%nat = true) as -> by (by apply Nat.ltb_lt).
  destruct (js_sort ascending (List.map score posts') !! (length posts' / 2)%nat)
    as [m|] eqn:Em.
  - apply list_elem_of_lookup_2 in Em.
    rewrite js_sort_Permutation, <- Hs in Em.
    apply list_elem_of_fmap in Em as (p & -> & Hin). by exists p.
  - apply lookup_ge_None in Em. rewrite js_sort_length, length_map in Em.
    assert (length posts' / 2 < length posts')%nat; [|lia].
    apply Nat.div_lt; lia.
Qed.

Lemma median_ignores_order_witness :
  let posts := [ {| score := 30; num_comments := 0; created_utc := 0 |};
                 {| score := 10; num_comments := 0; created_utc := 0 |} ] in
  median_upvotes (Server.calculateEngagement (Some posts))
  = median_upvotes (Server.calculateEngagement (Some (rev posts))).
Proof.
  cbv zeta. refine (proj1 (median_ignores_order _ _ _)).
  apply Permutation_rev.
Defined.

Lemma bestHours_key LocalTZA (posts : list post) day :
  day ∈ (bestHoursPerDay (performanceByTime LocalTZA posts)).*1 ↔
  (∃ d p, dayNames !! d = Some day ∧ p ∈ posts
          ∧ getDay LocalTZA (created_utc p) = Some d)
  ∨ (day = js "undefined" ∧ undated posts ≠ []).
Proof.
  rewrite day_keys. split.
  - intros ([[d h]|] & Hw & Hday & Hne).
    + left. destruct Hw as [Hd _].
      destruct (lookup_lt_is_Some_2 dayNames d) as [day' Hd']; [simpl; lia|].
      cbn [slotDay] in Hday. rewrite Hd' in Hday. cbn in Hday. subst day'.
      apply scores_when_nonempty in Hne as (p & Hp & Ht).
      exists d, p. split; [done|]. split; [done|].
      apply getDay_postTime. by exists h.
    + right. cbn [slotDay] in Hday. split; [done|].
      rewrite scores_when_undated in Hne. intros E. by rewrite E in Hne.
  - intros [(d & p & Hday & Hp & Hd) | [-> Hne]].
    + apply getDay_postTime in Hd as [h Ht]. exists (Some (d, h)).
      split; [rewrite <- Ht; apply postTime_valid|].
      split; [cbn [slotDay]; by rewrite Hday|].
      apply scores_when_nonempty. by exists p.
    + exists None. split; [done|]. split; [done|].
      rewrite scores_when_undated. intros E. by apply fmap_nil_inv in E.
Qed.

(** X10.  The mapping of the best posting times is the same in both
    analyzers.  It has at most eight keys: day names, and "undefined" when
    a post has no valid date; the hours under a day name are distinct
    integers between 0 and 23, the one under "undefined" is NaN.  When
    every post has a valid date the keys are at most seven, all of them day
    names; and the mapping is empty when there is no post. *)
Theorem best_hours_are_clock_hours LocalTZA fetched :
  let best := Server.analyzeBestPostingTimes LocalTZA fetched in
  let posts := default [] fetched in
  Client.analyzeBestPostingTimes LocalTZA fetched = best
  ∧ (length best ≤ 8)%nat
  ∧ (∀ day hours, (day, hours) ∈ best →
       (day ∈ dayNames ∧ NoDup hours
        ∧ Forall (λ v, ∃ h, v = VNum h ∧ h < 24) hours)
       ∨ (day = js "undefined" ∧ hours = [VNaN]))
  ∧ (js "undefined" ∈ best.*1 ↔ undated posts ≠ [])
  ∧ (undated posts = [] →
     (length best ≤ 7)%nat ∧ ∀ day, day ∈ best.*1 → day ∈ dayNames)
  ∧ (posts = [] → best = []).
Proof.
  cbv zeta.
  rewrite (analyze_both LocalTZA fetched _ (or_introl eq_refl)).
  rewrite (analyze_both LocalTZA fetched _ (or_intror eq_refl)).
  set (posts := default [] fetched).
  set (raw := bestHoursPerDay (performanceByTime LocalTZA posts)).
  assert (Hnd : NoDup raw.*1)
    by (subst raw; rewrite bestHoursPerDay_grouped; apply grouped_NoDup).
  assert (Hkey : ∀ day, day ∈ raw.*1 →
            day ∈ dayNames ∨ (day = js "undefined" ∧ undated posts ≠ [])).
  { intros day [(d & p & Hd & _) | H]%bestHours_key; [left | by right].
    by apply list_elem_of_lookup_2 in Hd. }
  split; [done|]. split; [|split; [|split; [|split]]].
  - rewrite <- (length_fmap fst), keepTop3_keys.
    change 8%nat with (length (dayNames ++ [js "undefined"])).
    apply submseteq_length, NoDup_submseteq; [done|].
    intros day [Hday | [-> _]]%Hkey; apply elem_of_app; [by left | right].
    apply list_elem_of_singleton. done.
  - intros day hours (slots & Hin & ->)%keepTop3_elem.
    destruct (day_cases LocalTZA posts day slots Hin)
      as [[-> ->] | (d & Hd & Hne & Hnds & Hslots)]; [by right | left].
    split; [by apply list_elem_of_lookup_2 in Hd|].
    assert (Forall (λ s, ∃ h, h < 24 ∧ hour s = VNum h)
                   (take 3 (js_sort descending slots))) as Hgood.
    { apply Forall_take, Forall_forall. intros s Hs.
      rewrite js_sort_Permutation in Hs.
      apply Hslots in Hs as (h & Hh & Hsc & ->). by exists h. }
    split.
    + rewrite fmap_take.
      eapply (sublist_NoDup _ (hour <$> js_sort descending slots));
        [by rewrite js_sort_Permutation | apply sublist_take].
    + apply Forall_fmap. eapply Forall_impl; [exact Hgood|].
      intros s (h & Hh & Hs). by exists h.
  - rewrite keepTop3_keys. subst raw. rewrite bestHours_key. split.
    + intros [(d & p & Hd & _) | [_ H]]; [|done].
      exfalso. apply undefined_is_no_day.
      by apply list_elem_of_lookup_2 in Hd.
    + intros H. by right.
  - intros Hund.
    assert (Hdays : ∀ day, day ∈ raw.*1 → day ∈ dayNames).
    { intros day [Hday | [_ H]]%Hkey; [done|]. by destruct H. }
    split.
    + rewrite <- (length_fmap fst), keepTop3_keys.
      change 7%nat with (length dayNames).
      by apply submseteq_length, NoDup_submseteq.
    + intros day. rewrite keepTop3_keys. apply Hdays.
  - intros E. subst raw. by rewrite E.
Qed.

Lemma filter_fst_sublist {A B} (P : A * B → bool) (l : list (A * B)) :
  List.map fst (List.filter P l) `sublist_of` List.map fst l.
Proof.
  induction l as [|x l IH]; simpl; [constructor|].
  destruct (P x); simpl; by constructor.
Qed.

Lemma NoDup_niche_tags : NoDup (js "general" :: List.map fst nicheKeywords).
Proof. apply (bool_decide_unpack _). vm_compute. exact I. Qed.

(** X11.  The tags come in the order of the keyword table and without
    repetition: the result is the single tag general or a sublist of the
    seventeen tags of the table, and general never stands beside another
    tag. *)
Theorem niche_tags_in_table_order (lowerCase : jsstring → jsstring)
    (sub : subredditInfo) :
  let tags := inferNicheTags lowerCase sub in
  NoDup tags
  ∧ (1 ≤ length tags ≤ 17)%nat
  ∧ (tags = [js "general"] ∨ tags `sublist_of` List.map fst nicheKeywords)
  ∧ (js "general" ∈ tags → tags = [js "general"]).
Proof.
  cbv zeta. rewrite inferNicheTags_filter.
  set (P := λ entry : jsstring * list jsstring,
              existsb (λ kw, includes (nicheText lowerCase sub) kw) (snd entry)).
  pose proof (filter_fst_sublist P nicheKeywords) as Hsub.
  pose proof NoDup_niche_tags as Hnd. apply NoDup_cons in Hnd as [Hg Hnd].
  destruct (List.map fst (List.filter P nicheKeywords)) as [|t ts] eqn:E.
  - split; [apply NoDup_singleton|]. split; [simpl; lia|].
    split; [by left|done].
  - split; [by eapply sublist_NoDup|].
    split.
    + apply sublist_length in Hsub.
      change (length (List.map fst nicheKeywords)) with 17%nat in Hsub.
      simpl length in *. lia.
    + split; [by right|]. intros Hin. exfalso. apply Hg.
      eapply elem_of_sublist; [exact Hin|]. exact Hsub.
Qed.

Section BatchProperties.
Context {World Data : Type}.
Variable scrapeSubreddit : jsstring → World → outcome Data * World.
Variable wait : Z → World → World.

Lemma attempt_spec name w b :
  let b' := (attempt scrapeSubreddit name w b).1 in
  (success b' = success b ++ [name] ∧ failed b' = failed b)
  ∨ (∃ message, success b' = success b
                ∧ failed b' = failed b ++ [(name, message)]).
Proof.
  unfold attempt. destruct (scrapeSubreddit name w) as [[d|m] w']; simpl.
  - by left.
  - right. by exists m.
Qed.

Lemma extends_step b b1 b' name rest :
  (success b1 = success b ++ [name] ∧ failed b1 = failed b)
  ∨ (∃ message, success b1 = success b
                ∧ failed b1 = failed b ++ [(name, message)]) →
  extends b1 b' rest → extends b b' (name :: rest).
Proof.
  intros Hstep (s & f & Hs & Hf & Hp & Hss & Hfs).
  destruct Hstep as [[H1 H2] | (m & H1 & H2)].
  - exists (name :: s), f. rewrite Hs, Hf, H1, H2, <- (assoc_L (++)).
    repeat split; simpl; [by constructor|by constructor|by constructor].
  - exists s, ((name, m) :: f). rewrite Hs, Hf, H1, H2, <- (assoc_L (++)).
    repeat split; simpl.
    + rewrite <- Hp. symmetry. apply Permutation_middle.
    + by constructor.
    + by constructor.
Qed.

Lemma server_loop_results n d : ∀ rest i w b tr,
  ∃ b', result (server_loop scrapeSubreddit wait n d i rest w b tr)
        = Resolved b' ∧ extends b b' rest.
Proof.
  induction rest as [|name rest IH]; intros i w b tr; simpl.
  - exists b. split; [done|]. exists [], []. rewrite !app_nil_r.
    repeat split; constructor.
  - pose proof (attempt_spec name w b) as Hstep. cbv zeta in Hstep.
    destruct (attempt scrapeSubreddit name w b) as [b1 w1]. simpl in Hstep.
    destruct (i <? n - 1)%nat;
      [destruct (IH (S i) (wait d w1) b1 (tr ++ [Scraped name] ++ [Slept d]))
         as (b' & Hr & He)
      |destruct (IH (S i) w1 b1 (tr ++ [Scraped name])) as (b' & Hr & He)];
      exists b'; rewrite <- ?(assoc_L (++)); (split; [done|]);
      by eapply extends_step.
Qed.

Lemma server_loop_trace n d : ∀ rest i w b tr,
  (i + length rest = n)%nat →
  trace (server_loop scrapeSubreddit wait n d i rest w b tr)
  = tr ++ separated (Slept d) (Scraped <$> rest).
Proof.
  induction rest as [|name rest IH]; intros i w b tr Hn; simpl.
  - by rewrite app_nil_r.
  - destruct (attempt scrapeSubreddit name w b) as [b1 w1].
    destruct rest as [|name' rest].
    + assert ((i <? n - 1)%nat = false) as ->
        by (apply Nat.ltb_ge; simpl in Hn; lia).
      done.
    + assert ((i <? n - 1)%nat = true) as ->
        by (apply Nat.ltb_lt; simpl in Hn; lia).
      rewrite IH by (simpl in *; lia).
      by rewrite <- !(assoc_L (++)).
Qed.

Lemma client_loop_silent n : ∀ rest i w b tr,
  let r := client_loop scrapeSubreddit wait n None i rest w b tr in
  trace r = tr ++ flat_map (λ name, [Scraped name; Slept 1000]) rest
  ∧ ∃ b', result r = Resolved b' ∧ extends b b' rest.
Proof.
  induction rest as [|name rest IH]; intros i w b tr; simpl.
  - rewrite app_nil_r. split; [done|]. exists b. split; [done|].
    exists [], []. rewrite !app_nil_r. repeat split; constructor.
  - pose proof (attempt_spec name w b) as Hstep. cbv zeta in Hstep.
    destruct (attempt scrapeSubreddit name w b) as [b1 w1]. simpl in Hstep.
    destruct (IH (S i) (wait 1000 w1) b1 ((tr ++ [Scraped name]) ++ [Slept 1000]))
      as (Ht & b' & Hr & He).
    split; [by rewrite Ht, <- !(assoc_L (++))|].
    exists b'. split; [done|]. by eapply extends_step.
Qed.

Lemma scrapes_separated d names :
  scrapes (separated (Slept d) (Scraped <$> names)) = names.
Proof.
  induction names as [|a l IH]; [done|].
  destruct l as [|a' l]; [done|].
  change (a :: scrapes (separated (Slept d) (Scraped <$> a' :: l))
          = a :: a' :: l).
  by rewrite IH.
Qed.

Lemma sleeps_separated d names :
  sleeps (separated (Slept d) (Scraped <$> names))
  = replicate (length names - 1) d.
Proof.
  induction names as [|a l IH]; [done|].
  destruct l as [|a' l]; [done|].
  change (d :: sleeps (separated (Slept d) (Scraped <$> a' :: l))
          = replicate (S (length l)) d).
  rewrite IH. simpl. by rewrite Nat.sub_0_r.
Qed.

(** X12.  A batch splits its names.  The server's [scrapeMultiple], and
    the browser's without a callback, resolve whatever the scrapes do; each
    name is scraped once, in order; [success] and [failed] together hold the
    names, each once, both in the order of the input. *)
Theorem batch_splits_the_names names delayMs w :
  Forall (λ r : run,
    ∃ results, result r = Resolved results
      ∧ success results ++ (failed results).*1 ≡ₚ names
      ∧ success results `sublist_of` names
      ∧ (failed results).*1 `sublist_of` names
      ∧ (length (success results) + length (failed results)
         = length names)%nat
      ∧ scrapes (trace r) = names)
    [server_scrapeMultiple scrapeSubreddit wait names delayMs w;
     client_scrapeMultiple scrapeSubreddit wait names None w].
Proof.
  constructor; [|constructor; [|constructor]].
  - unfold server_scrapeMultiple.
    destruct (server_loop_results (length names) (default 2000%Z delayMs)
                names 0%nat w {| success := []; failed := [] |} [])
      as (b' & Hr & s & f & Hs & Hf & Hp & Hss & Hfs).
    exists b'. simpl in Hs, Hf. rewrite Hs, Hf. repeat split; try done.
    + rewrite <- (length_fmap fst f), <- length_app. by rewrite Hp.
    + rewrite server_loop_trace by (simpl; lia). simpl.
      apply scrapes_separated.
  - unfold client_scrapeMultiple.
    destruct (client_loop_silent (length names) names 0%nat w
                {| success := []; failed := [] |} [])
      as (Ht & b' & Hr & s & f & Hs & Hf & Hp & Hss & Hfs).
    exists b'. simpl in Hs, Hf. rewrite Hs, Hf. repeat split; try done.
    + rewrite <- (length_fmap fst f), <- length_app. by rewrite Hp.
    + rewrite Ht. simpl. clear. induction names as [|a l IH]; simpl; [done|].
      by rewrite IH.
Qed.

(** The waits of the browser's loop, with or without a callback: one of
    1000 after each scrape, but for the scrape after which the callback
    threw. *)
Lemma client_loop_waits n onProgress : ∀ rest i w b tr,
  let r := client_loop scrapeSubreddit wait n onProgress i rest w b tr in
  ∃ tr', trace r = tr ++ tr'
    ∧ (∀ results, result r = Resolved results →
         scrapes tr' = rest ∧ sleeps tr' = replicate (length rest) 1000%Z)
    ∧ (∀ m, result r = Rejected m →
         scrapes tr' ≠ []
         ∧ sleeps tr' = replicate (length (scrapes tr') - 1) 1000%Z).
Proof.
  induction rest as [|name rest IH]; intros i w b tr; simpl.
  - exists []. rewrite app_nil_r. by repeat split.
  - destruct (attempt scrapeSubreddit name w b) as [b1 w1].
    destruct onProgress as [callback|].
    + set (p := {| current := i + 1; total := n;
                   n_success := length (success b1);
                   n_failed := length (failed b1) |}).
      destruct (callback p w1) as [[m|] w2].
      * exists [Scraped name; Reported p]. simpl.
        split; [by rewrite <- (assoc_L (++))|]. by split.
      * destruct (IH (S i) (wait 1000 w2) b1
                    ((tr ++ [Scraped name]) ++ [Reported p; Slept 1000]))
          as (tr' & Ht & Hok & Hrej).
        exists ([Scraped name; Reported p; Slept 1000] ++ tr').
        split; [by rewrite Ht, <- !(assoc_L (++))|]. split.
        -- intros results Hr. destruct (Hok results Hr) as [Hs Hl].
           simpl. by rewrite Hs, Hl.
        -- intros m Hm. destruct (Hrej m Hm) as [Hne Hl]. split; [done|].
           simpl. rewrite Hl. destruct (scrapes tr'); [done|].
           simpl. by rewrite Nat.sub_0_r.
    + destruct (IH (S i) (wait 1000 w1) b1
                  ((tr ++ [Scraped name]) ++ [Slept 1000]))
        as (tr' & Ht & Hok & Hrej).
      exists ([Scraped name; Slept 1000] ++ tr').
      split; [by rewrite Ht, <- !(assoc_L (++))|]. split.
      * intros results Hr. destruct (Hok results Hr) as [Hs Hl].
        simpl. by rewrite Hs, Hl.
      * intros m Hm. destruct (Hrej m Hm) as [Hne Hl]. split; [done|].
        simpl. rewrite Hl. destruct (scrapes tr'); [done|].
        simpl. by rewrite Nat.sub_0_r.
Qed.

(** X13.  The delays of a batch.  The server's calls are the scrapes with
    one wait of [delayMs] (2000 by default) between each two, so one less
    than there are names.  The browser's, without a callback, are each
    scrape followed by a wait of 1000, the last one too; with a callback it
    waits 1000 after every scrape (so as often as there are names when the
    batch resolves), except after the scrape on which the callback threw,
    which ends the batch. *)
Theorem batch_delays names delayMs w :
  trace (server_scrapeMultiple scrapeSubreddit wait names delayMs w)
  = separated (Slept (default 2000%Z delayMs)) (Scraped <$> names)
  ∧ sleeps (trace (server_scrapeMultiple scrapeSubreddit wait names delayMs w))
    = replicate (length names - 1) (default 2000%Z delayMs)
  ∧ trace (client_scrapeMultiple scrapeSubreddit wait names None w)
    = flat_map (λ name, [Scraped name; Slept 1000]) names
  ∧ sleeps (trace (client_scrapeMultiple scrapeSubreddit wait names None w))
    = replicate (length names) 1000%Z
  ∧ (∀ onProgress,
       let r := client_scrapeMultiple scrapeSubreddit wait names onProgress w in
       (∀ results, result r = Resolved results →
          scrapes (trace r) = names
          ∧ sleeps (trace r) = replicate (length names) 1000%Z)
       ∧ (∀ message, result r = Rejected message →
            scrapes (trace r) ≠ []
            ∧ sleeps (trace r)
              = replicate (length (scrapes (trace r)) - 1) 1000%Z)).
Proof.
  split; [|split; [|split; [|split]]].
  - unfold server_scrapeMultiple. by rewrite server_loop_trace by (simpl; lia).
  - unfold server_scrapeMultiple. rewrite server_loop_trace by (simpl; lia).
    apply sleeps_separated.
  - unfold client_scrapeMultiple.
    by destruct (client_loop_silent (length names) names 0%nat w
                   {| success := []; failed := [] |} []) as (-> & _).
  - unfold client_scrapeMultiple.
    destruct (client_loop_silent (length names) names 0%nat w
                {| success := []; failed := [] |} []) as (-> & _).
    simpl. induction names as [|a l IH]; simpl; [done|]. by rewrite IH.
  - intros onProgress. cbv zeta. unfold client_scrapeMultiple.
    destruct (client_loop_waits (length names) onProgress names 0%nat w
                {| success := []; failed := [] |} [])
      as (tr' & -> & Hok & Hrej).
    done.
Qed.

Lemma client_loop_reports n callback : ∀ rest i w b tr,
  (length (success b) + length (failed b) = i)%nat →
  let r := client_loop scrapeSubreddit wait n (Some callback) i rest w b tr in
  ∃ tr', trace r = tr ++ tr'
    ∧ (∀ j p, reports tr' !! j = Some p →
         current p = (i + j + 1)%nat ∧ total p = n
         ∧ (n_success p + n_failed p = i + j + 1)%nat)
    ∧ length (reports tr') = length (scrapes tr')
    ∧ scrapes tr' `prefix_of` rest
    ∧ ((∀ p w, (callback p w).1 = None) →
       ∃ b', result r = Resolved b' ∧ scrapes tr' = rest ∧ extends b b' rest
             ∧ sleeps tr' = replicate (length rest) 1000%Z)
    ∧ (∀ m, result r = Rejected m →
         ∃ p w', callback p w' = (Some m, world r)
                 ∧ last tr' = Some (Reported p)).
Proof.
  induction rest as [|name rest IH]; intros i w b tr Hi; simpl.
  - exists []. rewrite app_nil_r. repeat split; try done.
    intros _. exists b. repeat split; try done.
    exists [], []. rewrite !app_nil_r. repeat split; constructor.
  - pose proof (attempt_spec name w b) as Hstep. cbv zeta in Hstep.
    destruct (attempt scrapeSubreddit name w b) as [b1 w1]. simpl in Hstep.
    assert (length (success b1) + length (failed b1) = S i)%nat as Hi1.
    { destruct Hstep as [[-> ->] | (m & -> & ->)];
        rewrite length_app; simpl; lia. }
    set (p := {| current := i + 1; total := n;
                 n_success := length (success b1);
                 n_failed := length (failed b1) |}).
    destruct (callback p w1) as [[m|] w2] eqn:Ecb.
    + exists [Scraped name; Reported p]. simpl.
      split; [by rewrite <- (assoc_L (++))|]. split; [|split; [|split; [|split]]].
      * intros [|j] q [=]; subst q; simpl. lia.
      * done.
      * by exists rest.
      * intros Hnever. specialize (Hnever p w1). rewrite Ecb in Hnever.
        discriminate.
      * intros m' [= <-]. by exists p, w1.
    + destruct (IH (S i) (wait 1000 w2) b1
                  ((tr ++ [Scraped name]) ++ [Reported p; Slept 1000]) Hi1)
        as (tr' & Ht & Hrep & Hlen & Hpre & Hok & Hrej).
      exists ([Scraped name; Reported p; Slept 1000] ++ tr').
      split; [by rewrite Ht, <- !(assoc_L (++))|].
      split; [|split; [|split; [|split]]].
      * intros [|j] q; simpl.
        -- intros [= <-]. simpl. lia.
        -- intros Hq. apply Hrep in Hq. lia.
      * simpl. by rewrite Hlen.
      * simpl. by apply prefix_cons.
      * intros Hnever.
        destruct (Hok Hnever) as (b' & Hr & Hsc & He & Hsl).
        exists b'. simpl. rewrite Hsc, Hsl. repeat split; try done.
        by eapply extends_step.
      * intros m Hm. destruct (Hrej m Hm) as (q & w' & Hq & Hlast).
        exists q, w'. split; [done|].
        change ([Scraped name; Reported p; Slept 1000] ++ tr')
          with ([Scraped name; Reported p] ++ Slept 1000 :: tr').
        rewrite last_app. destruct tr' as [|e tr']; [done|].
        by rewrite last_cons, Hlast.
Qed.

(** X14.  Progress reports of the browser's batch.  The callback is
    called once per scraped name; the j-th report has [current = j], the
    number of names as [total], and counts that add up to j.  A callback
    that never throws lets the batch resolve after every name; a batch that
    rejects does so with what the callback threw in its last call, having
    scraped a prefix of the names.  Without a callback there is no
    report. *)
Theorem progress_is_reported_per_name names callback w :
  let r := client_scrapeMultiple scrapeSubreddit wait names (Some callback) w in
  (∀ j p, reports (trace r) !! j = Some p →
     current p = S j ∧ total p = length names
     ∧ (n_success p + n_failed p = S j)%nat)
  ∧ length (reports (trace r)) = length (scrapes (trace r))
  ∧ scrapes (trace r) `prefix_of` names
  ∧ ((∀ p w, (callback p w).1 = None) →
     ∃ results, result r = Resolved results
       ∧ scrapes (trace r) = names
       ∧ length (reports (trace r)) = length names
       ∧ success results ++ (failed results).*1 ≡ₚ names
       ∧ sleeps (trace r) = replicate (length names) 1000%Z)
  ∧ (∀ message, result r = Rejected message →
       ∃ p w', callback p w' = (Some message, world r)
               ∧ last (trace r) = Some (Reported p))
  ∧ reports (trace (client_scrapeMultiple scrapeSubreddit wait names None w))
    = [].
Proof.
  cbv zeta. unfold client_scrapeMultiple.
  destruct (client_loop_reports (length names) callback names 0%nat w
              {| success := []; failed := [] |} [] eq_refl)
    as (tr' & Ht & Hrep & Hlen & Hpre & Hok & Hrej).
  simpl in Ht. rewrite Ht.
  split; [|split; [|split; [|split; [|split]]]]; try done.
  - intros j p Hp. apply Hrep in Hp. simpl in Hp. lia.
  - intros Hnever.
    destruct (Hok Hnever) as (b' & Hr & Hsc & (s & f & Hs & Hf & Hp & _) & Hsl).
    exists b'. simpl in Hs, Hf. rewrite Hs, Hf. repeat split; try done.
    by rewrite Hlen, Hsc.
  - destruct (client_loop_silent (length names) names 0%nat w
                {| success := []; failed := [] |} []) as (-> & _).
    simpl. clear. induction names as [|a l IH]; [done|]. exact IH.
Qed.
End BatchProperties.

Import PublicRedditClient.

(** X15.  The list requests of the public client never throw.  Whatever
    the request comes to, [getRecentPosts], [getTopPosts] and
    [getSubredditRules] resolve with a list, which is non-empty only when
    the response was OK and its body held that list. *)
Theorem listing_requests_never_throw (response : fetched (option (list post)))
    (rules : fetched (option (list rule))) :
  (∃ posts, getRecentPosts response = Resolved posts
     ∧ getTopPosts response = Resolved posts
     ∧ (posts ≠ [] →
        ∃ status, ok status = true
          ∧ response = Response status (Resolved (Some posts))))
  ∧ (∃ rs, getSubredditRules rules = Resolved rs
       ∧ (rs ≠ [] →
          ∃ status, ok status = true
            ∧ rules = Response status (Resolved (Some rs)))).
Proof.
  split.
  - unfold getRecentPosts, getTopPosts, fetchRedditJson.
    destruct response as [status body|m]; [|by exists []].
    destruct (ok status) eqn:E; simpl.
    + destruct body as [[children|]|m]; simpl; [|by exists []..].
      exists children. repeat split. intros _. by exists status.
    + repeat (destruct (_ =? _); simpl); by exists [].
  - unfold getSubredditRules, fetchRedditJson.
    destruct rules as [status body|m]; [|by exists []].
    destruct (ok status) eqn:E; simpl.
    + destruct body as [[children|]|m]; simpl; [|by exists []..].
      exists children. repeat split. intros _. by exists status.
    + repeat (destruct (_ =? _); simpl); by exists [].
Qed.

Lemma status_messages_table :
  forallb (λ s, (s =? 404)%nat
                || negb (includes (js "Reddit API error: "
                                   ++ ToString (VNum (N.of_nat s))) (js "404")))
          (seq 100 500) = true.
Proof. vm_compute. reflexivity. Qed.

Lemma status_message_has_no_404 status :
  100 ≤ status ≤ 599 → status ≠ 404 →
  includes (js "Reddit API error: " ++ ToString (VNum status)) (js "404")
  = false.
Proof.
  intros Hs Hne. pose proof status_messages_table as H.
  rewrite forallb_forall in H.
  specialize (H (N.to_nat status)). rewrite N2Nat.id in H.
  assert ((N.to_nat status =? 404)%nat = false) as E
    by (apply Nat.eqb_neq; lia).
  rewrite E in H. apply negb_true_iff, H, in_seq. lia.
Qed.

(** X16.  [checkShadowban] looks for 404 in the message of the error, and
    [fetchRedditJson] words a 404 without it: a response with status 404
    makes the check throw Subreddit not found, and any other status from
    100 to 599 that is not OK makes it throw too.  On an OK response the
    check reports a shadowban exactly when the body has no data, or reading
    the body throws an error whose message contains 404. *)
Theorem shadowban_check_rethrows_404 status
    (body : outcome (option (gmap string value))) :
  checkShadowban (Response 404 body) = Rejected (js "Subreddit not found")
  ∧ (100 ≤ status ≤ 599 → ok status = false →
     ∃ message, checkShadowban (Response status body) = Rejected message)
  ∧ (ok status = true →
     (checkShadowban (Response status body) = Resolved not_found ↔
      body = Resolved None
      ∨ ∃ message, body = Rejected message
                   ∧ includes message (js "404") = true)).
Proof.
  split; [done|]. split.
  - intros Hs Hok. unfold checkShadowban, fetchRedditJson. rewrite Hok.
    cbn [negb].
    destruct (status =? 404) eqn:E; [by eexists|].
    destruct (status =? 403); [by eexists|].
    destruct (status =? 429); [by eexists|].
    apply N.eqb_neq in E.
    cbn [and_then try_catch].
    rewrite (status_message_has_no_404 status Hs E). by eexists.
  - intros Hok. unfold checkShadowban, fetchRedditJson. rewrite Hok. simpl.
    destruct body as [[user|]|m]; simpl.
    + split; [|by intros [[=] | (m & [=] & _)]].
      intros H. exfalso.
      apply (f_equal (λ o : outcome (gmap string value),
                        match o with
                        | Resolved m => m !! "exists"
                        | Rejected _ => None
                        end)) in H.
      unfold not_found in H. by simplify_map_eq.
    + split; [by left|done].
    + destruct (includes m (js "404")) eqn:E.
      * split; [|done]. intros _. right. by exists m.
      * split; [done|]. intros [[=] | (m' & [= <-] & Hm)]. congruence.
Qed.


(** X17.  The browser's [calculateEngagement] with its request.  The
    request never throws, so that the zeros of the [catch] are never
    returned; and unless the response is OK and holds at least one post,
    the averages and the score are NaN and the median is undefined. *)
Theorem failed_request_gives_NaN (recent : fetched (option (list post))) :
  (∃ posts, returned (getRecentPosts recent) = Some posts)
  ∧ ((∀ status posts, ok status = true →
        recent = Response status (Resolved (Some posts)) → posts = []) →
     ClientScraper.calculateEngagement recent = NaN_engagement).
Proof.
  unfold ClientScraper.calculateEngagement, getRecentPosts, fetchRedditJson.
  destruct recent as [status body|m]; [|split; [by exists []|done]].
  destruct (ok status) eqn:Hok; simpl.
  - destruct body as [[children|]|m]; simpl;
      (split; [by eexists|]); try done.
    intros H. by rewrite (H status children Hok eq_refl).
  - split; [|intros _]; repeat (destruct (_ =? _); simpl);
      try done; by exists [].
Qed.

Section ScrapeProperties.
Variable lowerCase : jsstring → jsstring.
Variable LocalTZA : Z → Z.
Variable toISOString : value → outcome value.

Local Abbreviation scrape :=
  (ClientScraper.scrapeSubreddit lowerCase LocalTZA toISOString).

Lemma getSubreddit_resolved about sub :
  getSubreddit about = Resolved sub →
  ∃ status raw,
    about = Response status (Resolved raw) ∧ ok status = true
    ∧ get sub "name" = get raw "display_name"
    ∧ get sub "display_name" = get raw "display_name_prefixed"
    ∧ get sub "description" = get raw "public_description"
    ∧ get sub "subscribers" = get raw "subscribers"
    ∧ get sub "active_users" = get raw "active_user_count"
    ∧ get sub "created" = get raw "created_utc"
    ∧ get sub "over18" = get raw "over18"
    ∧ get sub "public_description" = VUndefined.
Proof.
  unfold getSubreddit, fetchRedditJson.
  destruct about as [status body|m]; [|done].
  destruct (ok status) eqn:Hok; simpl.
  - destruct body as [raw|m]; [|done]. simpl. intros [= <-].
    exists status, raw. unfold get. by simplify_map_eq.
  - by repeat (destruct (_ =? _); simpl).
Qed.

Lemma getSubredditRules_resolved rules :
  ∃ rs, getSubredditRules rules = Resolved rs.
Proof.
  unfold getSubredditRules, fetchRedditJson.
  destruct rules as [status body|m]; [|by exists []].
  destruct (ok status); simpl.
  - destruct body as [[rs|]|m]; simpl; by eexists.
  - repeat (destruct (_ =? _); simpl); by exists [].
Qed.

Lemma scrape_resolved about rules recent top saved data :
  scrape about rules recent top saved = Resolved data →
  ∃ sub created_utc rs,
    getSubreddit about = Resolved sub
    ∧ toISOString (get sub "created") = Resolved created_utc
    ∧ getSubredditRules rules = Resolved rs
    ∧ data =
      <["niche_tags" := FTags (ClientScraper.nicheTagsOf lowerCase sub)]>
      (<["best_posting_times" :=
           FTimes (ClientScraper.analyzeBestPostingTimes LocalTZA top)]>
      (assign
        (assign
          (<["name" := FValue (get sub "name")]>
          (<["display_name" := FValue (get sub "display_name")]>
          (<["subscribers" := FValue (get sub "subscribers")]>
          (<["active_users" := FValue (get sub "active_users")]>
          (<["created_utc" := FValue created_utc]>
          (<["is_nsfw" := FValue (get sub "over18")]>
          (<["description" := FValue (get sub "description")]> ∅)))))))
          (FValue <$> Client.parseRules (ClientScraper.rulesText sub rs)))
        (engagement_object (ClientScraper.calculateEngagement recent)))).
Proof.
  unfold ClientScraper.scrapeSubreddit.
  destruct (getSubreddit about) as [sub|m] eqn:E1; [|done]. cbn [and_then].
  destruct (toISOString (get sub "created")) as [iso|m] eqn:E2; [|done].
  cbn [and_then].
  destruct (getSubredditRules rules) as [rs|m] eqn:E3; [|done]. cbn [and_then].
  destruct saved as [[]|m]; [|done]. cbn [and_then try_catch].
  intros [= <-]. by exists sub, iso, rs.
Qed.

Ltac decide_closed := apply (bool_decide_unpack _); vm_compute; exact I.

Lemma not_written k :
  k ∈ ["name"; "display_name"; "subscribers"; "active_users"; "created_utc";
       "is_nsfw"; "description"; "avg_upvotes"; "median_upvotes";
       "avg_comments"; "engagement_score"; "best_posting_times";
       "niche_tags"] →
  k ∉ written_keys.
Proof.
  intros Hk.
  repeat (apply elem_of_cons in Hk as [-> | Hk]);
    [..|by apply elem_of_nil in Hk]; decide_closed.
Qed.

Lemma rules_field_absent text k :
  k ∈ ["name"; "display_name"; "subscribers"; "active_users"; "created_utc";
       "is_nsfw"; "description"; "avg_upvotes"; "median_upvotes";
       "avg_comments"; "engagement_score"; "best_posting_times";
       "niche_tags"] →
  (FValue <$> Client.parseRules text) !! k = None.
Proof.
  intros Hk. rewrite lookup_fmap, client_parse_absent; [done|].
  by apply not_written.
Qed.

(** X18.  The browser infers the niche tags from the display name alone.
    [getSubreddit] returns the public description as [description];
    [inferNicheTags] reads [public_description], which that object does not
    have.  So the tags of a scraped subreddit are those of its prefixed
    display name with no description, while the description itself is
    stored. *)
Theorem client_tags_ignore_description about rules recent top saved data :
  scrape about rules recent top saved = Resolved data →
  ∃ status raw,
    about = Response status (Resolved raw)
    ∧ data !! "description" = Some (FValue (get raw "public_description"))
    ∧ data !! "niche_tags" =
      Some (FTags (inferNicheTags lowerCase
                     {| display_name := get raw "display_name_prefixed";
                        public_description := VUndefined |})).
Proof.
  intros (sub & iso & rs & Hsub & _ & _ & ->)%scrape_resolved.
  apply getSubreddit_resolved in Hsub
    as (status & raw & -> & _ & _ & Hn & Hd & _ & _ & _ & _ & Hp).
  exists status, raw. split; [done|]. split.
  - rewrite !lookup_insert_ne by done. unfold assign.
    rewrite lookup_union_r by (unfold engagement_object; by simplify_map_eq).
    rewrite lookup_union_r by (apply rules_field_absent; decide_closed).
    rewrite <- Hd. by simplify_map_eq.
  - rewrite lookup_insert_eq. unfold ClientScraper.nicheTagsOf.
    by rewrite Hn, Hp.
Qed.

(** X19.  What a successful browser scrape returns.  The seven basic
    fields are those of the about response; every field of [parseRules],
    run on the public description followed by two line feeds and the rules,
    one [short_name: description] per line, is there with its value, no
    basic field being overwritten; so are the four engagement figures, the
    best posting times and the niche tags, which are those of the prefixed
    display name. *)
Theorem scraped_object_fields about rules recent top saved data :
  scrape about rules recent top saved = Resolved data →
  ∃ status raw created_utc rs,
    about = Response status (Resolved raw)
    ∧ toISOString (get raw "created_utc") = Resolved created_utc
    ∧ getSubredditRules rules = Resolved rs
    ∧ data !! "name" = Some (FValue (get raw "display_name"))
    ∧ data !! "display_name" = Some (FValue (get raw "display_name_prefixed"))
    ∧ data !! "subscribers" = Some (FValue (get raw "subscribers"))
    ∧ data !! "active_users" = Some (FValue (get raw "active_user_count"))
    ∧ data !! "created_utc" = Some (FValue created_utc)
    ∧ data !! "is_nsfw" = Some (FValue (get raw "over18"))
    ∧ data !! "description" = Some (FValue (get raw "public_description"))
    ∧ (∀ k v,
         Client.parseRules
           (ToString (get raw "public_description") ++ [10; 10]
            ++ join [10]
                 (List.map (λ r, ToString (short_name r) ++ js ": "
                                 ++ ToString (description r)) rs)) !! k
         = Some v →
         data !! k = Some (FValue v))
    ∧ (let e := ClientScraper.calculateEngagement recent in
       data !! "avg_upvotes" = Some (FDouble (avg_upvotes e))
       ∧ data !! "median_upvotes" = Some (FMedian (median_upvotes e))
       ∧ data !! "avg_comments" = Some (FDouble (avg_comments e))
       ∧ data !! "engagement_score" = Some (FDouble (engagement_score e)))
    ∧ data !! "best_posting_times" =
      Some (FTimes (ClientScraper.analyzeBestPostingTimes LocalTZA top))
    ∧ data !! "niche_tags" =
      Some (FTags (inferNicheTags lowerCase
                     {| display_name := get raw "display_name_prefixed";
                        public_description := VUndefined |})).
Proof.
  intros (sub & iso & rs & Hsub & Hiso & Hrs & ->)%scrape_resolved.
  apply getSubreddit_resolved in Hsub
    as (status & raw & -> & _ & Hname & Hn & Hd & Hs & Ha & Hc & Ho & Hp).
  exists status, raw, iso, rs. rewrite <- Hc.
  split; [done|]. split; [done|]. split; [done|].
  assert (∀ k, k ∈ ["name"; "display_name"; "subscribers"; "active_users";
                    "created_utc"; "is_nsfw"; "description"] →
    ∀ basic : gmap string field,
    (<["niche_tags" := FTags (ClientScraper.nicheTagsOf lowerCase sub)]>
     (<["best_posting_times" :=
          FTimes (ClientScraper.analyzeBestPostingTimes LocalTZA top)]>
     (assign
        (assign basic
           (FValue <$> Client.parseRules (ClientScraper.rulesText sub rs)))
        (engagement_object (ClientScraper.calculateEngagement recent)))))
    !! k = basic !! k) as Hbasic.
  { intros k Hk basic.
    repeat (apply elem_of_cons in Hk as [-> | Hk]);
      [..|by apply elem_of_nil in Hk];
      rewrite !lookup_insert_ne by done; unfold assign;
      (rewrite lookup_union_r;
       [rewrite lookup_union_r;
        [done|apply rules_field_absent; decide_closed]
       |unfold engagement_object; by simplify_map_eq]). }
  rewrite (Hbasic "name"), (Hbasic "display_name"), (Hbasic "subscribers"),
    (Hbasic "active_users"), (Hbasic "created_utc"), (Hbasic "is_nsfw"),
    (Hbasic "description")
    by decide_closed.
  rewrite <- Hname, <- Hn, <- Hs, <- Ha, <- Ho, <- Hd.
  repeat (split; [by simplify_map_eq|]).
  split; [|split; [|split]].
  - intros k v Hk. unfold ClientScraper.rulesText in *.
    assert (k ∈ written_keys) as Hw.
    { destruct (decide (k ∈ written_keys)) as [|Hn']; [done|].
      rewrite client_parse_absent in Hk by done. done. }
    unfold written_keys in Hw.
    repeat (apply elem_of_cons in Hw as [-> | Hw]);
      [..|by apply elem_of_nil in Hw];
      rewrite !lookup_insert_ne by done; unfold assign;
      (rewrite lookup_union_r;
       [apply lookup_union_Some_l; by rewrite lookup_fmap, Hk
       |unfold engagement_object; by simplify_map_eq]).
  - cbv zeta. rewrite !lookup_insert_ne by done. unfold assign.
    unfold engagement_object. repeat split; by simplify_map_eq.
  - by simplify_map_eq.
  - rewrite lookup_insert_eq. unfold ClientScraper.nicheTagsOf.
    by rewrite Hn, Hp.
Qed.

(** X20.  When the browser's [scrapeSubreddit] fails.  It rejects with the
    error of the about request, of the formatting of the creation date or
    of the save, and resolves when these three succeed, whatever the rules
    and post requests come to; a 404 on the about request gives Subreddit
    not found. *)
Theorem scrape_fails_only_on_about_or_save about rules recent top saved :
  match scrape about rules recent top saved with
  | Rejected message =>
      getSubreddit about = Rejected message
      ∨ ∃ sub, getSubreddit about = Resolved sub
               ∧ (toISOString (get sub "created") = Rejected message
                  ∨ (∃ created_utc,
                       toISOString (get sub "created") = Resolved created_utc)
                    ∧ saved = Rejected message)
  | Resolved _ =>
      (∃ sub created_utc,
         getSubreddit about = Resolved sub
         ∧ toISOString (get sub "created") = Resolved created_utc)
      ∧ saved = Resolved tt
  end
  ∧ (∀ body, scrape (Response 404 body) rules recent top saved
             = Rejected (js "Subreddit not found")).
Proof.
  split; [|done].
  unfold ClientScraper.scrapeSubreddit.
  destruct (getSubreddit about) as [sub|m] eqn:E1; cbn [and_then try_catch];
    [|by left].
  destruct (toISOString (get sub "created")) as [iso|m] eqn:E2;
    cbn [and_then try_catch]; [|right; exists sub; by split; [|left]].
  destruct (getSubredditRules_resolved rules) as [rs ->]. cbn [and_then].
  destruct saved as [[]|m]; cbn [and_then try_catch].
  - split; [|done]. by exists sub, iso.
  - right. exists sub. split; [done|]. right. split; [by exists iso|done].
Qed.
End ScrapeProperties.

Lemma client_tags_ignore_description_witness :
  ∃ status raw,
    sample_about = Response status (Resolved raw)
    ∧ default ∅ (returned sample_scrape) !! "description"
      = Some (FValue (get raw "public_description"))
    ∧ default ∅ (returned sample_scrape) !! "niche_tags" =
      Some (FTags (inferNicheTags toLowerCase
                     {| display_name := get raw "display_name_prefixed";
                        public_description := VUndefined |})).
Proof.
  apply (client_tags_ignore_description toLowerCase (λ _, 0%Z)
           (λ v, Resolved v) sample_about
           (NetworkError (js "Failed to fetch"))
           (Response 429 (Rejected []))
           (Response 200 (Resolved None)) (Resolved tt)).
  reflexivity.
Defined.

Lemma scraped_object_fields_witness :
  let data := default ∅ (returned sample_scrape) in
  ∃ status raw created_utc rs,
    sample_about = Response status (Resolved raw)
    ∧ Resolved (get raw "created_utc") = Resolved created_utc
    ∧ getSubredditRules (NetworkError (js "Failed to fetch")) = Resolved rs
    ∧ data !! "name" = Some (FValue (get raw "display_name"))
    ∧ data !! "display_name" = Some (FValue (get raw "display_name_prefixed"))
    ∧ data !! "subscribers" = Some (FValue (get raw "subscribers"))
    ∧ data !! "active_users" = Some (FValue (get raw "active_user_count"))
    ∧ data !! "created_utc" = Some (FValue created_utc)
    ∧ data !! "is_nsfw" = Some (FValue (get raw "over18"))
    ∧ data !! "description" = Some (FValue (get raw "public_description"))
    ∧ (∀ k v,
         Client.parseRules
           (ToString (get raw "public_description") ++ [10; 10]
            ++ join [10]
                 (List.map (λ r, ToString (short_name r) ++ js ": "
                                 ++ ToString (description r)) rs)) !! k
         = Some v →
         data !! k = Some (FValue v))
    ∧ (let e := ClientScraper.calculateEngagement
                  (Response 429 (Rejected [])) in
       data !! "avg_upvotes" = Some (FDouble (avg_upvotes e))
       ∧ data !! "median_upvotes" = Some (FMedian (median_upvotes e))
       ∧ data !! "avg_comments" = Some (FDouble (avg_comments e))
       ∧ data !! "engagement_score" = Some (FDouble (engagement_score e)))
    ∧ data !! "best_posting_times" =
      Some (FTimes (ClientScraper.analyzeBestPostingTimes (λ _, 0%Z)
                      (Response 200 (Resolved None))))
    ∧ data !! "niche_tags" =
      Some (FTags (inferNicheTags toLowerCase
                     {| display_name := get raw "display_name_prefixed";
                        public_description := VUndefined |})).
Proof.
  apply (scraped_object_fields toLowerCase (λ _, 0%Z)
           (λ v, Resolved v) sample_about
           (NetworkError (js "Failed to fetch"))
           (Response 429 (Rejected []))
           (Response 200 (Resolved None)) (Resolved tt)).
  reflexivity.
Defined.

Lemma update_set_columns :
  update_set.*1 ++ kept_columns ≡ₚ insert_columns
  ∧ Forall (λ '(column, n), insert_columns !! (n - 1)%nat = Some column)
           update_set.
Proof.
  split.
  - apply (bool_decide_unpack _). vm_compute. exact I.
  - repeat constructor.
Qed.

Ltac each_column H :=
  repeat (apply elem_of_cons in H as [-> | H]);
    [..|by apply elem_of_nil in H].

Ltac each_assignment H :=
  repeat (apply elem_of_cons in H as [[= -> ->] | H]);
    [..|by apply elem_of_nil in H].

Lemma insert_fills (now : cell) (data : gmap string field) column :
  column ∈ insert_columns →
  saveToDatabase None now data !! column =
  Some (if decide (column = "best_posting_times")
        then stringify (data !! column) else to_param (data !! column)).
Proof.
  intros H. unfold insert_columns in H. unfold saveToDatabase.
  each_column H; by simplify_map_eq.
Qed.

Lemma assignments_other (ps : list cell) (l : list (string * nat))
    (row : gmap string cell) column :
  column ∉ l.*1 →
  foldr (λ '(column, n) row, <[column := placeholder ps n]> row) row l
    !! column = row !! column.
Proof.
  induction l as [|[c n] l IH]; [done|]. simpl.
  intros [Hc Hl]%not_elem_of_cons.
  rewrite lookup_insert_ne by done. by apply IH.
Qed.

Lemma assignments_lookup (ps : list cell) (l : list (string * nat))
    (row : gmap string cell) column n :
  NoDup l.*1 → (column, n) ∈ l →
  foldr (λ '(column, n) row, <[column := placeholder ps n]> row) row l
    !! column = Some (placeholder ps n).
Proof.
  induction l as [|[c m] l IH]; simpl; [by intros _ ?%elem_of_nil|].
  intros [Hc Hl]%NoDup_cons [[= -> ->]|Hin]%elem_of_cons.
  - by rewrite lookup_insert_eq.
  - rewrite lookup_insert_ne; [by apply IH|].
    intros ->. apply Hc. apply list_elem_of_fmap. by exists (column, n).
Qed.

Lemma update_keeps (row : gmap string cell) now data column :
  column ∈ kept_columns →
  saveToDatabase (Some row) now data !! column = row !! column.
Proof.
  intros H. unfold kept_columns in H. unfold saveToDatabase. cbv zeta.
  each_column H; rewrite !lookup_insert_ne by done;
    apply assignments_other; apply (bool_decide_unpack _); vm_compute;
    exact I.
Qed.

Lemma update_refreshes (row : gmap string cell) now data column n :
  (column, n) ∈ update_set →
  saveToDatabase (Some row) now data !! column =
  Some (placeholder (parameters data) n).
Proof.
  intros H. unfold saveToDatabase. cbv zeta.
  assert (column ≠ "updated_at" ∧ column ≠ "last_scraped") as [??].
  { unfold update_set in H. each_assignment H; done. }
  rewrite !lookup_insert_ne by done.
  apply assignments_lookup; [|done].
  apply (bool_decide_unpack _). vm_compute. exact I.
Qed.

Lemma insert_fills_placeholder (now : cell) (data : gmap string field)
    column n :
  (column, n) ∈ update_set →
  saveToDatabase None now data !! column =
  Some (placeholder (parameters data) n).
Proof.
  intros H. unfold update_set in H. unfold saveToDatabase.
  each_assignment H; by simplify_map_eq.
Qed.

(** X21.  What a second scrape writes.  Every column of the INSERT is
    either assigned by DO UPDATE SET or kept; the kept ones, among them
    [allows_links_in_profile_only], still hold what the first scrape
    inserted, the assigned ones what an insert of the second scrape would
    hold, and [last_scraped] is the time of the second. *)
Theorem rescrape_keeps_first_values (now1 now2 : cell)
    (data1 data2 : gmap string field) :
  let first := saveToDatabase None now1 data1 in
  let second := saveToDatabase (Some first) now2 data2 in
  update_set.*1 ++ kept_columns ≡ₚ insert_columns
  ∧ (∀ column, column ∈ kept_columns → second !! column = first !! column)
  ∧ (∀ column, column ∈ update_set.*1 →
       second !! column = saveToDatabase None now2 data2 !! column)
  ∧ second !! "allows_links_in_profile_only"
    = Some (to_param (data1 !! "allows_links_in_profile_only"))
  ∧ second !! "allows_links_in_post"
    = Some (to_param (data2 !! "allows_links_in_post"))
  ∧ second !! "last_scraped" = Some now2.
Proof.
  cbv zeta. split; [apply update_set_columns|].
  split; [intros column; apply update_keeps|].
  split; [|split; [|split]].
  - intros column ([c n] & -> & H)%list_elem_of_fmap. cbn [fst].
    rewrite (update_refreshes _ _ _ _ n H).
    by rewrite (insert_fills_placeholder _ _ _ n H).
  - rewrite update_keeps by (apply (bool_decide_unpack _); vm_compute; exact I).
    by rewrite insert_fills
      by (apply (bool_decide_unpack _); vm_compute; exact I).
  - by rewrite (update_refreshes _ _ _ _ 20)
      by (apply (bool_decide_unpack _); vm_compute; exact I).
  - unfold saveToDatabase. cbv zeta. rewrite lookup_insert_ne by done.
    by rewrite lookup_insert_eq.
Qed.

Lemma split_on_pieces sep s :
  Forall (λ piece, sep ∉ piece) (split_on sep s).
Proof.
  induction s as [|c s IH]; simpl.
  - repeat constructor. apply not_elem_of_nil.
  - destruct (c =? sep) eqn:E.
    + constructor; [apply not_elem_of_nil | done].
    + apply N.eqb_neq in E.
      destruct (split_on sep s) as [|w ws]; [repeat constructor|].
      * by intros [->|?%elem_of_nil]%elem_of_cons.
      * apply Forall_cons in IH as [Hw Hws]. constructor; [|done].
        by intros [->|?]%elem_of_cons.
Qed.

Lemma List_filter_sublist {A} (P : A → bool) (l : list A) :
  List.filter P l `sublist_of` l.
Proof.
  induction l as [|x l IH]; simpl; [constructor|].
  destruct (P x); by constructor.
Qed.

Lemma List_filter_filter {A} (P Q : A → bool) (l : list A) :
  List.filter Q (List.filter P l) = List.filter (λ x, P x && Q x) l.
Proof.
  induction l as [|x l IH]; simpl; [done|].
  destruct (P x); simpl; [|done]. destruct (Q x); by rewrite IH.
Qed.

Section ScriptProperties.
Context {World Data : Type}.
Variable scrapeSubreddit : jsstring → World → outcome Data * World.
Variable wait : Z → World → World.
Variable isNSFW : jsstring → outcome bool.

(** The filter keeps the lines that [isNSFW] accepts, and throws exactly
    when a call of [isNSFW] does. *)
Lemma filterNSFW_resolved lines kept :
  filterNSFW isNSFW lines = Resolved kept →
  kept = List.filter (accepted isNSFW) lines
  ∧ Forall (λ line, ∃ keep, isNSFW line = Resolved keep) lines.
Proof.
  revert kept. induction lines as [|line rest IH]; simpl; intros kept.
  - intros [= <-]. by split.
  - unfold accepted.
    destruct (isNSFW line) as [keep|m] eqn:E; [|done]. cbn [and_then].
    destruct (filterNSFW isNSFW rest) as [kept'|m]; [|done]. cbn [and_then].
    intros [= <-]. destruct (IH kept' eq_refl) as [-> Hall].
    split; [by destruct keep|]. constructor; [by exists keep | done].
Qed.

Lemma filterNSFW_total lines :
  Forall (λ line, ∃ keep, isNSFW line = Resolved keep) lines →
  ∃ kept, filterNSFW isNSFW lines = Resolved kept.
Proof.
  induction 1 as [|line rest [keep Hk] _ [kept IH]]; simpl; [by eexists|].
  rewrite Hk, IH. cbn [and_then]. by eexists.
Qed.

(** X22.  The batch script.  It exits with code 0 exactly when the list is
    fetched, no call of [isNSFW] on a non-empty line throws and the scraper
    is constructed; otherwise it exits with code 1 and scrapes nothing.
    The names it scrapes are the first 50 of the non-empty lines that
    [isNSFW] accepts, in the order of the list; it scrapes exactly these,
    with a wait of 3000 between each two, whatever the scrapes do. *)
Theorem script_scrapes_at_most_50 (fetched : outcome jsstring)
    (constructed : outcome unit) (w : World) :
  let out := scrapeFromNodeIds scrapeSubreddit wait isNSFW fetched
               constructed w in
  (out.1 = 0 ∨ out = (1, []))
  ∧ (out.1 = 0 ↔
     ∃ text, fetched = Resolved text
       ∧ constructed = Resolved tt
       ∧ ∀ line, line ∈ split_on 10 text → line ≠ [] →
                 ∃ keep, isNSFW line = Resolved keep)
  ∧ (∀ text names,
       fetched = Resolved text →
       subredditsToScrape isNSFW text = Resolved names →
       names = take 50 (List.filter
                          (λ line, truthy (VStr line) && accepted isNSFW line)
                          (split_on 10 text))
       ∧ (length names ≤ 50)%nat
       ∧ Forall (λ name, name ≠ [] ∧ ¬ (10 ∈ name)
                         ∧ isNSFW name = Resolved true) names
       ∧ (constructed = Resolved tt →
          ∃ tr, out = (0, tr)
                ∧ scrapes tr = names
                ∧ sleeps tr = replicate (length names - 1) 3000%Z)).
Proof.
  cbv zeta.
  set (lines text := List.filter (λ line, truthy (VStr line))
                                 (split_on 10 text)).
  assert (Hall : ∀ text,
            Forall (λ line, ∃ keep, isNSFW line = Resolved keep) (lines text)
            ↔ ∀ line, line ∈ split_on 10 text → line ≠ [] →
                      ∃ keep, isNSFW line = Resolved keep).
  { intros text. rewrite Forall_forall. unfold lines. split.
    - intros H line Hin Hne. apply H, list_elem_of_In, filter_In.
      split; [by apply list_elem_of_In | by destruct line].
    - intros H line [Hin Ht]%list_elem_of_In%filter_In.
      apply H; [by apply list_elem_of_In | by destruct line]. }
  assert (Hrun : ∀ names, ∃ results,
            result (server_scrapeMultiple scrapeSubreddit wait names
                      (Some 3000%Z) w) = Resolved results
            ∧ scrapes (trace (server_scrapeMultiple scrapeSubreddit wait names
                                (Some 3000%Z) w)) = names
            ∧ sleeps (trace (server_scrapeMultiple scrapeSubreddit wait names
                               (Some 3000%Z) w))
              = replicate (length names - 1) 3000%Z).
  { intros names.
    destruct (server_loop_results scrapeSubreddit wait (length names) 3000%Z
                names 0%nat w {| success := []; failed := [] |} [])
      as (b' & Hr & _).
    unfold server_scrapeMultiple. simpl default. rewrite Hr.
    eexists. split; [done|].
    rewrite server_loop_trace by (simpl; lia). simpl.
    by rewrite scrapes_separated, sleeps_separated. }
  unfold scrapeFromNodeIds, subredditsToScrape. cbv zeta.
  split; [|split].
  - destruct fetched as [text|m]; cbn [and_then]; [|by right].
    destruct (filterNSFW isNSFW _) as [kept|m]; cbn [and_then]; [|by right].
    destruct constructed as [[]|m]; [|by right].
    destruct (Hrun (take 50 kept)) as (res & -> & _). by left.
  - destruct fetched as [text|m]; cbn [and_then];
      [|split; [done | by intros (? & ? & _)]].
    fold (lines text).
    destruct (filterNSFW isNSFW (lines text)) as [kept|m] eqn:E;
      cbn [and_then].
    + apply filterNSFW_resolved in E as [_ Hk].
      pose proof (proj1 (Hall text) Hk) as Hk'.
      destruct constructed as [[]|m].
      * destruct (Hrun (take 50 kept)) as (res & -> & _).
        split; [|done]. intros _. by exists text.
      * split; [done | by intros (? & _ & ? & _)].
    + split; [done|]. intros (text' & [= <-] & _ & Hk).
      destruct (filterNSFW_total _ (proj2 (Hall text) Hk)) as [kept Hkept].
      congruence.
  - intros text names -> Hn. cbn [and_then]. fold (lines text) in Hn |- *.
    destruct (filterNSFW isNSFW (lines text)) as [kept|m] eqn:E; [|done].
    cbn [and_then] in Hn |- *. injection Hn as <-.
    apply filterNSFW_resolved in E as [-> _].
    unfold lines. rewrite List_filter_filter.
    split; [done|]. split; [rewrite length_take; lia|]. split.
    + apply Forall_take, Forall_forall. intros name Hin.
      apply list_elem_of_In, filter_In in Hin as [Hin Hn].
      apply andb_true_iff in Hn as [Ht Ha].
      split; [by destruct name|]. split.
      * pose proof (split_on_pieces 10 text) as Hp.
        rewrite Forall_forall in Hp. by apply Hp, list_elem_of_In.
      * unfold accepted in Ha. by destruct (isNSFW name) as [[]|].
    + intros ->.
      destruct (Hrun (take 50 (List.filter
                  (λ line, truthy (VStr line) && accepted isNSFW line)
                  (split_on 10 text)))) as (res & -> & Hs & Hl).
      by eexists.
Qed.
End ScriptProperties.

(** X23.  The karma minimum is null exactly when none of the parser's karma
    patterns occurs in the text.  Otherwise it is the Number that
    [parseInt] makes of the digits captured: the integer they denote when
    that is below 2^53, and always an integer or Infinity, never NaN.  When
    the first pattern occurs the two parsers find the same Number. *)
Theorem karma_minimum_is_null_or_number text flairs :
  let server := get (Server.parseRulesText text flairs) "min_karma" in
  let client := get (Client.parseRules text) "min_karma" in
  (server = VNull ↔ ∀ p, p ∈ karmaPatterns → ¬ occurs_in p text)
  ∧ (client = VNull ↔ ¬ occurs_in re_karma_count text)
  ∧ (∀ m, first_match karmaPatterns text = Some m →
       ∃ ds, m !! 1%nat = Some ds ∧ is_number_text ds = true
             ∧ server = number_of (parse_digits 0 ds)
             ∧ (parse_digits 0 ds < 2 ^ 53 →
                server = VNum (parse_digits 0 ds)))
  ∧ (∀ m, exec re_karma_count text = Some m →
       ∃ ds, m !! 1%nat = Some ds ∧ is_number_text ds = true
             ∧ client = number_of (parse_digits 0 ds)
             ∧ (parse_digits 0 ds < 2 ^ 53 →
                client = VNum (parse_digits 0 ds)))
  ∧ (server = VNull ∨ server = VInfinity ∨ ∃ karma, server = VNum karma)
  ∧ (client = VNull ∨ client = VInfinity ∨ ∃ karma, client = VNum karma)
  ∧ (occurs_in re_karma_count text → server = client ∧ client ≠ VNull).
Proof.
  cbv zeta. rewrite server_min_karma, client_min_karma.
  assert (∀ p, p ∈ karmaPatterns → p ∈ karmaPatterns ++ agePatterns) as Hs
    by (intros p Hp; apply elem_of_app; by left).
  assert (∀ p, p ∈ [re_karma_count] → p ∈ karmaPatterns ++ agePatterns) as Hc.
  { intros p ->%list_elem_of_singleton. apply elem_of_app; left; left. }
  assert (first_captured_integer [re_karma_count] text = VNull
          ↔ ¬ occurs_in re_karma_count text) as Hnull.
  { rewrite (first_captured_integer_null _ text Hc). split.
    - intros H. apply H. left.
    - by intros H p ->%list_elem_of_singleton. }
  split; [by apply first_captured_integer_null|].
  split; [done|].
  split; [intros m Hm; by apply first_match_capture|].
  split.
  { intros m Hm. apply first_match_capture; [done|].
    cbn [first_match]. by rewrite Hm. }
  split; [by apply first_captured_integer_shape|].
  split; [by apply first_captured_integer_shape|].
  intros Ho.
  assert (Hk : first_captured_integer [re_karma_count] text ≠ VNull)
    by (intros Hn; by apply Hnull in Hn).
  split; [|done].
  change karmaPatterns with (re_karma_count :: [re_karma_then; re_karma_minimum]).
  by rewrite first_captured_integer_head.
Qed.

Lemma elem_of_first_seen l x : x ∈ first_seen l ↔ x ∈ l.
Proof.
  induction l as [|y l IH]; simpl; [done|].
  rewrite !elem_of_cons, list_elem_of_In, filter_In, <- list_elem_of_In, IH.
  rewrite negb_true_iff, bool_decide_eq_false.
  destruct (decide (x = y)); tauto.
Qed.

Lemma first_seen_snoc l x :
  first_seen (l ++ [x]) =
  if decide (x ∈ l) then first_seen l else first_seen l ++ [x].
Proof.
  induction l as [|y l IH]; simpl; [done|]. rewrite IH.
  destruct (decide (x ∈ l)) as [Hin|Hin].
  - by rewrite decide_True by (by right).
  - rewrite List.filter_app. simpl.
    destruct (decide (x = y)) as [->|Hne].
    + rewrite decide_True by (by left).
      rewrite bool_decide_true by done. simpl. by rewrite app_nil_r.
    + rewrite decide_False by (by intros [?|?]%elem_of_cons).
      by rewrite bool_decide_false by done.
Qed.

Lemma first_seen_fmap (h : jsstring → jsstring) l :
  first_seen (h <$> first_seen l) = first_seen (h <$> l).
Proof.
  induction l as [|x l IH] using rev_ind; [done|].
  rewrite first_seen_snoc, fmap_app. simpl. rewrite first_seen_snoc.
  destruct (decide (x ∈ l)) as [Hin|Hin].
  - rewrite IH. rewrite decide_True; [done|].
    apply list_elem_of_fmap. by exists x.
  - rewrite fmap_app. simpl. rewrite first_seen_snoc, IH.
    destruct (decide (h x ∈ h <$> l)) as [Hh|Hh].
    + rewrite decide_True; [done|].
      apply list_elem_of_fmap in Hh as (y & Hy & Hin').
      apply list_elem_of_fmap. exists y. split; [done|].
      by apply elem_of_first_seen.
    + rewrite decide_False; [done|].
      intros (y & Hy & Hin')%list_elem_of_fmap. apply Hh.
      apply list_elem_of_fmap. exists y. split; [done|].
      by apply elem_of_first_seen.
Qed.

Lemma grouped_keys {A B} (f : A → jsstring) (g : A → B) l :
  (grouped f g l).*1 = first_seen (f <$> l).
Proof.
  induction l as [|a l IH] using rev_ind; [done|].
  rewrite grouped_snoc, fmap_app. simpl. rewrite first_seen_snoc.
  change (List.map fst (obj_push (f a) (g a) (grouped f g l))
          = if decide (f a ∈ f <$> l) then first_seen (f <$> l)
            else first_seen (f <$> l) ++ [f a]).
  rewrite obj_push_keys.
  change (List.map fst (grouped f g l)) with ((grouped f g l).*1).
  rewrite IH.
  destruct (decide (f a ∈ f <$> l)) as [Hin|Hin].
  - rewrite decide_True; [done|]. by apply elem_of_first_seen.
  - rewrite decide_False; [done|]. by rewrite elem_of_first_seen.
Qed.

Lemma dayOfPost_slotDay LocalTZA p :
  dayOfPost LocalTZA p = slotDay (postTime LocalTZA p).
Proof.
  destruct (postTime LocalTZA p) as [[d h]|] eqn:E.
  - pose proof (postTime_valid LocalTZA p) as Hv. rewrite E in Hv.
    destruct Hv as [Hd _].
    apply postTime_Some in E as [Hday _].
    unfold dayOfPost, dayOfDate. rewrite Hday. cbn [slotDay].
    destruct (lookup_lt_is_Some_2 dayNames d) as [day ->]; [simpl; lia|].
    reflexivity.
  - apply postTime_None in E.
    unfold dayOfPost, dayOfDate, getDay. by rewrite E.
Qed.

(** X24.  The keys of the best posting times come in the order in which
    the sample first has a post for them: the keys of either analyzer's
    mapping are the days of the posts, each once, by first occurrence.  The
    day of a post is the name of its local weekday, and "undefined" when
    its time stamp is no valid date. *)
Theorem days_in_order_of_first_post (LocalTZA : Z → Z)
    (fetched : option (list post)) :
  let days := first_seen (dayOfPost LocalTZA <$> default [] fetched) in
  (Server.analyzeBestPostingTimes LocalTZA fetched).*1 = days
  ∧ (Client.analyzeBestPostingTimes LocalTZA fetched).*1 = days
  ∧ (∀ p, match getDay LocalTZA (created_utc p) with
          | Some d => dayNames !! d = Some (dayOfPost LocalTZA p)
          | None => timeValue (created_utc p) = None
                    ∧ dayOfPost LocalTZA p = js "undefined"
          end).
Proof.
  cbv zeta.
  assert (Hday : ∀ p, match getDay LocalTZA (created_utc p) with
                      | Some d => dayNames !! d = Some (dayOfPost LocalTZA p)
                      | None => timeValue (created_utc p) = None
                                ∧ dayOfPost LocalTZA p = js "undefined"
                      end).
  { intros p. unfold dayOfPost, dayOfDate.
    destruct (getDay LocalTZA (created_utc p)) as [d|] eqn:E.
    - apply getDay_lt in E.
      destruct (lookup_lt_is_Some_2 dayNames d) as [day ->]; [simpl; lia|].
      reflexivity.
    - split; [|done]. unfold getDay in E.
      by destruct (timeValue (created_utc p)). }
  assert (Hkeys : ∀ best,
            best = Server.analyzeBestPostingTimes LocalTZA fetched
            ∨ best = Client.analyzeBestPostingTimes LocalTZA fetched →
            best.*1 = first_seen (dayOfPost LocalTZA <$> default [] fetched)).
  { intros best ->%analyze_both.
    set (posts := default [] fetched).
    rewrite keepTop3_keys, bestHoursPerDay_grouped, grouped_keys.
    change (performanceByTime LocalTZA posts)
      with (grouped (timeKey LocalTZA) score posts).
    assert (entry_day <$> grouped (timeKey LocalTZA) score posts
            = (λ k, entry_day (k, []))
              <$> (grouped (timeKey LocalTZA) score posts).*1)
      as -> by (by rewrite <- list_fmap_compose).
    rewrite grouped_keys, first_seen_fmap, <- list_fmap_compose.
    f_equal. apply list_fmap_ext. intros i p _. simpl.
    rewrite timeKey_slotKey, dayOfPost_slotDay.
    by destruct (entry_decode _ [] (postTime_valid LocalTZA p)). }
  split; [apply Hkeys; by left|].
  split; [apply Hkeys; by right | exact Hday].
Qed.

Lemma server_parse_absent text flairs k :
  k ∈ ["name"; "display_name"; "subscribers"; "active_users"; "created_utc";
       "is_nsfw"; "description"; "avg_upvotes"; "median_upvotes";
       "avg_comments"; "engagement_score"; "best_posting_times";
       "niche_tags"] →
  (FValue <$> Server.parseRulesText text flairs) !! k = None.
Proof.
  intros Hk. rewrite lookup_fmap, server_untouched by (by apply not_written).
  repeat (apply elem_of_cons in Hk as [-> | Hk]);
    [..|by apply elem_of_nil in Hk]; done.
Qed.

Section ServerScrapeProperties.
Variable lowerCase : jsstring → jsstring.
Variable LocalTZA : Z → Z.

(** X25.  The server's [scrapeSubreddit].  It rejects with the error of
    the fetch or of the save and with no other.  The object it resolves
    with stores the public description as [description], while
    [rules_raw] is the text made from the sidebar; it holds every field of
    [parseRules] with its value, and the tags inferred from the display
    name and the public description. *)
Theorem server_scrape_outcome (fetched : outcome ServerScraper.fetched_subreddit)
    (saved : outcome unit) :
  match ServerScraper.scrapeSubreddit lowerCase LocalTZA fetched saved with
  | Rejected message =>
      fetched = Rejected message
      ∨ (∃ sub, fetched = Resolved sub) ∧ saved = Rejected message
  | Resolved data =>
      ∃ sub, fetched = Resolved sub ∧ saved = Resolved tt
        ∧ let p := ServerScraper.props sub in
          data !! "name" = Some (FValue (get p "display_name"))
          ∧ data !! "description" = Some (FValue (get p "public_description"))
          ∧ data !! "rules_raw" =
            Some (FValue (VStr (Server.rulesTextOf
                                  (ServerScraper.rulesSource sub))))
          ∧ (∀ k v, Server.parseRules (ServerScraper.rulesSource sub) !! k
                    = Some v →
                    data !! k = Some (FValue v))
          ∧ data !! "niche_tags" =
            Some (FTags (inferNicheTags lowerCase
                           {| display_name := get p "display_name";
                              public_description :=
                                get p "public_description" |}))
  end.
Proof.
  unfold ServerScraper.scrapeSubreddit.
  destruct fetched as [sub|m]; cbn [and_then try_catch]; [|by left].
  destruct saved as [[]|m]; cbn [and_then try_catch];
    [|right; split; [by exists sub|done]].
  exists sub. split; [done|]. split; [done|]. cbv zeta.
  assert (∀ k v, Server.parseRules (ServerScraper.rulesSource sub) !! k
                 = Some v →
    (<["niche_tags" :=
         FTags (inferNicheTags lowerCase
                  {| display_name := get (ServerScraper.props sub) "display_name";
                     public_description :=
                       get (ServerScraper.props sub) "public_description" |})]>
     (<["best_posting_times" :=
          FTimes (Server.analyzeBestPostingTimes LocalTZA
                    (ServerScraper.getTop sub))]>
     (assign
        (assign
           (<["name" := FValue (get (ServerScraper.props sub) "display_name")]>
           (<["display_name" :=
                FValue (get (ServerScraper.props sub) "display_name_prefixed")]>
           (<["subscribers" :=
                FValue (get (ServerScraper.props sub) "subscribers")]>
           (<["active_users" :=
                FValue (get (ServerScraper.props sub) "accounts_active")]>
           (<["created_utc" :=
                FDate (get (ServerScraper.props sub) "created_utc")]>
           (<["is_nsfw" := FValue (get (ServerScraper.props sub) "over18")]>
           (<["description" :=
                FValue (get (ServerScraper.props sub) "public_description")]>
              ∅)))))))
           (FValue <$> Server.parseRules (ServerScraper.rulesSource sub)))
        (engagement_object
           (Server.calculateEngagement (ServerScraper.getHot sub))))))
    !! k = Some (FValue v)) as Hrules.
  { intros k v Hk.
    assert (k ∈ server_keys ∨ k = "allows_links_in_profile_only") as Hw.
    { assert (is_Some (Server.parseRules (ServerScraper.rulesSource sub) !! k))
        as Hs by (by eexists).
      unfold Server.parseRules in Hs.
      rewrite <- elem_of_dom, dom_server_parse, dom_server_initial in Hs.
      rewrite !elem_of_union, !elem_of_singleton, elem_of_list_to_set in Hs.
      unfold server_keys. rewrite elem_of_app, !elem_of_cons, elem_of_nil.
      destruct (test re_profile_links _);
        rewrite ?elem_of_singleton, ?elem_of_empty in Hs; intuition. }
    unfold server_keys, server_initial_keys in Hw.
    rewrite elem_of_app in Hw.
    destruct Hw as [[Hw | Hw] | ->];
      [repeat (apply elem_of_cons in Hw as [-> | Hw]);
         [..|by apply elem_of_nil in Hw]
      |repeat (apply elem_of_cons in Hw as [-> | Hw]);
         [..|by apply elem_of_nil in Hw]
      |];
      rewrite !lookup_insert_ne by done; unfold assign;
      (rewrite lookup_union_r;
       [apply lookup_union_Some_l; by rewrite lookup_fmap, Hk
       |unfold engagement_object; by simplify_map_eq]). }
  split; [|split; [|split; [|split]]].
  - rewrite !lookup_insert_ne by done. unfold assign.
    rewrite lookup_union_r by (unfold engagement_object; by simplify_map_eq).
    rewrite lookup_union_r
      by (apply server_parse_absent; apply (bool_decide_unpack _);
          vm_compute; exact I).
    by simplify_map_eq.
  - rewrite !lookup_insert_ne by done. unfold assign.
    rewrite lookup_union_r by (unfold engagement_object; by simplify_map_eq).
    rewrite lookup_union_r
      by (apply server_parse_absent; apply (bool_decide_unpack _);
          vm_compute; exact I).
    by simplify_map_eq.
  - apply Hrules. unfold Server.parseRules, Server.parseRulesText. cbv zeta.
    rewrite lookup_insert_ne by done. by rewrite lookup_insert_eq.
  - exact Hrules.
  - by rewrite lookup_insert_eq.
Qed.
End ServerScrapeProperties.

Lemma cluster_bonus_sym (a b : value) :
  truthy a && strict_eq a b = truthy b && strict_eq b a.
Proof.
  destruct a as [| |x|x| | |s|l], b as [| |y|y| | |t|l']; simpl; try done;
    rewrite ?andb_false_r; try done.
  - by destruct x, y.
  - destruct (x =? y) eqn:E.
    + apply N.eqb_eq in E as ->. by rewrite N.eqb_refl.
    + rewrite (N.eqb_sym y x), E. by rewrite !andb_false_r.
  - case_bool_decide as E.
    + subst. by rewrite bool_decide_true.
    + rewrite bool_decide_false by congruence. by rewrite !andb_false_r.
Qed.

Lemma shared_count_sym (l1 l2 : list jsstring) :
  NoDup l1 → NoDup l2 →
  length (List.filter (λ t, bool_decide (t ∈ l2)) l1)
  = length (List.filter (λ t, bool_decide (t ∈ l1)) l2).
Proof.
  intros H1 H2. apply Permutation_length, NoDup_Permutation.
  - apply NoDup_ListNoDup, List.NoDup_filter. by apply NoDup_ListNoDup.
  - apply NoDup_ListNoDup, List.NoDup_filter. by apply NoDup_ListNoDup.
  - intros t. rewrite !list_elem_of_In, !filter_In, <- !list_elem_of_In.
    rewrite !bool_decide_eq_true. tauto.
Qed.

Lemma binary_round_abs s m e :
  SFabs (binary_round 53 1024 s m e) = SFabs (binary_round 53 1024 (negb s) m e).
Proof.
  unfold binary_round, binary_round_aux.
  destruct (shl_align _ _ _) as [mz ez].
  destruct (shr_fexp _ _ _ _ _) as [mrs' e'].
  destruct (shr_fexp _ _ _ _ _) as [mrs'' e''].
  destruct (shr_m mrs''); [done| |done].
  by destruct (_ <=? _)%Z.
Qed.

Lemma binary_normalize_abs m e :
  SFabs (binary_normalize 53 1024 m e false)
  = SFabs (binary_normalize 53 1024 (- m) e false).
Proof.
  destruct m as [|p|p]; simpl; [done|..].
  - apply (binary_round_abs false).
  - apply (binary_round_abs true).
Qed.

Lemma dabs_dsub_sym (x y : double) : dabs (dsub x y) = dabs (dsub y x).
Proof.
  unfold dabs, dsub.
  destruct x as [sx|sx| |sx mx ex], y as [sy|sy| |sy my ey]; simpl; try done;
    try (by destruct sx, sy).
  rewrite (Z.min_comm ey ex).
  rewrite binary_normalize_abs. f_equal. f_equal. lia.
Qed.

(** X26.  [calculateSimilarity] is symmetric on subreddits whose tag
    lists hold no tag twice, as those of the inferencer do: it returns the
    same double for the two orders of its arguments. *)
Theorem similarity_is_symmetric (sub1 sub2 : DataService.stored) :
  NoDup (default [] (DataService.niche_tags sub1)) →
  NoDup (default [] (DataService.niche_tags sub2)) →
  DataService.calculateSimilarity sub1 sub2
  = DataService.calculateSimilarity sub2 sub1.
Proof.
  intros H1 H2. unfold DataService.calculateSimilarity. cbv zeta.
  rewrite (cluster_bonus_sym (DataService.cluster_id sub1)).
  rewrite (shared_count_sym _ _ H1 H2).
  by rewrite (dabs_dsub_sym (DataService.or_zero _)).
Qed.

Lemma similarity_is_symmetric_witness :
  let a := {| DataService.cluster_id := VUndefined;
              DataService.niche_tags := Some [js "feet"; js "petite"];
              DataService.engagement_score := Some (of_int 120) |} in
  let b := {| DataService.cluster_id := VUndefined;
              DataService.niche_tags := Some [js "petite"];
              DataService.engagement_score := None |} in
  DataService.calculateSimilarity a b = DataService.calculateSimilarity b a.
Proof.
  apply similarity_is_symmetric; apply (bool_decide_unpack _); vm_compute;
    exact I.
Defined.

(** X27.  The browser's store keeps the last save.  After two saves of
    subreddits of one name, [getSubreddit] returns the second object with
    its [last_scraped], nothing of the first being left, and the records
    of other names are as before.  [getSetting] returns what [saveSetting]
    saved under the key, the default only for a key never saved, and a
    save changes no other key. *)
Theorem store_keeps_the_last_save (now1 now2 : value)
    (first second : gmap string field) (name : jsstring)
    (s : LocalDatabase.store) :
  first !! "name" = Some (FValue (VStr name)) →
  second !! "name" = Some (FValue (VStr name)) →
  ∃ s1 s2,
    LocalDatabase.saveSubreddit now1 first s = Some s1
    ∧ LocalDatabase.saveSubreddit now2 second s1 = Some s2
    ∧ LocalDatabase.getSubreddit name s1
      = Some (<["last_scraped" := FValue now1]> first)
    ∧ LocalDatabase.getSubreddit name s2
      = Some (<["last_scraped" := FValue now2]> second)
    ∧ (∀ other, other ≠ name →
         LocalDatabase.getSubreddit other s2
         = LocalDatabase.getSubreddit other s)
    ∧ (∀ key value fallback other,
         LocalDatabase.getSetting key fallback
           (LocalDatabase.saveSetting key value s) = value
         ∧ (other ≠ key →
            LocalDatabase.getSetting other fallback
              (LocalDatabase.saveSetting key value s)
            = LocalDatabase.getSetting other fallback s)
         ∧ (LocalDatabase.get key s = None →
            LocalDatabase.getSetting key fallback s = fallback)).
Proof.
  intros H1 H2. unfold LocalDatabase.saveSubreddit. rewrite H1, H2.
  eexists _, _. split; [done|]. split; [done|].
  unfold LocalDatabase.getSubreddit, LocalDatabase.get, LocalDatabase.put.
  split; [by rewrite lookup_insert_eq|].
  split; [by rewrite lookup_insert_eq|].
  split.
  - intros other Hne. by rewrite !lookup_insert_ne.
  - intros key value fallback other.
    unfold LocalDatabase.getSetting, LocalDatabase.saveSetting,
      LocalDatabase.get, LocalDatabase.put.
    split; [|split].
    + rewrite lookup_insert_eq. by simplify_map_eq.
    + intros Hne. by rewrite lookup_insert_ne.
    + by intros ->.
Qed.

Lemma store_keeps_the_last_save_witness :
  let first : gmap string field :=
    <["name" := FValue (VStr (js "pics"))]>
      (<["allows_links_in_profile_only" := FValue (VBool true)]> ∅) in
  let second : gmap string field :=
    <["name" := FValue (VStr (js "pics"))]> ∅ in
  ∃ s2,
    LocalDatabase.saveSubreddit (VNum 2) second
      (default ∅ (LocalDatabase.saveSubreddit (VNum 1) first ∅)) = Some s2
    ∧ LocalDatabase.getSubreddit (js "pics") s2
      = Some (<["last_scraped" := FValue (VNum 2)]> second).
Proof.
  cbv zeta.
  destruct (store_keeps_the_last_save (VNum 1) (VNum 2)
              (<["name" := FValue (VStr (js "pics"))]>
                 (<["allows_links_in_profile_only" := FValue (VBool true)]> ∅))
              (<["name" := FValue (VStr (js "pics"))]> ∅)
              (js "pics") ∅)
    as (s1 & s2 & E1 & E2 & _ & G2 & _); [vm_compute; reflexivity..|].
  exists s2. rewrite E1. simpl. by split.
Defined.

Section RouteProperties.
Variable parseInt : value → value.
Import SubredditsRoute.

Ltac by_cases q :=
  destruct (truthy (niche q)), (truthy (minSubscribers q)),
    (truthy (maxKarma q)), (truthy (maxAge q)),
    (is_undefined (requiresVerification q)), (truthy (search q)).

(** X28.  The statement of the listing route.  Its placeholders are $1 to
    $n in order, n being the number of its parameters, which are one per
    filter asked for followed by the limit and the offset; and its text is
    the same for any two requests that ask for the same filters, whatever
    their values. *)
Theorem list_query_placeholders q :
  let sql := (listQuery parseInt q).1 in
  let ps := (listQuery parseInt q).2 in
  placeholders sql = N.of_nat <$> seq 1 (length ps)
  ∧ length ps = (count_true (asked q) + 2)%nat
  ∧ drop (count_true (asked q)) ps
    = [parseInt (or_default (limit q) (VNum 100));
       parseInt (or_default (offset q) (VNum 0))]
  ∧ (∀ parseInt' q', asked q' = asked q → (listQuery parseInt' q').1 = sql).
Proof.
  cbv zeta. split; [|split; [|split]].
  - unfold listQuery, filters. by_cases q; vm_compute; reflexivity.
  - unfold listQuery, filters, asked, count_true.
    by_cases q; vm_compute; reflexivity.
  - unfold listQuery, filters, asked, count_true.
    by_cases q; vm_compute; reflexivity.
  - intros parseInt' q' H. unfold asked in H.
    injection H as H1 H2 H3 H4 H5 H6.
    apply (f_equal negb) in H5. rewrite !negb_involutive in H5.
    unfold listQuery, filters. rewrite H1, H2, H3, H4, H5, H6.
    by_cases q; vm_compute; reflexivity.
Qed.

(** X29.  The count statement of the listing route.  Its placeholders are
    $1 to $m, m counting the niche and subscriber filters asked for; its
    parameters are those of the listing statement without the last two,
    one per filter asked for.  There are as many placeholders as
    parameters exactly when no other filter is asked for. *)
Theorem count_query_placeholders q :
  let sql := (countQuery parseInt q).1 in
  let ps := (countQuery parseInt q).2 in
  placeholders sql = N.of_nat <$> seq 1 (count_true (take 2 (asked q)))
  ∧ ps `prefix_of` (listQuery parseInt q).2
  ∧ length ps = count_true (asked q)
  ∧ (length (placeholders sql) = length ps ↔
     drop 2 (asked q) = [false; false; false; false]).
Proof.
  cbv zeta. split; [|split; [|split]].
  - unfold countQuery, asked, count_true.
    destruct (truthy (niche q)), (truthy (minSubscribers q));
      vm_compute; reflexivity.
  - unfold countQuery. cbv zeta. cbn [snd]. apply prefix_take.
  - unfold countQuery, listQuery, filters, asked, count_true.
    by_cases q; vm_compute; reflexivity.
  - unfold countQuery, listQuery, filters, asked, count_true.
    by_cases q; vm_compute; split; (reflexivity || discriminate).
Qed.
End RouteProperties.

